(** * fs/crypto/keyinfo.c: key management for filesystem encryption

    A shallow embedding of the key-management code of fs/crypto/keyinfo.c
    (fscrypt with the vendor's ICE and SDP extensions) and the properties
    of it that the design document states.

    Kernel memory is modelled by explicit stores (finite maps from
    addresses to objects), the services the file consumes (allocator,
    crypto API, keyring, the SDP provider) by their answers, and what the
    code does to the outside by a chronological trace of events. *)

From Stdlib Require Import ZArith String List Ascii.
From Stdlib.Strings Require Import Byte.
From stdpp Require Import base option list gmap.

Open Scope string_scope.
Open Scope Z_scope.
Open Scope list_scope.

(** ** Bytes and buffers *)

Abbreviation bytes := (list byte).

#[global] Instance byte_eq_decision : EqDecision byte := Byte.byte_eq_dec.

Definition zeros (n : nat) : bytes := replicate n x00.

(** [memcpy(dst, src, n)] on buffers: the first [n] bytes of [dst] are
    replaced by the first [n] bytes of [src]. *)
Definition memcpy (dst src : bytes) (n : Z) : bytes :=
  take (Z.to_nat n) src ++ drop (Z.to_nat n) dst.

(** [memset(dst, c, n)]. *)
Definition memset (dst : bytes) (c : byte) (n : Z) : bytes :=
  replicate (Z.to_nat n) c ++ drop (Z.to_nat n) dst.

(** [memcmp(a, b, n) != 0], and [crypto_memneq(a, b, n)], which differs
    from it only in running in constant time. *)
Definition memcmp_ne (a b : bytes) (n : Z) : bool :=
  negb (bool_decide (take (Z.to_nat n) a = take (Z.to_nat n) b)).

Definition crypto_memneq (a b : bytes) (n : Z) : bool :=
  negb (bool_decide (take (Z.to_nat n) a = take (Z.to_nat n) b)).

(** An integer read from memory, least significant byte first. *)
Fixpoint le_bytes_to_Z (l : bytes) : Z :=
  match l with
  | [] => 0
  | b :: r => Z.of_N (Byte.to_N b) + 256 * le_bytes_to_Z r
  end.

(** The lower-case hexadecimal digits printed by the "%*phN" format. *)
Definition hex_digit (n : N) : ascii :=
  match n with
  | 0%N => "0" | 1%N => "1" | 2%N => "2" | 3%N => "3"
  | 4%N => "4" | 5%N => "5" | 6%N => "6" | 7%N => "7"
  | 8%N => "8" | 9%N => "9" | 10%N => "a" | 11%N => "b"
  | 12%N => "c" | 13%N => "d" | 14%N => "e" | _ => "f"
  end%char.

Fixpoint hex_of_bytes (l : bytes) : string :=
  match l with
  | [] => EmptyString
  | b :: r =>
      String (hex_digit (N.div (Byte.to_N b) 16))
        (String (hex_digit (N.modulo (Byte.to_N b) 16)) (hex_of_bytes r))
  end.

(** ** What the headers define

    keyinfo.c takes its constants from headers that are not part of this
    development (uapi/linux/fs.h, fscrypt_private.h, errno.h, stat.h, the
    crypto headers).  They are kept as parameters; [linux_headers] below
    gives the values of the kernel tree. *)

Class KernelHeaders := {
  (* errno *)
  EPERM : Z;
  ENOMEM : Z;
  EINVAL : Z;
  ENOKEY : Z;
  (* uapi/linux/fs.h *)
  FS_KEY_DESCRIPTOR_SIZE : Z;
  FS_MAX_KEY_SIZE : Z;
  FS_KEY_DESC_PREFIX : string;
  FS_POLICY_FLAG_DIRECT_KEY : Z;
  FS_POLICY_FLAGS_VALID : Z;
  FS_ENCRYPTION_MODE_AES_256_XTS : Z;
  FS_ENCRYPTION_MODE_AES_256_CTS : Z;
  FS_ENCRYPTION_MODE_AES_128_CBC : Z;
  FS_ENCRYPTION_MODE_AES_128_CTS : Z;
  FS_ENCRYPTION_MODE_ADIANTUM : Z;
  FS_ENCRYPTION_MODE_PRIVATE : Z;
  (* fscrypt_private.h *)
  FS_ENCRYPTION_CONTEXT_FORMAT_V1 : Z;
  FS_KEY_DERIVATION_NONCE_SIZE : Z;
  FSCRYPT_MAX_IV_SIZE : Z;
  sizeof_fscrypt_context : Z;
  sizeof_fscrypt_key : Z;
  sizeof_ci_raw_key : Z;
  (* offsetofend(union fscrypt_iv, nonce) *)
  offsetofend_fscrypt_iv_nonce : Z;
  fscrypt_valid_enc_modes : Z -> Z -> bool;
  (* crypto headers *)
  SHA256_DIGEST_SIZE : Z;
  AES_BLOCK_SIZE : Z;
  (* stat.h *)
  S_IFMT : Z;
  S_IFREG : Z;
  S_IFDIR : Z;
  S_IFLNK : Z;
  (* machine and hashtable.h *)
  sizeof_unsigned_long : Z;
  hash_min : Z -> Z -> Z;
  (* build configuration, and the SDP headers:
     FSCRYPT_SDP_PARSE_FLAG_SDP_ONLY(knox_flags) & FSCRYPT_KNOX_FLG_SDP_MASK *)
  CONFIG_FSCRYPT_SDP : bool;
  fscrypt_sdp_flagged : Z -> bool;
}.

(** The primitives of the crypto API that the file relies on, as
    functions of their inputs. *)
Class CryptoPrimitives := {
  (* ecb(aes) encryption of [data] under [key] *)
  aes_ecb_encrypt : bytes -> bytes -> bytes;
  (* the SHA-256 digest *)
  sha256 : bytes -> bytes;
}.

(** ** Data model *)

Abbreviation ptr := positive.

(** [struct fscrypt_mode]; [logged_impl_name], the one field that changes
    at run time, is kept in the world. *)
Record fscrypt_mode := {
  friendly_name : string;
  cipher_str : string;
  keysize : Z;
  ivsize : Z;
  needs_essiv : bool;
  inline_encryption : bool;
}.

(** [struct fscrypt_key], the payload of a "logon" key. *)
Record fscrypt_key := {
  key_mode : Z;
  key_raw : bytes;
  key_size : Z;
}.

(** [struct user_key_payload]: [datalen] bytes of data, read as a
    [struct fscrypt_key] once the length has been checked. *)
Record user_key_payload := {
  datalen : Z;
  data : fscrypt_key;
}.

(** [struct key], as far as this file looks into it; the payload is
    [None] once the key has been revoked. *)
Record key := {
  description : string;
  payload : option user_key_payload;
}.

(** [struct fscrypt_context], the policy record stored with an inode. *)
Record fscrypt_context := {
  format : Z;
  contents_encryption_mode : Z;
  filenames_encryption_mode : Z;
  flags : Z;
  master_key_descriptor : bytes;
  nonce : bytes;
  knox_flags : Z;
}.

(** [struct fscrypt_master_key].  A mode is referred to by its address in
    [available_modes], that is by its index; [None] is NULL. *)
Record fscrypt_master_key := {
  mk_refcount : Z;
  mk_mode : option Z;
  mk_ctfm : option ptr;
  mk_descriptor : bytes;
  mk_raw : bytes;
}.

(** The state of the SDP provider kept with a crypto info; opaque here. *)
Record sdp_info := {
  sdp_flags : Z;
  engine_id : Z;
}.

(** [struct fscrypt_info]. *)
Record fscrypt_info := {
  ci_mode : option Z;
  ci_ctfm : option ptr;
  ci_essiv_tfm : option ptr;
  ci_master_key : option ptr;
  ci_flags : Z;
  ci_data_mode : Z;
  ci_filename_mode : Z;
  ci_master_key_descriptor : bytes;
  ci_nonce : bytes;
  ci_raw_key : bytes;
  ci_sdp_info : option sdp_info;
}.

(** A transform of the crypto API: its algorithm, the key installed by
    setkey, and whether CRYPTO_TFM_REQ_WEAK_KEY has been set. *)
Record crypto_tfm := {
  tfm_alg : string;
  tfm_key : option bytes;
  tfm_weak_key : bool;
}.

(** [struct super_block] and [struct inode], as far as the file reads
    them: the operations [s_cop] of the filesystem are given by their
    results. *)
Record super_block := {
  s_cop_flags : Z;
  s_cop_key_prefix : option string;
  s_ice_capable : bool;
}.

Record inode := {
  i_ino : Z;
  i_mode : Z;
  i_sb : super_block;
  (* IS_ENCRYPTED(inode) *)
  i_encrypted : bool;
  (* fscrypt_dummy_context_enabled(inode) *)
  i_dummy_context : bool;
  (* fscrypt_should_be_processed_by_ice(inode) *)
  i_processed_by_ice : bool;
  (* what s_cop->get_context returns and writes to its buffer *)
  i_get_context : Z * fscrypt_context;
}.

(** Memory handed back to the allocator, as it was at that moment. *)
Inductive freed_object :=
| Freed_master_key (p : ptr) (mk : fscrypt_master_key)
| Freed_crypt_info (p : ptr) (ci : fscrypt_info)
| Freed_buffer (b : bytes)
| Freed_description (s : string).

(** What the code does to the rest of the kernel, in order. *)
Inductive event :=
| Ev_fscrypt_initialize (fl : Z)
| Ev_get_context (ino : Z)
| Ev_kasprintf
| Ev_request_key (desc : string)
| Ev_down_read (desc : string)
| Ev_up_read (desc : string)
| Ev_key_put (desc : string)
| Ev_warn (msg : string)
| Ev_pr_info (msg : string)
| Ev_spin_lock
| Ev_spin_unlock
| Ev_hash_add (p : ptr)
| Ev_hash_del (p : ptr)
| Ev_kmem_cache_zalloc (p : ptr)
| Ev_kmalloc (n : Z)
| Ev_kzalloc (p : ptr)
| Ev_kfree (o : freed_object)
| Ev_crypto_alloc (alg : string) (h : ptr)
| Ev_crypto_alloc_failed (alg : string)
| Ev_crypto_setkey (h : ptr) (k : bytes)
| Ev_crypto_encrypt (h : ptr)
| Ev_crypto_digest (h : ptr)
| Ev_crypto_free (h : ptr)
| Ev_request_alloc (h : ptr)
| Ev_request_free
| Ev_cmpxchg (ino : Z) (p : ptr) (won : bool)
| Ev_sdp (what : string).

(** The kernel state the file works on. *)
Record world := {
  (* fscrypt_master_keys: the chains of the hash table, by bucket *)
  w_table : gmap Z (list ptr);
  (* live struct fscrypt_master_key objects *)
  w_mk : gmap ptr fscrypt_master_key;
  (* live struct fscrypt_info objects *)
  w_ci : gmap ptr fscrypt_info;
  (* live transforms *)
  w_tfm : gmap ptr crypto_tfm;
  (* essiv_hash_tfm *)
  w_essiv_hash_tfm : option ptr;
  (* inode->i_crypt_info, by inode number *)
  w_i_crypt_info : gmap Z ptr;
  (* the modes whose logged_impl_name is set *)
  w_logged_impl_name : list Z;
  w_trace : list event;
}.

Definition set_table (f : gmap Z (list ptr) -> gmap Z (list ptr)) (w : world) : world :=
  {| w_table := f (w_table w); w_mk := w_mk w; w_ci := w_ci w; w_tfm := w_tfm w;
     w_essiv_hash_tfm := w_essiv_hash_tfm w; w_i_crypt_info := w_i_crypt_info w;
     w_logged_impl_name := w_logged_impl_name w; w_trace := w_trace w |}.

Definition set_mk (f : gmap ptr fscrypt_master_key -> gmap ptr fscrypt_master_key)
    (w : world) : world :=
  {| w_table := w_table w; w_mk := f (w_mk w); w_ci := w_ci w; w_tfm := w_tfm w;
     w_essiv_hash_tfm := w_essiv_hash_tfm w; w_i_crypt_info := w_i_crypt_info w;
     w_logged_impl_name := w_logged_impl_name w; w_trace := w_trace w |}.

Definition set_ci (f : gmap ptr fscrypt_info -> gmap ptr fscrypt_info) (w : world) : world :=
  {| w_table := w_table w; w_mk := w_mk w; w_ci := f (w_ci w); w_tfm := w_tfm w;
     w_essiv_hash_tfm := w_essiv_hash_tfm w; w_i_crypt_info := w_i_crypt_info w;
     w_logged_impl_name := w_logged_impl_name w; w_trace := w_trace w |}.

Definition set_tfm (f : gmap ptr crypto_tfm -> gmap ptr crypto_tfm) (w : world) : world :=
  {| w_table := w_table w; w_mk := w_mk w; w_ci := w_ci w; w_tfm := f (w_tfm w);
     w_essiv_hash_tfm := w_essiv_hash_tfm w; w_i_crypt_info := w_i_crypt_info w;
     w_logged_impl_name := w_logged_impl_name w; w_trace := w_trace w |}.

Definition set_essiv_hash_tfm (h : option ptr) (w : world) : world :=
  {| w_table := w_table w; w_mk := w_mk w; w_ci := w_ci w; w_tfm := w_tfm w;
     w_essiv_hash_tfm := h; w_i_crypt_info := w_i_crypt_info w;
     w_logged_impl_name := w_logged_impl_name w; w_trace := w_trace w |}.

Definition set_i_crypt_info (f : gmap Z ptr -> gmap Z ptr) (w : world) : world :=
  {| w_table := w_table w; w_mk := w_mk w; w_ci := w_ci w; w_tfm := w_tfm w;
     w_essiv_hash_tfm := w_essiv_hash_tfm w; w_i_crypt_info := f (w_i_crypt_info w);
     w_logged_impl_name := w_logged_impl_name w; w_trace := w_trace w |}.

Definition set_logged_impl_name (l : list Z) (w : world) : world :=
  {| w_table := w_table w; w_mk := w_mk w; w_ci := w_ci w; w_tfm := w_tfm w;
     w_essiv_hash_tfm := w_essiv_hash_tfm w; w_i_crypt_info := w_i_crypt_info w;
     w_logged_impl_name := l; w_trace := w_trace w |}.

Definition set_trace (f : list event -> list event) (w : world) : world :=
  {| w_table := w_table w; w_mk := w_mk w; w_ci := w_ci w; w_tfm := w_tfm w;
     w_essiv_hash_tfm := w_essiv_hash_tfm w; w_i_crypt_info := w_i_crypt_info w;
     w_logged_impl_name := w_logged_impl_name w; w_trace := f (w_trace w) |}.

(** The world with more events on its trace. *)
Definition add_events (evs : list event) (w : world) : world :=
  set_trace (fun t => t ++ evs) w.

Definition empty_world : world :=
  {| w_table := ∅; w_mk := ∅; w_ci := ∅; w_tfm := ∅; w_essiv_hash_tfm := None;
     w_i_crypt_info := ∅; w_logged_impl_name := []; w_trace := [] |}.

(** ** Stateful code: a state monad over the world *)

Definition M (A : Type) : Type := world -> A * world.

Definition ret {A} (a : A) : M A := fun w => (a, w).

Definition bind {A B} (m : M A) (k : A -> M B) : M B :=
  fun w => let (a, w') := m w in k a w'.

Notation "'let*' x ':=' m 'in' k" := (bind m (fun x => k))
  (at level 10, x name, m at level 100, k at level 200).
Notation "m '>>' k" := (bind m (fun _ => k))
  (at level 100, k at level 200, right associativity).

Definition get : M world := fun w => (w, w).
Definition modify (f : world -> world) : M unit := fun w => (tt, f w).
Definition emit (e : event) : M unit := modify (add_events [e]).
Definition when (b : bool) (m : M unit) : M unit := if b then m else ret tt.

(** [post m w Q]: the result of [m] from [w], and the world it leaves,
    satisfy [Q]. *)
Definition post {A} (m : M A) (w : world) (Q : A -> world -> Prop) : Prop :=
  Q (m w).1 (m w).2.

(** The events of [m] are added to the trace, which is otherwise kept. *)
Definition grows {A} (m : M A) : Prop :=
  forall w, exists evs, w_trace (m w).2 = w_trace w ++ evs.

(** Once a buffer has been allocated, the last thing done is to free it,
    cleared. *)
Definition buffer_cleared (evs : list event) : Prop :=
  (exists n, Ev_kmalloc n ∈ evs) ->
  exists pre n, evs = pre ++ [Ev_kfree (Freed_buffer (zeros n))].

(** ** The answers of the services

    What the allocator, the keyring, the crypto API and the SDP provider
    answer during one call into the file.  An answer of type [Z] is the
    [int] the service returns (0 or a negative errno); for a service that
    returns a pointer, 0 stands for a valid object and any other value [e]
    for [ERR_PTR(e)]; a [bool] tells whether an allocation succeeds. *)
Record answers := {
  a_fscrypt_initialize : Z;
  a_kmem_cache_zalloc : bool;
  a_kmalloc : bool;
  (* the bytes found in a fresh kmalloc buffer *)
  a_kmalloc_garbage : bytes;
  a_kzalloc : bool;
  a_kasprintf : bool;
  (* request_key(&key_type_logon, description, NULL): [inl e] is
     [ERR_PTR(e)] *)
  a_request_key : string -> Z + key;
  (* derive_key_aes: "ecb(aes)" *)
  a_ecb_alloc : Z;
  a_ecb_request_alloc : bool;
  a_ecb_setkey : Z;
  a_ecb_encrypt : Z;
  (* allocate_skcipher_for_mode *)
  a_skcipher_alloc : Z;
  a_skcipher_driver_name : string;
  a_skcipher_setkey : Z;
  (* init_essiv_generator: "aes" *)
  a_cipher_alloc : Z;
  a_cipher_setkey : Z;
  (* derive_essiv_salt: "sha256" *)
  a_shash_alloc : Z;
  a_shash_digest : Z;
  (* what a failing digest leaves in its output buffer *)
  a_shash_scribble : bytes;
  (* the bytes found in a fresh stack frame *)
  a_stack_garbage : bytes;
  (* the SDP provider *)
  a_sdp_alloc_sdp_info : option sdp_info;
  a_sdp_update_sdp_info : Z * sdp_info;
  a_sdp_is_classified : bool;
  a_sdp_is_uninitialized : bool;
  a_sdp_is_sensitive : bool;
  a_sdp_is_native : bool;
  a_sdp_derive : Z * bytes;
  a_sdp_command_alloc : bool;
}.

(** A buffer of [n] bytes whose content is whatever [garbage] holds. *)
Definition uninitialized (garbage : bytes) (n : Z) : bytes :=
  take (Z.to_nat n) (garbage ++ zeros (Z.to_nat n)).

(** ** The crypto API on the store of transforms *)

Definition new_tfm (alg : string) : crypto_tfm :=
  {| tfm_alg := alg; tfm_key := None; tfm_weak_key := false |}.

(** crypto_alloc_skcipher, crypto_alloc_cipher, crypto_alloc_shash:
    [inl e] is [ERR_PTR(e)]. *)
Definition crypto_alloc (answer : Z) (alg : string) : M (Z + ptr) :=
  if bool_decide (answer = 0) then
    let* w := get in
    let h := fresh (dom (w_tfm w)) in
    modify (set_tfm (insert h (new_tfm alg))) >>
    emit (Ev_crypto_alloc alg h) >>
    ret (inr h)
  else
    emit (Ev_crypto_alloc_failed alg) >>
    ret (inl answer).

(** crypto_skcipher_set_flags(tfm, CRYPTO_TFM_REQ_WEAK_KEY) *)
Definition crypto_set_weak_key (h : ptr) : M unit :=
  modify (set_tfm (alter (fun t =>
    {| tfm_alg := tfm_alg t; tfm_key := tfm_key t; tfm_weak_key := true |}) h)).

(** crypto_skcipher_setkey, crypto_cipher_setkey: the key is installed
    when the service answers 0. *)
Definition crypto_setkey (answer : Z) (h : ptr) (k : bytes) : M Z :=
  emit (Ev_crypto_setkey h k) >>
  when (bool_decide (answer = 0))
    (modify (set_tfm (alter (fun t =>
      {| tfm_alg := tfm_alg t; tfm_key := Some k;
         tfm_weak_key := tfm_weak_key t |}) h))) >>
  ret answer.

(** crypto_free_skcipher, crypto_free_cipher, crypto_free_shash; a no-op
    on NULL. *)
Definition crypto_free (h : option ptr) : M unit :=
  match h with
  | None => ret tt
  | Some h => modify (set_tfm (delete h)) >> emit (Ev_crypto_free h)
  end.

(** The key a transform holds. *)
Definition key_of_tfm (w : world) (h : ptr) : bytes :=
  match w_tfm w !! h with
  | Some t => default [] (tfm_key t)
  | None => []
  end.

(** The events of crypto_free. *)
Definition free_events (h : option ptr) : list event :=
  match h with Some h => [Ev_crypto_free h] | None => [] end.

(** kzfree(buf): the buffer is cleared, then freed; a no-op on NULL. *)
Definition kzfree (buf : option bytes) : M unit :=
  match buf with
  | None => ret tt
  | Some b => emit (Ev_kfree (Freed_buffer (memset b x00 (Z.of_nat (length b)))))
  end.

Section Keyinfo.
Context `{KernelHeaders} `{CryptoPrimitives}.

(** ** Key derivation *)

(** [derive_key_aes]: the derived key is the master key encrypted with
    ecb(aes) under the nonce of the inode.  Returns the result and the
    content of [derived_key]. *)
Definition derive_key_aes (a : answers) (master_key : bytes)
    (ctx : fscrypt_context) (derived_key : bytes) (derived_keysize : Z)
    : M (Z * bytes) :=
  let* tfm := crypto_alloc (a_ecb_alloc a) "ecb(aes)" in
  match tfm with
  | inl e =>
      (* out: skcipher_request_free(NULL); crypto_free_skcipher(NULL) *)
      ret (e, derived_key)
  | inr tfm =>
      crypto_set_weak_key tfm >>
      if negb (a_ecb_request_alloc a) then
        crypto_free (Some tfm) >>
        ret (- ENOMEM, derived_key)
      else
        emit (Ev_request_alloc tfm) >>
        let* res := crypto_setkey (a_ecb_setkey a) tfm
                      (take (Z.to_nat FS_KEY_DERIVATION_NONCE_SIZE) (nonce ctx)) in
        if res <? 0 then
          emit Ev_request_free >>
          crypto_free (Some tfm) >>
          ret (res, derived_key)
        else
          let* w := get in
          emit (Ev_crypto_encrypt tfm) >>
          let res := a_ecb_encrypt a in
          let derived_key :=
            if bool_decide (res = 0) then
              memcpy derived_key
                (aes_ecb_encrypt (key_of_tfm w tfm)
                   (take (Z.to_nat derived_keysize) master_key))
                derived_keysize
            else derived_key in
          emit Ev_request_free >>
          crypto_free (Some tfm) >>
          ret (res, derived_key)
  end.

(** ** Wrapping-key locator *)

(** [find_and_lock_process_key]: [inl e] is [ERR_PTR(e)]; on success the
    key is returned read-locked, with its validated payload. *)
Definition find_and_lock_process_key (a : answers) (prefix : string)
    (descriptor : bytes) (min_keysize : Z) : M (Z + key * fscrypt_key) :=
  if negb (a_kasprintf a) then ret (inl (- ENOMEM))
  else
    let desc := String.append prefix
                  (hex_of_bytes (take (Z.to_nat FS_KEY_DESCRIPTOR_SIZE) descriptor)) in
    emit Ev_kasprintf >>
    emit (Ev_request_key desc) >>
    emit (Ev_kfree (Freed_description desc)) >>
    match a_request_key a desc with
    | inl e => ret (inl e)
    | inr k =>
        let invalid : M (Z + key * fscrypt_key) :=
          emit (Ev_up_read (description k)) >>
          emit (Ev_key_put (description k)) >>
          ret (inl (- ENOKEY)) in
        emit (Ev_down_read (description k)) >>
        match payload k with
        | None => (* revoked before its semaphore was taken *) invalid
        | Some ukp =>
            let payload := data ukp in
            if negb (bool_decide (datalen ukp = sizeof_fscrypt_key))
               || (key_size payload <? 1)
               || (FS_MAX_KEY_SIZE <? key_size payload) then
              emit (Ev_warn "key has invalid payload") >> invalid
            else if key_size payload <? min_keysize then
              emit (Ev_warn "key is too short") >> invalid
            else ret (inr (k, payload))
        end
    end.

(** ** Mode registry *)

Definition no_mode : fscrypt_mode :=
  {| friendly_name := ""; cipher_str := ""; keysize := 0; ivsize := 0;
     needs_essiv := false; inline_encryption := false |}.

(** [available_modes], indexed by mode number; the entries the
    initializer does not name are zero. *)
Definition available_modes (i : Z) : fscrypt_mode :=
  if bool_decide (i = FS_ENCRYPTION_MODE_PRIVATE) then
    {| friendly_name := "ice"; cipher_str := "xts(aes)";
       keysize := 64; ivsize := 16;
       needs_essiv := false; inline_encryption := true |}
  else if bool_decide (i = FS_ENCRYPTION_MODE_ADIANTUM) then
    {| friendly_name := "Adiantum"; cipher_str := "adiantum(xchacha12,aes)";
       keysize := 32; ivsize := 32;
       needs_essiv := false; inline_encryption := false |}
  else if bool_decide (i = FS_ENCRYPTION_MODE_AES_128_CTS) then
    {| friendly_name := "AES-128-CTS-CBC"; cipher_str := "cts(cbc(aes))";
       keysize := 16; ivsize := 16;
       needs_essiv := false; inline_encryption := false |}
  else if bool_decide (i = FS_ENCRYPTION_MODE_AES_128_CBC) then
    {| friendly_name := "AES-128-CBC"; cipher_str := "cbc(aes)";
       keysize := 16; ivsize := 16;
       needs_essiv := true; inline_encryption := false |}
  else if bool_decide (i = FS_ENCRYPTION_MODE_AES_256_CTS) then
    {| friendly_name := "AES-256-CTS-CBC"; cipher_str := "cts(cbc(aes))";
       keysize := 32; ivsize := 16;
       needs_essiv := false; inline_encryption := false |}
  else if bool_decide (i = FS_ENCRYPTION_MODE_AES_256_XTS) then
    {| friendly_name := "AES-256-XTS"; cipher_str := "xts(aes)";
       keysize := 64; ivsize := 16;
       needs_essiv := false; inline_encryption := false |}
  else no_mode.

Definition S_ISREG (m : Z) : bool := bool_decide (Z.land m S_IFMT = S_IFREG).
Definition S_ISDIR (m : Z) : bool := bool_decide (Z.land m S_IFMT = S_IFDIR).
Definition S_ISLNK (m : Z) : bool := bool_decide (Z.land m S_IFMT = S_IFLNK).

(** [select_encryption_mode]: [inl e] is [ERR_PTR(e)], [inr i] the
    address of [available_modes[i]].  The test IS_ERR(mode) of the source
    is applied to an address inside [available_modes] and never holds. *)
Definition select_encryption_mode (ci : fscrypt_info) (inode : inode)
    : M (Z + Z) :=
  if negb (fscrypt_valid_enc_modes (ci_data_mode ci) (ci_filename_mode ci)) then
    emit (Ev_warn "inode uses unsupported encryption modes") >>
    ret (inl (- EINVAL))
  else if S_ISREG (i_mode inode) then
    let mode := ci_data_mode ci in
    if inline_encryption (available_modes mode)
       && negb (s_ice_capable (i_sb inode)) then
      emit (Ev_warn "ICE support not available") >>
      ret (inl (- EINVAL))
    else ret (inr mode)
  else if S_ISDIR (i_mode inode) || S_ISLNK (i_mode inode) then
    ret (inr (ci_filename_mode ci))
  else
    emit (Ev_warn "fscrypt: filesystem tried to load encryption info for inode which is not encryptable") >>
    ret (inl (- EINVAL)).

(** [find_and_derive_key]: find the master key, then derive the key of
    the inode.  Returns the result and the content of [derived_key]. *)
Definition find_and_derive_key (a : answers) (inode : inode)
    (ctx : fscrypt_context) (derived_key : bytes) (mode : Z) : M (Z * bytes) :=
  let* key := find_and_lock_process_key a FS_KEY_DESC_PREFIX
                (master_key_descriptor ctx) (keysize (available_modes mode)) in
  let* key :=
    match key, s_cop_key_prefix (i_sb inode) with
    | inl e, Some prefix =>
        if bool_decide (e = - ENOKEY) then
          find_and_lock_process_key a prefix
            (master_key_descriptor ctx) (keysize (available_modes mode))
        else ret key
    | _, _ => ret key
    end in
  match key with
  | inl e => ret (e, derived_key)
  | inr (key, payload) =>
      let* r :=
        if negb (bool_decide (Z.land (flags ctx) FS_POLICY_FLAG_DIRECT_KEY = 0)) then
          if ivsize (available_modes mode) <? offsetofend_fscrypt_iv_nonce then
            emit (Ev_warn "direct key mode not allowed with this mode") >>
            ret (- EINVAL, derived_key)
          else if negb (bool_decide (contents_encryption_mode ctx =
                                     filenames_encryption_mode ctx)) then
            emit (Ev_warn "direct key mode not allowed with different contents and filenames modes") >>
            ret (- EINVAL, derived_key)
          else
            ret (0, memcpy derived_key (key_raw payload)
                      (keysize (available_modes mode)))
        else if inline_encryption (available_modes mode) then
          ret (0, memcpy derived_key (key_raw payload)
                    (keysize (available_modes mode)))
        else
          derive_key_aes a (key_raw payload) ctx derived_key
            (keysize (available_modes mode)) in
      emit (Ev_up_read (description key)) >>
      emit (Ev_key_put (description key)) >>
      ret r
  end.

(** ** Cipher objects *)

(** [allocate_skcipher_for_mode]: allocate and key a cipher object for
    the mode; [inl e] is [ERR_PTR(e)]. *)
Definition allocate_skcipher_for_mode (a : answers) (mode : Z)
    (raw_key : bytes) (inode : inode) : M (Z + ptr) :=
  let* tfm := crypto_alloc (a_skcipher_alloc a)
                (cipher_str (available_modes mode)) in
  match tfm with
  | inl e =>
      emit (Ev_warn "error allocating transform for inode") >>
      ret (inl e)
  | inr tfm =>
      let* w := get in
      when (negb (bool_decide (mode ∈ w_logged_impl_name w)))
        (modify (set_logged_impl_name (mode :: w_logged_impl_name w)) >>
         emit (Ev_pr_info (a_skcipher_driver_name a))) >>
      crypto_set_weak_key tfm >>
      let* err := crypto_setkey (a_skcipher_setkey a) tfm
                    (take (Z.to_nat (keysize (available_modes mode))) raw_key) in
      if negb (bool_decide (err = 0)) then
        crypto_free (Some tfm) >>
        ret (inl err)
      else ret (inr tfm)
  end.

(** ** The table of master keys of DIRECT_KEY policies *)

(** HASH_BITS(fscrypt_master_keys): the table has 64 buckets. *)
Definition HASH_BITS : Z := 6.

(** A [struct fscrypt_master_key] as kzalloc returns it. *)
Definition zero_master_key : fscrypt_master_key :=
  {| mk_refcount := 0; mk_mode := None; mk_ctfm := None;
     mk_descriptor := zeros (Z.to_nat FS_KEY_DESCRIPTOR_SIZE);
     mk_raw := zeros (Z.to_nat FS_MAX_KEY_SIZE) |}.

(** The memory of a [struct fscrypt_master_key] after it has been
    cleared. *)
Definition cleared_master_key (mk : fscrypt_master_key) : fscrypt_master_key :=
  {| mk_refcount := 0; mk_mode := None; mk_ctfm := None;
     mk_descriptor := zeros (length (mk_descriptor mk));
     mk_raw := zeros (length (mk_raw mk)) |}.

Definition with_refcount (n : Z) (mk : fscrypt_master_key) : fscrypt_master_key :=
  {| mk_refcount := n; mk_mode := mk_mode mk; mk_ctfm := mk_ctfm mk;
     mk_descriptor := mk_descriptor mk; mk_raw := mk_raw mk |}.

Definition with_mk_mode (m : option Z) (mk : fscrypt_master_key) : fscrypt_master_key :=
  {| mk_refcount := mk_refcount mk; mk_mode := m; mk_ctfm := mk_ctfm mk;
     mk_descriptor := mk_descriptor mk; mk_raw := mk_raw mk |}.

Definition with_mk_ctfm (h : option ptr) (mk : fscrypt_master_key) : fscrypt_master_key :=
  {| mk_refcount := mk_refcount mk; mk_mode := mk_mode mk; mk_ctfm := h;
     mk_descriptor := mk_descriptor mk; mk_raw := mk_raw mk |}.

Definition with_mk_descriptor (d : bytes) (mk : fscrypt_master_key) : fscrypt_master_key :=
  {| mk_refcount := mk_refcount mk; mk_mode := mk_mode mk; mk_ctfm := mk_ctfm mk;
     mk_descriptor := d; mk_raw := mk_raw mk |}.

Definition with_mk_raw (r : bytes) (mk : fscrypt_master_key) : fscrypt_master_key :=
  {| mk_refcount := mk_refcount mk; mk_mode := mk_mode mk; mk_ctfm := mk_ctfm mk;
     mk_descriptor := mk_descriptor mk; mk_raw := r |}.

(** A store through a pointer to a master key. *)
Definition mk_store (p : ptr) (f : fscrypt_master_key -> fscrypt_master_key) : M unit :=
  modify (set_mk (alter f p)).

(** [free_master_key]: destroy the cipher handle, then kzfree the entry. *)
Definition free_master_key (mk : option ptr) : M unit :=
  match mk with
  | None => ret tt
  | Some p =>
      let* w := get in
      match w_mk w !! p with
      | None => ret tt
      | Some o =>
          crypto_free (mk_ctfm o) >>
          (* kzfree(mk) *)
          modify (set_mk (delete p)) >>
          emit (Ev_kfree (Freed_master_key p (cleared_master_key o)))
      end
  end.

(** Modelled from the spec: [refcount_dec_and_lock] of lib/refcount.c,
    which is not part of this file.  The count is decremented under the
    lock; the lock stays held, and true is returned, exactly when the
    count has reached zero. *)
Definition refcount_dec_and_lock (p : ptr) : M bool :=
  emit Ev_spin_lock >>
  mk_store p (fun mk => with_refcount (mk_refcount mk - 1) mk) >>
  let* w := get in
  if bool_decide (mk_refcount <$> w_mk w !! p = Some 0) then ret true
  else emit Ev_spin_unlock >> ret false.

(** [refcount_inc]. *)
Definition refcount_inc (p : ptr) : M unit :=
  mk_store p (fun mk => with_refcount (mk_refcount mk + 1) mk).

(** [hash_del(&mk->mk_node)]: the node leaves the chain it is on. *)
Definition hash_del (p : ptr) : M unit :=
  modify (set_table (fmap (filter (fun q => q ≠ p)))) >>
  emit (Ev_hash_del p).

(** [hash_add(fscrypt_master_keys, &mk->mk_node, hash_key)]: the node is
    put at the head of the chain of its bucket. *)
Definition hash_add (p : ptr) (hash_key : Z) : M unit :=
  modify (set_table (fun t =>
    <[hash_min hash_key HASH_BITS := p :: default [] (t !! hash_min hash_key HASH_BITS)]> t)) >>
  emit (Ev_hash_add p).

(** [put_master_key]. *)
Definition put_master_key (mk : ptr) : M unit :=
  let* last := refcount_dec_and_lock mk in
  if negb last then ret tt
  else
    hash_del mk >>
    emit Ev_spin_unlock >>
    free_master_key (Some mk).

(** The loop of [find_or_insert_master_key] over one chain: the first
    entry with the same descriptor, mode and raw key. *)
Fixpoint search_chain (heap : gmap ptr fscrypt_master_key)
    (descriptor raw_key : bytes) (mode : Z) (chain : list ptr) : option ptr :=
  match chain with
  | [] => None
  | p :: rest =>
      match heap !! p with
      | None => search_chain heap descriptor raw_key mode rest
      | Some mk =>
          if memcmp_ne descriptor (mk_descriptor mk) FS_KEY_DESCRIPTOR_SIZE then
            search_chain heap descriptor raw_key mode rest
          else if negb (bool_decide (Some mode = mk_mode mk)) then
            search_chain heap descriptor raw_key mode rest
          else if crypto_memneq raw_key (mk_raw mk)
                    (keysize (available_modes mode)) then
            search_chain heap descriptor raw_key mode rest
          else Some p
      end
  end.

(** The hash key: the first sizeof(unsigned long) bytes of the
    descriptor. *)
Definition hash_key_of (descriptor : bytes) : Z :=
  le_bytes_to_Z (take (Z.to_nat sizeof_unsigned_long) descriptor).

(** [find_or_insert_master_key]: if found, the entry is returned with
    elevated refcount and [to_insert] is freed; if not, [to_insert] is
    inserted and returned.  [None] is NULL. *)
Definition find_or_insert_master_key (to_insert : option ptr)
    (raw_key : bytes) (mode : Z) (ci : fscrypt_info) : M (option ptr) :=
  let hash_key := hash_key_of (ci_master_key_descriptor ci) in
  emit Ev_spin_lock >>
  let* w := get in
  match search_chain (w_mk w) (ci_master_key_descriptor ci) raw_key mode
          (default [] (w_table w !! hash_min hash_key HASH_BITS)) with
  | Some mk =>
      (* using existing tfm with same (descriptor, mode, raw_key) *)
      refcount_inc mk >>
      emit Ev_spin_unlock >>
      free_master_key to_insert >>
      ret (Some mk)
  | None =>
      match to_insert with
      | Some p => hash_add p hash_key
      | None => ret tt
      end >>
      emit Ev_spin_unlock >>
      ret to_insert
  end.

(** [fscrypt_get_master_key]: [inl e] is [ERR_PTR(e)]. *)
Definition fscrypt_get_master_key (a : answers) (ci : fscrypt_info)
    (mode : Z) (raw_key : bytes) (inode : inode) : M (Z + option ptr) :=
  (* Is there already a tfm for this key? *)
  let* mk := find_or_insert_master_key None raw_key mode ci in
  match mk with
  | Some mk => ret (inr (Some mk))
  | None =>
      (* Nope, allocate one. *)
      if negb (a_kzalloc a) then ret (inl (- ENOMEM))
      else
        let* w := get in
        let mk := fresh (dom (w_mk w)) in
        modify (set_mk (insert mk zero_master_key)) >>
        emit (Ev_kzalloc mk) >>
        mk_store mk (with_refcount 1) >>
        mk_store mk (with_mk_mode (Some mode)) >>
        let* ctfm := allocate_skcipher_for_mode a mode raw_key inode in
        match ctfm with
        | inl err =>
            mk_store mk (with_mk_ctfm None) >>
            free_master_key (Some mk) >>
            ret (inl err)
        | inr ctfm =>
            mk_store mk (with_mk_ctfm (Some ctfm)) >>
            mk_store mk (fun o => with_mk_descriptor
              (memcpy (mk_descriptor o) (ci_master_key_descriptor ci)
                 FS_KEY_DESCRIPTOR_SIZE) o) >>
            mk_store mk (fun o => with_mk_raw
              (memcpy (mk_raw o) raw_key (keysize (available_modes mode))) o) >>
            let* r := find_or_insert_master_key (Some mk) raw_key mode ci in
            ret (inr r)
        end
  end.

(** ** Per-inode crypto info *)

(** A [struct fscrypt_info] as kmem_cache_zalloc returns it. *)
Definition zero_crypt_info : fscrypt_info :=
  {| ci_mode := None; ci_ctfm := None; ci_essiv_tfm := None;
     ci_master_key := None; ci_flags := 0; ci_data_mode := 0;
     ci_filename_mode := 0;
     ci_master_key_descriptor := zeros (Z.to_nat FS_KEY_DESCRIPTOR_SIZE);
     ci_nonce := zeros (Z.to_nat FS_KEY_DERIVATION_NONCE_SIZE);
     ci_raw_key := zeros (Z.to_nat sizeof_ci_raw_key);
     ci_sdp_info := None |}.

Definition with_ci_mode (v : option Z) (ci : fscrypt_info) : fscrypt_info :=
  {| ci_mode := v; ci_ctfm := ci_ctfm ci; ci_essiv_tfm := ci_essiv_tfm ci;
     ci_master_key := ci_master_key ci; ci_flags := ci_flags ci;
     ci_data_mode := ci_data_mode ci;
     ci_filename_mode := ci_filename_mode ci;
     ci_master_key_descriptor := ci_master_key_descriptor ci;
     ci_nonce := ci_nonce ci; ci_raw_key := ci_raw_key ci;
     ci_sdp_info := ci_sdp_info ci |}.

Definition with_ci_ctfm (v : option ptr) (ci : fscrypt_info) : fscrypt_info :=
  {| ci_mode := ci_mode ci; ci_ctfm := v; ci_essiv_tfm := ci_essiv_tfm ci;
     ci_master_key := ci_master_key ci; ci_flags := ci_flags ci;
     ci_data_mode := ci_data_mode ci;
     ci_filename_mode := ci_filename_mode ci;
     ci_master_key_descriptor := ci_master_key_descriptor ci;
     ci_nonce := ci_nonce ci; ci_raw_key := ci_raw_key ci;
     ci_sdp_info := ci_sdp_info ci |}.

Definition with_ci_essiv_tfm (v : option ptr) (ci : fscrypt_info) : fscrypt_info :=
  {| ci_mode := ci_mode ci; ci_ctfm := ci_ctfm ci; ci_essiv_tfm := v;
     ci_master_key := ci_master_key ci; ci_flags := ci_flags ci;
     ci_data_mode := ci_data_mode ci;
     ci_filename_mode := ci_filename_mode ci;
     ci_master_key_descriptor := ci_master_key_descriptor ci;
     ci_nonce := ci_nonce ci; ci_raw_key := ci_raw_key ci;
     ci_sdp_info := ci_sdp_info ci |}.

Definition with_ci_master_key (v : option ptr) (ci : fscrypt_info) : fscrypt_info :=
  {| ci_mode := ci_mode ci; ci_ctfm := ci_ctfm ci;
     ci_essiv_tfm := ci_essiv_tfm ci; ci_master_key := v;
     ci_flags := ci_flags ci; ci_data_mode := ci_data_mode ci;
     ci_filename_mode := ci_filename_mode ci;
     ci_master_key_descriptor := ci_master_key_descriptor ci;
     ci_nonce := ci_nonce ci; ci_raw_key := ci_raw_key ci;
     ci_sdp_info := ci_sdp_info ci |}.

Definition with_ci_flags (v : Z) (ci : fscrypt_info) : fscrypt_info :=
  {| ci_mode := ci_mode ci; ci_ctfm := ci_ctfm ci;
     ci_essiv_tfm := ci_essiv_tfm ci; ci_master_key := ci_master_key ci;
     ci_flags := v; ci_data_mode := ci_data_mode ci;
     ci_filename_mode := ci_filename_mode ci;
     ci_master_key_descriptor := ci_master_key_descriptor ci;
     ci_nonce := ci_nonce ci; ci_raw_key := ci_raw_key ci;
     ci_sdp_info := ci_sdp_info ci |}.

Definition with_ci_data_mode (v : Z) (ci : fscrypt_info) : fscrypt_info :=
  {| ci_mode := ci_mode ci; ci_ctfm := ci_ctfm ci;
     ci_essiv_tfm := ci_essiv_tfm ci; ci_master_key := ci_master_key ci;
     ci_flags := ci_flags ci; ci_data_mode := v;
     ci_filename_mode := ci_filename_mode ci;
     ci_master_key_descriptor := ci_master_key_descriptor ci;
     ci_nonce := ci_nonce ci; ci_raw_key := ci_raw_key ci;
     ci_sdp_info := ci_sdp_info ci |}.

Definition with_ci_filename_mode (v : Z) (ci : fscrypt_info) : fscrypt_info :=
  {| ci_mode := ci_mode ci; ci_ctfm := ci_ctfm ci;
     ci_essiv_tfm := ci_essiv_tfm ci; ci_master_key := ci_master_key ci;
     ci_flags := ci_flags ci; ci_data_mode := ci_data_mode ci;
     ci_filename_mode := v;
     ci_master_key_descriptor := ci_master_key_descriptor ci;
     ci_nonce := ci_nonce ci; ci_raw_key := ci_raw_key ci;
     ci_sdp_info := ci_sdp_info ci |}.

Definition with_ci_master_key_descriptor (v : bytes) (ci : fscrypt_info) : fscrypt_info :=
  {| ci_mode := ci_mode ci; ci_ctfm := ci_ctfm ci;
     ci_essiv_tfm := ci_essiv_tfm ci; ci_master_key := ci_master_key ci;
     ci_flags := ci_flags ci; ci_data_mode := ci_data_mode ci;
     ci_filename_mode := ci_filename_mode ci; ci_master_key_descriptor := v;
     ci_nonce := ci_nonce ci; ci_raw_key := ci_raw_key ci;
     ci_sdp_info := ci_sdp_info ci |}.

Definition with_ci_nonce (v : bytes) (ci : fscrypt_info) : fscrypt_info :=
  {| ci_mode := ci_mode ci; ci_ctfm := ci_ctfm ci;
     ci_essiv_tfm := ci_essiv_tfm ci; ci_master_key := ci_master_key ci;
     ci_flags := ci_flags ci; ci_data_mode := ci_data_mode ci;
     ci_filename_mode := ci_filename_mode ci;
     ci_master_key_descriptor := ci_master_key_descriptor ci; ci_nonce := v;
     ci_raw_key := ci_raw_key ci; ci_sdp_info := ci_sdp_info ci |}.

Definition with_ci_raw_key (v : bytes) (ci : fscrypt_info) : fscrypt_info :=
  {| ci_mode := ci_mode ci; ci_ctfm := ci_ctfm ci;
     ci_essiv_tfm := ci_essiv_tfm ci; ci_master_key := ci_master_key ci;
     ci_flags := ci_flags ci; ci_data_mode := ci_data_mode ci;
     ci_filename_mode := ci_filename_mode ci;
     ci_master_key_descriptor := ci_master_key_descriptor ci;
     ci_nonce := ci_nonce ci; ci_raw_key := v;
     ci_sdp_info := ci_sdp_info ci |}.

Definition with_ci_sdp_info (v : option sdp_info) (ci : fscrypt_info) : fscrypt_info :=
  {| ci_mode := ci_mode ci; ci_ctfm := ci_ctfm ci;
     ci_essiv_tfm := ci_essiv_tfm ci; ci_master_key := ci_master_key ci;
     ci_flags := ci_flags ci; ci_data_mode := ci_data_mode ci;
     ci_filename_mode := ci_filename_mode ci;
     ci_master_key_descriptor := ci_master_key_descriptor ci;
     ci_nonce := ci_nonce ci; ci_raw_key := ci_raw_key ci;
     ci_sdp_info := v |}.

(** A load and a store through a pointer to a crypto info. *)
Definition ci_load (p : ptr) : M fscrypt_info :=
  let* w := get in ret (default zero_crypt_info (w_ci w !! p)).

Definition ci_store (p : ptr) (f : fscrypt_info -> fscrypt_info) : M unit :=
  modify (set_ci (alter f p)).

(** ** ESSIV *)

(** [derive_essiv_salt]: the SHA-256 digest of the key, computed with
    the hash transform that is set up on first use.  Returns the result
    and the content of [salt]. *)
Definition derive_essiv_salt (a : answers) (key : bytes) (keysize : Z)
    (salt : bytes) : M (Z * bytes) :=
  let* w := get in
  let* tfm :=
    match w_essiv_hash_tfm w with
    | Some tfm => ret (inr tfm)
    | None =>
        (* init hash transform on demand *)
        let* tfm := crypto_alloc (a_shash_alloc a) "sha256" in
        match tfm with
        | inl e =>
            emit (Ev_warn "error allocating SHA-256 transform") >>
            ret (inl e)
        | inr tfm =>
            (* prev_tfm = cmpxchg(&essiv_hash_tfm, NULL, tfm) *)
            let* w := get in
            match w_essiv_hash_tfm w with
            | Some prev_tfm => crypto_free (Some tfm) >> ret (inr prev_tfm)
            | None => modify (set_essiv_hash_tfm (Some tfm)) >> ret (inr tfm)
            end
        end
    end in
  match tfm with
  | inl e => ret (e, salt)
  | inr tfm =>
      emit (Ev_crypto_digest tfm) >>
      if bool_decide (a_shash_digest a = 0) then
        ret (0, memcpy salt (sha256 (take (Z.to_nat keysize) key))
                  SHA256_DIGEST_SIZE)
      else
        ret (a_shash_digest a,
             take (length salt) (a_shash_scribble a ++ salt))
  end.

(** [init_essiv_generator].  Returns the result and the content of the
    stack buffer [salt] at the moment the function returns. *)
Definition init_essiv_generator (a : answers) (ci : ptr) (raw_key : bytes)
    (keysize : Z) : M (Z * bytes) :=
  let salt := uninitialized (a_stack_garbage a) SHA256_DIGEST_SIZE in
  let* essiv_tfm := crypto_alloc (a_cipher_alloc a) "aes" in
  match essiv_tfm with
  | inl e => ret (e, salt)
  | inr essiv_tfm =>
      ci_store ci (with_ci_essiv_tfm (Some essiv_tfm)) >>
      let* r := derive_essiv_salt a raw_key keysize salt in
      let err := r.1 in
      let salt := r.2 in
      if negb (bool_decide (err = 0)) then
        (* out: *)
        ret (err, memset salt x00 SHA256_DIGEST_SIZE)
      else
        let* err := crypto_setkey (a_cipher_setkey a) essiv_tfm
                      (take (Z.to_nat SHA256_DIGEST_SIZE) salt) in
        (* out: *)
        ret (err, memset salt x00 SHA256_DIGEST_SIZE)
  end.

(** [setup_crypto_transform]: set up the cipher objects of the inode for
    the given mode and key. *)
Definition setup_crypto_transform (a : answers) (ci : ptr) (mode : Z)
    (raw_key : bytes) (inode : inode) : M Z :=
  let* c := ci_load ci in
  let direct_key :=
    negb (bool_decide (Z.land (ci_flags c) FS_POLICY_FLAG_DIRECT_KEY = 0)) in
  let* r :=
    if direct_key then
      let* mk := fscrypt_get_master_key a c mode raw_key inode in
      match mk with
      | inl e => ret (inl e)
      | inr mk =>
          let* w := get in
          (* ctfm = mk->mk_ctfm *)
          ret (inr (mk, match mk with
                        | Some p =>
                            match w_mk w !! p with
                            | Some o => mk_ctfm o
                            | None => None
                            end
                        | None => None
                        end))
      end
    else
      let* ctfm := allocate_skcipher_for_mode a mode raw_key inode in
      match ctfm with
      | inl e => ret (inl e)
      | inr ctfm => ret (inr (None, Some ctfm))
      end in
  match r with
  | inl e => ret e
  | inr (mk, ctfm) =>
      ci_store ci (with_ci_master_key mk) >>
      ci_store ci (with_ci_ctfm ctfm) >>
      if needs_essiv (available_modes mode) then
        (* ESSIV implies 16-byte IVs which implies !DIRECT_KEY *)
        when (negb (bool_decide (ivsize (available_modes mode) = AES_BLOCK_SIZE)))
          (emit (Ev_warn "WARN_ON(mode->ivsize != AES_BLOCK_SIZE)")) >>
        when direct_key
          (emit (Ev_warn "WARN_ON(ci->ci_flags & FS_POLICY_FLAG_DIRECT_KEY)")) >>
        let* r := init_essiv_generator a ci raw_key
                    (keysize (available_modes mode)) in
        if negb (bool_decide (r.1 = 0)) then
          emit (Ev_warn "error initializing ESSIV generator for inode") >>
          ret r.1
        else ret 0
      else ret 0
  end.

(** [put_crypt_info]; a no-op on NULL. *)
Definition put_crypt_info (ci : option ptr) : M unit :=
  match ci with
  | None => ret tt
  | Some p =>
      let* c := ci_load p in
      when CONFIG_FSCRYPT_SDP (emit (Ev_sdp "fscrypt_sdp_put_sdp_info")) >>
      match ci_master_key c with
      | Some mk => put_master_key mk
      | None =>
          crypto_free (ci_ctfm c) >>
          crypto_free (ci_essiv_tfm c)
      end >>
      ci_store p (fun c =>
        with_ci_raw_key (memset (ci_raw_key c) x00 sizeof_ci_raw_key) c) >>
      (* kmem_cache_free(fscrypt_info_cachep, ci) *)
      let* c := ci_load p in
      modify (set_ci (delete p)) >>
      emit (Ev_kfree (Freed_crypt_info p c))
  end.

Definition fscrypt_data_encryption_mode (inode : inode) : Z :=
  if i_processed_by_ice inode then FS_ENCRYPTION_MODE_PRIVATE
  else FS_ENCRYPTION_MODE_AES_256_XTS.

(** [fscrypt_has_encryption_key(inode)]: [inode->i_crypt_info] is set. *)
Definition fscrypt_has_encryption_key (inode : inode) : M bool :=
  let* w := get in
  ret (bool_decide (is_Some (w_i_crypt_info w !! i_ino inode))).

(** [derive_fek]: the key of a classified file, from the SDP provider.
    Returns the result and the content of [fek]. *)
Definition derive_fek (a : answers) (fek : bytes) (fek_len : Z)
    : M (Z * bytes) :=
  let provided :=
    ((a_sdp_derive a).1, take (length fek) ((a_sdp_derive a).2 ++ fek)) in
  if a_sdp_is_uninitialized a then
    emit (Ev_sdp "fscrypt_sdp_derive_uninitialized_dek") >> ret provided
  else if a_sdp_is_sensitive a then
    emit (Ev_sdp "fscrypt_sdp_derive_dek") >> ret provided
  else if a_sdp_is_native a then
    emit (Ev_sdp "fscrypt_sdp_derive_fek") >> ret provided
  else ret (0, fek).

(** The policy record that [fscrypt_get_encryption_info] reads: [inl r]
    when the function returns [r] at this point.  Without a stored
    record, a context is made up for an unencrypted directory of a
    filesystem with the dummy context enabled. *)
Definition read_context (inode : inode) : Z + fscrypt_context :=
  let res := (i_get_context inode).1 in
  if res <? 0 then
    if negb (i_dummy_context inode) || i_encrypted inode then inl res
    else
      inr {| format := FS_ENCRYPTION_CONTEXT_FORMAT_V1;
             contents_encryption_mode := fscrypt_data_encryption_mode inode;
             filenames_encryption_mode := FS_ENCRYPTION_MODE_AES_256_CTS;
             flags := 0;
             master_key_descriptor :=
               replicate (Z.to_nat FS_KEY_DESCRIPTOR_SIZE) x42;
             nonce := zeros (Z.to_nat FS_KEY_DERIVATION_NONCE_SIZE);
             knox_flags := 0 |}
  else if negb (bool_decide (res = sizeof_fscrypt_context)) then inl (- EINVAL)
  else inr (i_get_context inode).2.

(** The part of [fscrypt_get_encryption_info] that fills [raw_key]: the
    SDP provider for a classified file, [find_and_derive_key] otherwise.
    Returns the result and the content of [raw_key]; a result other than
    0 is the jump to [out]. *)
Definition get_raw_key (a : answers) (inode : inode) (ctx : fscrypt_context)
    (crypt_info : ptr) (raw_key : bytes) (mode : Z) : M (Z * bytes) :=
  let derive := find_and_derive_key a inode ctx raw_key mode in
  if CONFIG_FSCRYPT_SDP && fscrypt_sdp_flagged (knox_flags ctx) then
    match a_sdp_alloc_sdp_info a with
    | None =>
        ci_store crypt_info (with_ci_sdp_info None) >>
        ret (- ENOMEM, raw_key)
    | Some info =>
        ci_store crypt_info (with_ci_sdp_info (Some info)) >>
        emit (Ev_sdp "fscrypt_sdp_update_sdp_info") >>
        ci_store crypt_info (with_ci_sdp_info (Some (a_sdp_update_sdp_info a).2)) >>
        let res := (a_sdp_update_sdp_info a).1 in
        if negb (bool_decide (res = 0)) then ret (res, raw_key)
        else if a_sdp_is_classified a then
          let* r := derive_fek a raw_key (keysize (available_modes mode)) in
          if negb (bool_decide (r.1 = 0)) then
            when (a_sdp_is_sensitive a)
              (when (a_sdp_command_alloc a)
                 (emit (Ev_sdp "sdp_fs_request(FSOP_AUDIT_FAIL_DECRYPT)"))) >>
            ret r
          else
            emit (Ev_sdp "fscrypt_sdp_update_conv_status") >>
            (* goto sdp_dek *)
            ret r
        else derive
    end
  else derive.

(** [fscrypt_get_encryption_info] from the allocation of the crypto info
    to the point just before [cmpxchg_release].  [inl (res, raw_key)] is
    a jump to [out] with these values of [res] and [raw_key] (and
    [crypt_info] still set); [inr raw_key] is the arrival at the
    [cmpxchg_release], where [res] is 0. *)
Definition build_crypt_info (a : answers) (inode : inode)
    (ctx : fscrypt_context) (crypt_info : ptr)
    : M (Z * option bytes + bytes) :=
  ci_store crypt_info (with_ci_flags (flags ctx)) >>
  ci_store crypt_info (with_ci_data_mode (contents_encryption_mode ctx)) >>
  ci_store crypt_info (with_ci_filename_mode (filenames_encryption_mode ctx)) >>
  ci_store crypt_info (fun c => with_ci_master_key_descriptor
    (memcpy (ci_master_key_descriptor c) (master_key_descriptor ctx)
       FS_KEY_DESCRIPTOR_SIZE) c) >>
  ci_store crypt_info (fun c => with_ci_nonce
    (memcpy (ci_nonce c) (nonce ctx) FS_KEY_DERIVATION_NONCE_SIZE) c) >>
  when CONFIG_FSCRYPT_SDP (ci_store crypt_info (with_ci_sdp_info None)) >>
  let* c := ci_load crypt_info in
  let* mode := select_encryption_mode c inode in
  match mode with
  | inl e => ret (inl (e, None))
  | inr mode =>
      when (FSCRYPT_MAX_IV_SIZE <? ivsize (available_modes mode))
        (emit (Ev_warn "WARN_ON(mode->ivsize > FSCRYPT_MAX_IV_SIZE)")) >>
      ci_store crypt_info (with_ci_mode (Some mode)) >>
      if negb (a_kmalloc a) then ret (inl (- ENOMEM, None))
      else
        emit (Ev_kmalloc (keysize (available_modes mode))) >>
        let raw_key := uninitialized (a_kmalloc_garbage a)
                         (keysize (available_modes mode)) in
        let* r := get_raw_key a inode ctx crypt_info raw_key mode in
        let raw_key := r.2 in
        if negb (bool_decide (r.1 = 0)) then ret (inl (r.1, Some raw_key))
        else
          (* sdp_dek: *)
          let* res :=
            if negb (inline_encryption (available_modes mode)) then
              setup_crypto_transform a crypt_info mode raw_key inode
            else
              ci_store crypt_info (fun c => with_ci_raw_key
                (memcpy (ci_raw_key c) raw_key
                   (keysize (available_modes mode))) c) >>
              ret 0 in
          if negb (bool_decide (res = 0)) then ret (inl (res, Some raw_key))
          else ret (inr raw_key)
  end.

(** [cmpxchg_release(&inode->i_crypt_info, NULL, new)]: one atomic step,
    which returns the old value of the slot. *)
Definition cmpxchg_release (inode : inode) (new : ptr) : M (option ptr) :=
  let* w := get in
  match w_i_crypt_info w !! i_ino inode with
  | None =>
      modify (set_i_crypt_info (insert (i_ino inode) new)) >>
      emit (Ev_cmpxchg (i_ino inode) new true) >>
      ret None
  | Some old =>
      emit (Ev_cmpxchg (i_ino inode) new false) >>
      ret (Some old)
  end.

(** [fscrypt_get_encryption_info] from the [cmpxchg_release] to the label
    [out].  Returns [crypt_info] as it is at [out]: NULL when the object
    has been installed. *)
Definition install_crypt_info (inode : inode) (crypt_info : ptr)
    : M (option ptr) :=
  let* old := cmpxchg_release inode crypt_info in
  let crypt_info := match old with None => None | Some _ => Some crypt_info end in
  when CONFIG_FSCRYPT_SDP
    (* Call only when i_crypt_info is loaded initially *)
    (when (bool_decide (crypt_info = None))
       (emit (Ev_sdp "fscrypt_sdp_finalize_tasks"))) >>
  ret crypt_info.

(** [fscrypt_get_encryption_info] from the label [out] to its return. *)
Definition leave_get_encryption_info (res : Z) (crypt_info : option ptr)
    (raw_key : option bytes) : M Z :=
  let res := if bool_decide (res = - ENOKEY) then 0 else res in
  put_crypt_info crypt_info >>
  kzfree raw_key >>
  ret res.

(** [fscrypt_get_encryption_info]. *)
Definition fscrypt_get_encryption_info (a : answers) (inode : inode) : M Z :=
  let* has_key := fscrypt_has_encryption_key inode in
  if has_key then ret 0
  else
    emit (Ev_fscrypt_initialize (s_cop_flags (i_sb inode))) >>
    let res := a_fscrypt_initialize a in
    if negb (bool_decide (res = 0)) then ret res
    else
      emit (Ev_get_context (i_ino inode)) >>
      match read_context inode with
      | inl res => ret res
      | inr ctx =>
          if negb (bool_decide (format ctx = FS_ENCRYPTION_CONTEXT_FORMAT_V1)) then
            ret (- EINVAL)
          else if negb (bool_decide
                    (Z.land (flags ctx) (Z.lnot FS_POLICY_FLAGS_VALID) = 0)) then
            ret (- EINVAL)
          else if negb (a_kmem_cache_zalloc a) then ret (- ENOMEM)
          else
            let* w := get in
            let crypt_info := fresh (dom (w_ci w)) in
            modify (set_ci (insert crypt_info zero_crypt_info)) >>
            emit (Ev_kmem_cache_zalloc crypt_info) >>
            let* r := build_crypt_info a inode ctx crypt_info in
            match r with
            | inl (res, raw_key) =>
                (* goto out *)
                leave_get_encryption_info res (Some crypt_info) raw_key
            | inr raw_key =>
                let* crypt_info := install_crypt_info inode crypt_info in
                leave_get_encryption_info 0 crypt_info (Some raw_key)
            end
      end.

(** [fscrypt_put_encryption_info]: free the crypto info of an inode that
    is being evicted. *)
Definition fscrypt_put_encryption_info (inode : inode) : M unit :=
  when CONFIG_FSCRYPT_SDP (emit (Ev_sdp "fscrypt_sdp_cache_remove_inode_num")) >>
  let* w := get in
  put_crypt_info (w_i_crypt_info w !! i_ino inode) >>
  modify (set_i_crypt_info (delete (i_ino inode))).

(** [fscrypt_get_encryption_key] (built with CONFIG_FSCRYPT_SDP): export
    the key of an inode into [key].  Returns the result and the content of
    [key]. *)
Definition fscrypt_get_encryption_key (a : answers) (inode : inode)
    (key : fscrypt_key) : M (Z * fscrypt_key) :=
  let* w := get in
  match w_i_crypt_info w !! i_ino inode with
  | None =>
      (* fscrypt_info in inode is not initialized yet *)
      ret (- EINVAL, key)
  | Some crypt_info =>
      emit (Ev_get_context (i_ino inode)) >>
      let res := (i_get_context inode).1 in
      let ctx := (i_get_context inode).2 in
      if res <? 0 then ret (res, key)
      else if negb (bool_decide (res = sizeof_fscrypt_context)) then
        ret (- EINVAL, key)
      else if negb (bool_decide (format ctx = FS_ENCRYPTION_CONTEXT_FORMAT_V1)) then
        ret (- EINVAL, key)
      else if negb (bool_decide
                (Z.land (flags ctx) (Z.lnot FS_POLICY_FLAGS_VALID) = 0)) then
        ret (- EINVAL, key)
      else
        let* c := ci_load crypt_info in
        let* mode := select_encryption_mode c inode in
        match mode with
        | inl e =>
            (* out: *)
            kzfree None >> ret (e, key)
        | inr mode =>
            if FS_MAX_KEY_SIZE <? keysize (available_modes mode) then
              ret (- EPERM, key)
            else if negb (a_kmalloc a) then
              (* out: *)
              kzfree None >> ret (- ENOMEM, key)
            else
              emit (Ev_kmalloc (keysize (available_modes mode))) >>
              let raw_key := uninitialized (a_kmalloc_garbage a)
                               (keysize (available_modes mode)) in
              let* r := find_and_derive_key a inode ctx raw_key mode in
              let raw_key := r.2 in
              if negb (bool_decide (r.1 = 0)) then
                (* out: *)
                kzfree (Some raw_key) >> ret (r.1, key)
              else
                let key :=
                  {| key_mode := key_mode key;
                     key_raw := memcpy (key_raw key) raw_key
                                  (keysize (available_modes mode));
                     key_size := keysize (available_modes mode) |} in
                (* out: *)
                kzfree (Some raw_key) >> ret (r.1, key)
        end
  end.

(** ** Notions used to state the properties *)

(** The lookup that opens [find_and_derive_key]: the key with the
    prefix "fscrypt:", and, when that gives -ENOKEY, the key with the
    prefix of the filesystem. *)
Definition locate_master_key (a : answers) (inode : inode)
    (ctx : fscrypt_context) (mode : Z) : M (Z + key * fscrypt_key) :=
  let* key := find_and_lock_process_key a FS_KEY_DESC_PREFIX
                (master_key_descriptor ctx) (keysize (available_modes mode)) in
  match key, s_cop_key_prefix (i_sb inode) with
  | inl e, Some prefix =>
      if bool_decide (e = - ENOKEY) then
        find_and_lock_process_key a prefix
          (master_key_descriptor ctx) (keysize (available_modes mode))
      else ret key
  | _, _ => ret key
  end.

(** The policy has the DIRECT_KEY flag. *)
Definition direct_key_policy (fl : Z) : Prop :=
  Z.land fl FS_POLICY_FLAG_DIRECT_KEY <> 0.

(** The description under which a key is looked up. *)
Definition key_description (prefix : string) (descriptor : bytes) : string :=
  String.append prefix
    (hex_of_bytes (take (Z.to_nat FS_KEY_DESCRIPTOR_SIZE) descriptor)).

(** The payload of a key is accepted by [find_and_lock_process_key]. *)
Definition payload_well_formed (ukp : user_key_payload) (min_keysize : Z) : Prop :=
  datalen ukp = sizeof_fscrypt_key /\
  1 <= key_size (data ukp) <= FS_MAX_KEY_SIZE /\
  min_keysize <= key_size (data ukp).

(** The keyring has no usable key under a description: the key is
    absent, or it has been revoked, or its payload is malformed. *)
Inductive no_usable_key (a : answers) (desc : string) (min_keysize : Z) : Prop :=
| key_absent :
    a_request_key a desc = inl (- ENOKEY) ->
    no_usable_key a desc min_keysize
| key_revoked k :
    a_request_key a desc = inr k -> payload k = None ->
    no_usable_key a desc min_keysize
| key_malformed k ukp :
    a_request_key a desc = inr k -> payload k = Some ukp ->
    ~ payload_well_formed ukp min_keysize ->
    no_usable_key a desc min_keysize.

(** The events a lookup that ends in -ENOKEY adds to the trace. *)
Definition lookup_events (a : answers) (desc : string) (min_keysize : Z)
    : list event :=
  [Ev_kasprintf; Ev_request_key desc; Ev_kfree (Freed_description desc)] ++
  match a_request_key a desc with
  | inl _ => []
  | inr k =>
      [Ev_down_read (description k)] ++
      match payload k with
      | None => []
      | Some ukp =>
          if negb (bool_decide (datalen ukp = sizeof_fscrypt_key))
             || (key_size (data ukp) <? 1)
             || (FS_MAX_KEY_SIZE <? key_size (data ukp))
          then [Ev_warn "key has invalid payload"]
          else [Ev_warn "key is too short"]
      end ++
      [Ev_up_read (description k); Ev_key_put (description k)]
  end.

(** A recognised pair of modes and a kind of inode for which
    [select_encryption_mode] picks [mode]. *)
Definition selects (data_mode filename_mode : Z) (inode : inode) (mode : Z)
    : Prop :=
  fscrypt_valid_enc_modes data_mode filename_mode = true /\
  ((S_ISREG (i_mode inode) = true /\
    (inline_encryption (available_modes data_mode) = false \/
     s_ice_capable (i_sb inode) = true) /\
    mode = data_mode) \/
   (S_ISREG (i_mode inode) = false /\
    (S_ISDIR (i_mode inode) = true \/ S_ISLNK (i_mode inode) = true) /\
    mode = filename_mode)).

(** The policy record passes the checks of format and flags. *)
Definition policy_valid (ctx : fscrypt_context) : Prop :=
  format ctx = FS_ENCRYPTION_CONTEXT_FORMAT_V1 /\
  Z.land (flags ctx) (Z.lnot FS_POLICY_FLAGS_VALID) = 0.

(** The key of the inode comes from [find_and_derive_key]: the policy is
    not marked for SDP, or it is and the file turns out not to be
    classified. *)
Inductive key_from_master_key (a : answers) (ctx : fscrypt_context) : Prop :=
| not_sdp :
    CONFIG_FSCRYPT_SDP && fscrypt_sdp_flagged (knox_flags ctx) = false ->
    key_from_master_key a ctx
| sdp_not_classified info :
    CONFIG_FSCRYPT_SDP && fscrypt_sdp_flagged (knox_flags ctx) = true ->
    a_sdp_alloc_sdp_info a = Some info ->
    (a_sdp_update_sdp_info a).1 = 0 ->
    a_sdp_is_classified a = false ->
    key_from_master_key a ctx.

(** The lookup of the master key finds no usable key, under the prefix
    "fscrypt:" and under the prefix of the filesystem if it has one. *)
Definition master_key_unavailable (a : answers) (inode : inode)
    (ctx : fscrypt_context) (mode : Z) : Prop :=
  a_kasprintf a = true /\
  no_usable_key a
    (key_description FS_KEY_DESC_PREFIX (master_key_descriptor ctx))
    (keysize (available_modes mode)) /\
  forall prefix, s_cop_key_prefix (i_sb inode) = Some prefix ->
    no_usable_key a (key_description prefix (master_key_descriptor ctx))
      (keysize (available_modes mode)).

(** Updates of a crypto info that leave its cipher objects alone. *)
Definition keeps_ciphers (f : fscrypt_info -> fscrypt_info) : Prop :=
  forall c, ci_master_key (f c) = ci_master_key c /\
            ci_ctfm (f c) = ci_ctfm c /\
            ci_essiv_tfm (f c) = ci_essiv_tfm c.

(** The key that [fscrypt_get_encryption_key] hands out: the first
    [keysize] bytes of [raw] are those of the key of the inode, and [size]
    is the key size of the mode. *)
Definition exported_key (key : fscrypt_key) (raw_key : bytes) (mode : Z)
    : fscrypt_key :=
  {| key_mode := key_mode key;
     key_raw := memcpy (key_raw key) raw_key (keysize (available_modes mode));
     key_size := keysize (available_modes mode) |}.

(** The bucket of a descriptor, and the chain of a bucket. *)
Definition bucket_of (descriptor : bytes) : Z :=
  hash_min (hash_key_of descriptor) HASH_BITS.

Definition chain (w : world) (b : Z) : list ptr := default [] (w_table w !! b).

Definition in_table (w : world) (p : ptr) : Prop := exists b, p ∈ chain w b.

(** An entry has the descriptor, the mode and the raw key (over the key
    size of the mode) of a caller. *)
Definition mk_matches (descriptor raw_key : bytes) (mode : Z)
    (o : fscrypt_master_key) : Prop :=
  take (Z.to_nat FS_KEY_DESCRIPTOR_SIZE) descriptor =
    take (Z.to_nat FS_KEY_DESCRIPTOR_SIZE) (mk_descriptor o)
  /\ mk_mode o = Some mode
  /\ take (Z.to_nat (keysize (available_modes mode))) raw_key =
       take (Z.to_nat (keysize (available_modes mode))) (mk_raw o).

(** The table is well formed: the entries on the chains are live, each on
    the chain of its descriptor, no two of them have the same descriptor,
    mode and raw key, and each has a live cipher handle of its own. *)
Record table_wf (w : world) : Prop := {
  wf_live : forall b p, p ∈ chain w b ->
    exists o, w_mk w !! p = Some o /\ b = bucket_of (mk_descriptor o);
  wf_unique : forall descriptor raw_key mode p q op oq,
    in_table w p -> in_table w q ->
    w_mk w !! p = Some op -> w_mk w !! q = Some oq ->
    mk_matches descriptor raw_key mode op ->
    mk_matches descriptor raw_key mode oq -> p = q;
  wf_handle : forall p o, in_table w p -> w_mk w !! p = Some o ->
    exists h, mk_ctfm o = Some h /\ is_Some (w_tfm w !! h);
  wf_handle_inj : forall p q op oq,
    in_table w p -> in_table w q ->
    w_mk w !! p = Some op -> w_mk w !! q = Some oq ->
    mk_ctfm op = mk_ctfm oq -> p = q;
}.

(** Two callers have the same descriptor, mode and raw key. *)
Definition same_triple (d1 r1 : bytes) (m1 : Z) (d2 r2 : bytes) (m2 : Z) : Prop :=
  take (Z.to_nat FS_KEY_DESCRIPTOR_SIZE) d1 =
    take (Z.to_nat FS_KEY_DESCRIPTOR_SIZE) d2
  /\ m1 = m2
  /\ take (Z.to_nat (keysize (available_modes m1))) r1 =
       take (Z.to_nat (keysize (available_modes m1))) r2.


(** The store of master keys after [free_master_key]. *)
Definition mk_freed (c : option ptr) (heap : gmap ptr fscrypt_master_key)
    : gmap ptr fscrypt_master_key :=
  match c with Some c => delete c heap | None => heap end.

(** The handle that [free_master_key] destroys. *)
Definition handle_of (heap : gmap ptr fscrypt_master_key) (c : option ptr)
    : option ptr :=
  match c with
  | Some c => match heap !! c with Some o => mk_ctfm o | None => None end
  | None => None
  end.

Definition tfm_freed (h : option ptr) (tfms : gmap ptr crypto_tfm)
    : gmap ptr crypto_tfm :=
  match h with Some h => delete h tfms | None => tfms end.

(** The entries of the table stay in the table, with their descriptor,
    mode, raw key and cipher handle. *)
Definition keeps_entries (w w' : world) : Prop :=
  forall q oq, in_table w q -> w_mk w !! q = Some oq ->
    in_table w' q
    /\ exists oq', w_mk w' !! q = Some oq'
         /\ mk_descriptor oq' = mk_descriptor oq /\ mk_mode oq' = mk_mode oq
         /\ mk_raw oq' = mk_raw oq /\ mk_ctfm oq' = mk_ctfm oq.

(** The allocations of [fscrypt_get_master_key] succeed. *)
Definition master_key_allocations_succeed (a : answers) : Prop :=
  a_kzalloc a = true /\ a_skcipher_alloc a = 0 /\ a_skcipher_setkey a = 0.

(** ** The function in three parts

    [fscrypt_get_encryption_info], cut at the [cmpxchg_release] and at the
    label [out]: the function is at its entry, at the [cmpxchg_release]
    with a constructed crypto info, at the label [out], or has returned.
    The parts are used to reason about the function part by part. *)
Inductive stage :=
| At_entry
| At_cmpxchg (crypt_info : ptr) (raw_key : bytes)
| At_out (res : Z) (crypt_info : option ptr) (raw_key : option bytes)
| Returned (res : Z).

(** [fscrypt_get_encryption_info] from its entry to the
    [cmpxchg_release], to [out] or to an early return. *)
Definition enter_get_encryption_info (a : answers) (inode : inode) : M stage :=
  let* has_key := fscrypt_has_encryption_key inode in
  if has_key then ret (Returned 0)
  else
    emit (Ev_fscrypt_initialize (s_cop_flags (i_sb inode))) >>
    let res := a_fscrypt_initialize a in
    if negb (bool_decide (res = 0)) then ret (Returned res)
    else
      emit (Ev_get_context (i_ino inode)) >>
      match read_context inode with
      | inl res => ret (Returned res)
      | inr ctx =>
          if negb (bool_decide (format ctx = FS_ENCRYPTION_CONTEXT_FORMAT_V1)) then
            ret (Returned (- EINVAL))
          else if negb (bool_decide
                    (Z.land (flags ctx) (Z.lnot FS_POLICY_FLAGS_VALID) = 0)) then
            ret (Returned (- EINVAL))
          else if negb (a_kmem_cache_zalloc a) then ret (Returned (- ENOMEM))
          else
            let* w := get in
            let crypt_info := fresh (dom (w_ci w)) in
            modify (set_ci (insert crypt_info zero_crypt_info)) >>
            emit (Ev_kmem_cache_zalloc crypt_info) >>
            let* r := build_crypt_info a inode ctx crypt_info in
            match r with
            | inl (res, raw_key) => ret (At_out res (Some crypt_info) raw_key)
            | inr raw_key => ret (At_cmpxchg crypt_info raw_key)
            end
      end.

(** The part of the function that starts at [t]. *)
Definition stage_step (a : answers) (inode : inode) (t : stage) : M stage :=
  match t with
  | At_entry => enter_get_encryption_info a inode
  | At_cmpxchg crypt_info raw_key =>
      let* crypt_info := install_crypt_info inode crypt_info in
      ret (At_out 0 crypt_info (Some raw_key))
  | At_out res crypt_info raw_key =>
      let* res := leave_get_encryption_info res crypt_info raw_key in
      ret (Returned res)
  | Returned res => ret (Returned res)
  end.

(** An event other than a [cmpxchg_release]. *)
Definition quiet (e : event) : Prop :=
  match e with Ev_cmpxchg _ _ _ => False | _ => True end.

(** [m] works on the crypto info at [p], which it changes within [R]; it
    leaves the other crypto infos and the slots of the inodes alone and
    makes no [cmpxchg_release]. *)
Definition touches {A} (p : ptr) (R : relation fscrypt_info) (m : M A) : Prop :=
  forall w c, w_ci w !! p = Some c ->
    exists c' evs,
      w_ci (m w).2 = <[p := c']> (w_ci w) /\ R c c' /\
      w_i_crypt_info (m w).2 = w_i_crypt_info w /\
      w_trace (m w).2 = w_trace w ++ evs /\ Forall quiet evs.

(** [inode->i_crypt_info]. *)
Definition slot (inode : inode) (w : world) : option ptr :=
  w_i_crypt_info w !! i_ino inode.

(** The crypto infos that a successful [cmpxchg_release] has installed. *)
Definition installs (tr : list event) : list ptr :=
  omap (fun e => match e with Ev_cmpxchg _ p true => Some p | _ => None end) tr.

(** The fields that the policy and the selection of the mode determine. *)
Definition keeps_policy (c c' : fscrypt_info) : Prop :=
  ci_mode c' = ci_mode c /\ ci_flags c' = ci_flags c /\
  ci_data_mode c' = ci_data_mode c /\
  ci_filename_mode c' = ci_filename_mode c /\
  ci_master_key_descriptor c' = ci_master_key_descriptor c /\
  ci_nonce c' = ci_nonce c.

(** A crypto info that has been set up from the policy [ctx]: the fields
    of the policy are copied and the mode is chosen. *)
Definition constructed (ctx : fscrypt_context) (c : fscrypt_info) : Prop :=
  ci_flags c = flags ctx /\
  ci_data_mode c = contents_encryption_mode ctx /\
  ci_filename_mode c = filenames_encryption_mode ctx /\
  ci_master_key_descriptor c =
    memcpy (zeros (Z.to_nat FS_KEY_DESCRIPTOR_SIZE)) (master_key_descriptor ctx)
      FS_KEY_DESCRIPTOR_SIZE /\
  ci_nonce c =
    memcpy (zeros (Z.to_nat FS_KEY_DERIVATION_NONCE_SIZE)) (nonce ctx)
      FS_KEY_DERIVATION_NONCE_SIZE /\
  is_Some (ci_mode c).

(** The fields that the policy and the selection of the mode determine,
    and the fields of the ciphers and of the key. *)
Definition keeps_setup (c c' : fscrypt_info) : Prop :=
  keeps_policy c c' /\ ci_ctfm c' = ci_ctfm c /\
  ci_essiv_tfm c' = ci_essiv_tfm c /\ ci_master_key c' = ci_master_key c /\
  ci_raw_key c' = ci_raw_key c.

(** What the crypto info holds for the mode [mode] and the key [raw_key]
    when it is brought to the [cmpxchg_release].  For a mode of inline
    encryption the key has been copied into [ci_raw_key] and there is no
    cipher.  For the other modes [setup_crypto_transform] has succeeded:
    with DIRECT_KEY the crypto info refers to a master key entry, whose
    cipher it uses, and otherwise it has a cipher of its own and no
    master key entry; and it has a cipher for ESSIV exactly when the mode
    needs one. *)
Definition cipher_fields (mode : Z) (raw_key : bytes) (c : fscrypt_info)
    : Prop :=
  if inline_encryption (available_modes mode) then
    ci_ctfm c = None /\ ci_essiv_tfm c = None /\ ci_master_key c = None /\
    ci_raw_key c = memcpy (ci_raw_key zero_crypt_info) raw_key
                     (keysize (available_modes mode))
  else
    ci_raw_key c = ci_raw_key zero_crypt_info /\
    (if bool_decide (Z.land (ci_flags c) FS_POLICY_FLAG_DIRECT_KEY = 0)
     then ci_master_key c = None /\ is_Some (ci_ctfm c)
     else is_Some (ci_master_key c)) /\
    (if needs_essiv (available_modes mode) then is_Some (ci_essiv_tfm c)
     else ci_essiv_tfm c = None).

(** A crypto info as [fscrypt_get_encryption_info] brings it to the
    [cmpxchg_release], with the key [raw_key]: set up from the policy of
    the inode, with the mode that [select_encryption_mode] chooses, and
    with its ciphers or its key. *)
Definition fully_constructed (inode : inode) (raw_key : bytes)
    (c : fscrypt_info) : Prop :=
  exists ctx mode,
    read_context inode = inr ctx /\ constructed ctx c /\
    ci_mode c = Some mode /\
    selects (ci_data_mode c) (ci_filename_mode c) inode mode /\
    cipher_fields mode raw_key c.

(** From [w] to [w'] no inode slot changes and no [cmpxchg_release] is
    made. *)
Definition quietly (w w' : world) : Prop :=
  w_i_crypt_info w' = w_i_crypt_info w /\
  exists evs, w_trace w' = w_trace w ++ evs /\ Forall quiet evs.

(** From [w] to [w'], quietly, the crypto info at [p] becomes [c] and the
    others stay. *)
Definition moves (p : ptr) (w w' : world) (c : fscrypt_info) : Prop :=
  w_ci w' = <[p := c]> (w_ci w) /\ quietly w w'.

(** From [w] to [w'] the crypto info [c] at [p] and the buffer [raw_key]
    are released: the reference to the master key entry is put, or else
    the cipher handles of the crypto info are destroyed; the raw key in
    the crypto info is cleared before the crypto info is freed; the buffer
    is cleared before it is freed. *)
Definition released (p : ptr) (c : fscrypt_info) (raw_key : option bytes)
    (w w' : world) : Prop :=
  w_ci w' = delete p (w_ci w)
  /\ (exists evs z,
        w_trace w' = w_trace w ++ evs
        /\ Ev_kfree (Freed_crypt_info p z) ∈ evs
        /\ take (Z.to_nat sizeof_ci_raw_key) (ci_raw_key z)
           = zeros (Z.to_nat sizeof_ci_raw_key)
        /\ forall raw, raw_key = Some raw ->
             Ev_kfree (Freed_buffer (zeros (length raw))) ∈ evs)
  /\ match ci_master_key c with
     | Some mk =>
         forall o, w_mk w !! mk = Some o ->
           w_mk w' !! mk =
             if bool_decide (mk_refcount o - 1 = 0) then None
             else Some (with_refcount (mk_refcount o - 1) o)
     | None =>
         w_mk w' = w_mk w
         /\ w_tfm w' = tfm_freed (ci_essiv_tfm c) (tfm_freed (ci_ctfm c) (w_tfm w))
     end.

(** What the part of the function that starts at [t] can do to the
    world [w]. *)
Inductive effect (inode : inode) (t : stage) (w : world)
    : stage -> world -> Prop :=
| effect_returned res w' :
    t = At_entry -> quietly w w' -> w_ci w' = w_ci w ->
    effect inode t w (Returned res) w'
| effect_built p raw_key c w' :
    t = At_entry -> moves p w w' c -> w_ci w !! p = None ->
    (ENOMEM <> 0 -> fully_constructed inode raw_key c) ->
    effect inode t w (At_cmpxchg p raw_key) w'
| effect_failed res p raw_key c w' :
    t = At_entry -> moves p w w' c -> w_ci w !! p = None ->
    effect inode t w (At_out res (Some p) raw_key) w'
| effect_won p raw_key evs w' :
    t = At_cmpxchg p raw_key -> slot inode w = None ->
    w_i_crypt_info w' = <[i_ino inode := p]> (w_i_crypt_info w) ->
    w_ci w' = w_ci w ->
    w_trace w' = w_trace w ++ Ev_cmpxchg (i_ino inode) p true :: evs ->
    Forall quiet evs ->
    effect inode t w (At_out 0 None (Some raw_key)) w'
| effect_lost p raw_key q w' :
    t = At_cmpxchg p raw_key -> slot inode w = Some q ->
    w_i_crypt_info w' = w_i_crypt_info w ->
    w_ci w' = w_ci w ->
    w_trace w' = w_trace w ++ [Ev_cmpxchg (i_ino inode) p false] ->
    effect inode t w (At_out 0 (Some p) (Some raw_key)) w'
| effect_released res p raw_key c res' w' :
    t = At_out res (Some p) raw_key -> w_ci w !! p = Some c ->
    quietly w w' -> released p c raw_key w w' ->
    effect inode t w (Returned res') w'
| effect_left res raw_key res' w' :
    t = At_out res None raw_key -> quietly w w' -> w_ci w' = w_ci w ->
    effect inode t w (Returned res') w'
| effect_stays res :
    t = Returned res -> effect inode t w (Returned res) w.

(** ** Working aside of the crypto infos *)

(** An event other than a [cmpxchg_release], the allocation of a key
    buffer and the operations on the semaphore and the reference of a
    key. *)
Definition plain (e : event) : Prop :=
  match e with
  | Ev_cmpxchg _ _ _ => False
  | Ev_kmalloc _ => False
  | Ev_down_read _ => False
  | Ev_up_read _ => False
  | Ev_key_put _ => False
  | _ => True
  end.

(** [m] works aside of the crypto infos: it leaves them and the slots of
    the inodes as they are, and its events are plain. *)
Definition aside {A} (m : M A) : Prop :=
  forall w,
    w_ci (m w).2 = w_ci w /\ w_i_crypt_info (m w).2 = w_i_crypt_info w /\
    exists evs, w_trace (m w).2 = w_trace w ++ evs /\ Forall plain evs.

(** ** The exports for SDP, continued *)

(** [__find_and_derive_fskey] (built with CONFIG_FSCRYPT_SDP): find the
    master key and copy its payload, the whole [struct fscrypt_key], into
    [fskey].  Returns the result and the content of [fskey]. *)
Definition __find_and_derive_fskey (a : answers) (inode : inode)
    (ctx : fscrypt_context) (fskey : fscrypt_key) (min_keysize : Z)
    : M (Z * fscrypt_key) :=
  let* key := find_and_lock_process_key a FS_KEY_DESC_PREFIX
                (master_key_descriptor ctx) min_keysize in
  let* key :=
    match key, s_cop_key_prefix (i_sb inode) with
    | inl e, Some prefix =>
        if bool_decide (e = - ENOKEY) then
          find_and_lock_process_key a prefix
            (master_key_descriptor ctx) min_keysize
        else ret key
    | _, _ => ret key
    end in
  match key with
  | inl e => ret (e, fskey)
  | inr (key, payload) =>
      (* memcpy(fskey, payload, sizeof(struct fscrypt_key)) *)
      emit (Ev_up_read (description key)) >>
      emit (Ev_key_put (description key)) >>
      ret (0, payload)
  end.

(** [fscrypt_get_encryption_key_classified] (built with
    CONFIG_FSCRYPT_SDP): export the key of a classified file, as the SDP
    provider derives it, into [key].  Returns the result and the content
    of [key]. *)
Definition fscrypt_get_encryption_key_classified (a : answers) (inode : inode)
    (key : fscrypt_key) : M (Z * fscrypt_key) :=
  let* w := get in
  match w_i_crypt_info w !! i_ino inode with
  | None =>
      (* fscrypt_info in inode is not initialized yet *)
      ret (- EINVAL, key)
  | Some crypt_info =>
      emit (Ev_get_context (i_ino inode)) >>
      let res := (i_get_context inode).1 in
      let ctx := (i_get_context inode).2 in
      if res <? 0 then ret (res, key)
      else if negb (bool_decide (res = sizeof_fscrypt_context)) then
        ret (- EINVAL, key)
      else if negb (bool_decide (format ctx = FS_ENCRYPTION_CONTEXT_FORMAT_V1)) then
        ret (- EINVAL, key)
      else if negb (bool_decide
                (Z.land (flags ctx) (Z.lnot FS_POLICY_FLAGS_VALID) = 0)) then
        ret (- EINVAL, key)
      else
        let* c := ci_load crypt_info in
        let* mode := select_encryption_mode c inode in
        match mode with
        | inl e =>
            (* out: *)
            kzfree None >> ret (e, key)
        | inr mode =>
            if FS_MAX_KEY_SIZE <? keysize (available_modes mode) then
              ret (- EPERM, key)
            else if negb (a_kmalloc a) then
              (* out: *)
              kzfree None >> ret (- ENOMEM, key)
            else
              emit (Ev_kmalloc (keysize (available_modes mode))) >>
              let raw_key := uninitialized (a_kmalloc_garbage a)
                               (keysize (available_modes mode)) in
              let* r := derive_fek a raw_key (keysize (available_modes mode)) in
              let raw_key := r.2 in
              if negb (bool_decide (r.1 = 0)) then
                (* out: *)
                kzfree (Some raw_key) >> ret (r.1, key)
              else
                let key :=
                  {| key_mode := key_mode key;
                     key_raw := memcpy (key_raw key) raw_key
                                  (keysize (available_modes mode));
                     key_size := keysize (available_modes mode) |} in
                (* out: *)
                kzfree (Some raw_key) >> ret (r.1, key)
        end
  end.

(** [fscrypt_get_encryption_kek] (built with CONFIG_FSCRYPT_SDP): export
    the master key of the policy of an inode into [kek]; [crypt_info] is
    the crypto info the caller passes, [None] for NULL.  Returns the
    result and the content of [kek]. *)
Definition fscrypt_get_encryption_kek (a : answers) (inode : inode)
    (crypt_info : option ptr) (kek : fscrypt_key) : M (Z * fscrypt_key) :=
  match crypt_info with
  | None => ret (- EINVAL, kek)
  | Some crypt_info =>
      emit (Ev_get_context (i_ino inode)) >>
      let res := (i_get_context inode).1 in
      let ctx := (i_get_context inode).2 in
      if res <? 0 then ret (res, kek)
      else if negb (bool_decide (res = sizeof_fscrypt_context)) then
        ret (- EINVAL, kek)
      else if negb (bool_decide (format ctx = FS_ENCRYPTION_CONTEXT_FORMAT_V1)) then
        ret (- EINVAL, kek)
      else if negb (bool_decide
                (Z.land (flags ctx) (Z.lnot FS_POLICY_FLAGS_VALID) = 0)) then
        ret (- EINVAL, kek)
      else
        let* c := ci_load crypt_info in
        let* mode := select_encryption_mode c inode in
        match mode with
        | inl e => ret (e, kek)
        | inr mode =>
            if FS_MAX_KEY_SIZE <? keysize (available_modes mode) then
              ret (- EPERM, kek)
            else
              __find_and_derive_fskey a inode ctx kek
                (keysize (available_modes mode))
        end
  end.

(** [fscrypt_essiv_cleanup]: free the hash transform of ESSIV when the
    module goes away; the variable keeps its value. *)
Definition fscrypt_essiv_cleanup : M unit :=
  let* w := get in
  crypto_free (w_essiv_hash_tfm w).

(** ** The keys in use *)

(** The keys that a sequence of events leaves in use, last taken first;
    [true] marks a key whose semaphore is held.  [down_read] follows
    every successful lookup of a key, so it stands for taking the key and
    its semaphore; [up_read] must release the key taken last, and
    [key_put] must drop the key taken last, after its semaphore has been
    released.  [None] when an event does not fit. *)
Fixpoint keys_in_use (evs : list event) (st : list (string * bool))
    : option (list (string * bool)) :=
  match evs with
  | [] => Some st
  | Ev_down_read d :: evs => keys_in_use evs ((d, true) :: st)
  | Ev_up_read d :: evs =>
      match st with
      | (d', true) :: st' =>
          if bool_decide (d = d') then keys_in_use evs ((d, false) :: st')
          else None
      | _ => None
      end
  | Ev_key_put d :: evs =>
      match st with
      | (d', false) :: st' =>
          if bool_decide (d = d') then keys_in_use evs st' else None
      | _ => None
      end
  | _ :: evs => keys_in_use evs st
  end.

(** [m] leaves the keys in use as it finds them: every key it takes it
    releases and puts. *)
Definition releases_keys {A} (m : M A) : Prop :=
  forall w, exists evs,
    w_trace (m w).2 = w_trace w ++ evs
    /\ forall st, keys_in_use evs st = Some st.

End Keyinfo.

(** ** The values of the kernel tree *)

(** hash_64 of linux/hash.h on a 64-bit machine. *)
Definition hash_64 (val bits : Z) : Z :=
  Z.shiftr ((val * 0x61C8864680B583EB) mod 2 ^ 64) (64 - bits).

Definition linux_headers : KernelHeaders :=
  {| EPERM := 1; ENOMEM := 12; EINVAL := 22; ENOKEY := 126;
     FS_KEY_DESCRIPTOR_SIZE := 8;
     FS_MAX_KEY_SIZE := 64;
     FS_KEY_DESC_PREFIX := "fscrypt:";
     FS_POLICY_FLAG_DIRECT_KEY := 4;
     FS_POLICY_FLAGS_VALID := 7;
     FS_ENCRYPTION_MODE_AES_256_XTS := 1;
     FS_ENCRYPTION_MODE_AES_256_CTS := 4;
     FS_ENCRYPTION_MODE_AES_128_CBC := 5;
     FS_ENCRYPTION_MODE_AES_128_CTS := 6;
     FS_ENCRYPTION_MODE_ADIANTUM := 9;
     FS_ENCRYPTION_MODE_PRIVATE := 127;
     FS_ENCRYPTION_CONTEXT_FORMAT_V1 := 1;
     FS_KEY_DERIVATION_NONCE_SIZE := 16;
     FSCRYPT_MAX_IV_SIZE := 32;
     sizeof_fscrypt_context := 28;
     sizeof_fscrypt_key := 72;
     sizeof_ci_raw_key := 64;
     offsetofend_fscrypt_iv_nonce := 24;
     fscrypt_valid_enc_modes := fun c f =>
       bool_decide (c = 5 ∧ f = 6) || bool_decide (c = 1 ∧ f = 4)
       || bool_decide (c = 127 ∧ f = 4) || bool_decide (c = 9 ∧ f = 9);
     SHA256_DIGEST_SIZE := 32;
     AES_BLOCK_SIZE := 16;
     S_IFMT := 0xF000; S_IFREG := 0x8000;
     S_IFDIR := 0x4000; S_IFLNK := 0xA000;
     sizeof_unsigned_long := 8;
     hash_min := hash_64;
     CONFIG_FSCRYPT_SDP := true;
     fscrypt_sdp_flagged := fun fl =>
       negb (bool_decide (Z.land fl 0xFFFF0000 = 0)) |}.

(** Stand-ins for the crypto primitives, to run the model on examples:
    a byte-wise cipher and a 32-byte digest.  They are not AES and
    SHA-256; no theorem depends on them. *)
Definition xor_byte (a b : byte) : byte :=
  default x00 (Byte.of_N (N.lxor (Byte.to_N a) (Byte.to_N b))).

Definition example_crypto : CryptoPrimitives :=
  {| aes_ecb_encrypt := fun k d => map (xor_byte (default x00 (head k))) d;
     sha256 := fun d =>
       take 32 (map (xor_byte x5c) d ++ replicate 32 x36) |}.

(** The answers of services that all succeed, over a given keyring. *)
Definition all_succeed (keyring : string -> Z + key) : answers :=
  {| a_fscrypt_initialize := 0;
     a_kmem_cache_zalloc := true;
     a_kmalloc := true;
     a_kmalloc_garbage := [];
     a_kzalloc := true;
     a_kasprintf := true;
     a_request_key := keyring;
     a_ecb_alloc := 0; a_ecb_request_alloc := true;
     a_ecb_setkey := 0; a_ecb_encrypt := 0;
     a_skcipher_alloc := 0; a_skcipher_driver_name := "generic";
     a_skcipher_setkey := 0;
     a_cipher_alloc := 0; a_cipher_setkey := 0;
     a_shash_alloc := 0; a_shash_digest := 0; a_shash_scribble := [];
     a_stack_garbage := [];
     a_sdp_alloc_sdp_info := None;
     a_sdp_update_sdp_info := (0, {| sdp_flags := 0; engine_id := 0 |});
     a_sdp_is_classified := false;
     a_sdp_is_uninitialized := false;
     a_sdp_is_sensitive := false;
     a_sdp_is_native := false;
     a_sdp_derive := (0, []);
     a_sdp_command_alloc := true |}.

(** A keyring that holds nothing: every lookup is ERR_PTR(-ENOKEY). *)
Definition empty_keyring : string -> Z + key := fun _ => inl (-126).

(** A keyring that holds one key. *)
Definition keyring_with (desc : string) (k : fscrypt_key) : string -> Z + key :=
  fun d =>
    if bool_decide (d = desc) then
      inr {| description := desc;
             payload := Some {| datalen := 72; data := k |} |}
    else inl (-126).

(** ** Example objects *)

Module Ex.

Definition descriptor : bytes := [x01; x02; x03; x04; x05; x06; x07; xab].
Definition nonce16 : bytes := replicate 16 x22.
Definition master64 : bytes := replicate 64 x11.
Definition master_key : fscrypt_key :=
  {| key_mode := 0; key_raw := master64; key_size := 64 |}.

(** A keyring with the master key under "fscrypt:01020304050607ab". *)
Definition keyring : string -> Z + key :=
  keyring_with "fscrypt:01020304050607ab" master_key.

Definition key_object : key :=
  {| description := "fscrypt:01020304050607ab";
     payload := Some {| datalen := 72; data := master_key |} |}.

Definition policy (contents filenames fl : Z) : fscrypt_context :=
  {| format := 1; contents_encryption_mode := contents;
     filenames_encryption_mode := filenames; flags := fl;
     master_key_descriptor := descriptor; nonce := nonce16;
     knox_flags := 0 |}.

(** AES-256-XTS contents with AES-256-CTS names, keys derived per file. *)
Definition policy_xts : fscrypt_context := policy 1 4 0.
(** Adiantum for both, with DIRECT_KEY. *)
Definition policy_adiantum_direct : fscrypt_context := policy 9 9 4.
(** AES-128-CBC contents (ESSIV) with AES-128-CTS names. *)
Definition policy_cbc : fscrypt_context := policy 5 6 0.
(** A record of a format that is not supported. *)
Definition policy_v2 : fscrypt_context :=
  {| format := 2; contents_encryption_mode := 1;
     filenames_encryption_mode := 4; flags := 0;
     master_key_descriptor := descriptor; nonce := nonce16;
     knox_flags := 0 |}.

Definition sb : super_block :=
  {| s_cop_flags := 0; s_cop_key_prefix := Some "f2fs:";
     s_ice_capable := false |}.

Definition file (ino : Z) (ctx : fscrypt_context) : inode :=
  {| i_ino := ino; i_mode := 0x81A4; i_sb := sb; i_encrypted := true;
     i_dummy_context := false; i_processed_by_ice := false;
     i_get_context := (28, ctx) |}.

Definition directory (ino : Z) (ctx : fscrypt_context) : inode :=
  {| i_ino := ino; i_mode := 0x41ED; i_sb := sb; i_encrypted := true;
     i_dummy_context := false; i_processed_by_ice := false;
     i_get_context := (28, ctx) |}.

(** A character device: not a kind of inode that is encrypted. *)
Definition chardev (ino : Z) (ctx : fscrypt_context) : inode :=
  {| i_ino := ino; i_mode := 0x21A4; i_sb := sb; i_encrypted := true;
     i_dummy_context := false; i_processed_by_ice := false;
     i_get_context := (28, ctx) |}.

(** A crypto info with the modes of a policy. *)
Definition info_of `{KernelHeaders} (ctx : fscrypt_context) : fscrypt_info :=
  with_ci_filename_mode (filenames_encryption_mode ctx)
    (with_ci_data_mode (contents_encryption_mode ctx)
       (with_ci_flags (flags ctx) zero_crypt_info)).

(** The world after the crypto info of a file with the DIRECT_KEY
    policy has been set up: the table holds one master key, referenced
    once. *)
Definition direct_world : world :=
  (fscrypt_get_encryption_info (H:=linux_headers) (H0:=example_crypto)
     (all_succeed keyring) (file 11 policy_adiantum_direct) empty_world).2.

Definition direct_entry : fscrypt_master_key :=
  {| mk_refcount := 1; mk_mode := Some 9; mk_ctfm := Some 1%positive;
     mk_descriptor := descriptor;
     mk_raw := replicate 32 x11 ++ zeros 32 |}.

End Ex.


(** * Properties *)

Ltac mrun :=
  cbv beta iota delta [bind ret get modify emit when].

(** ** The monad and the world *)

Lemma bind_eq {A B} (m : M A) (k : A -> M B) (w : world) :
  bind m k w = k (m w).1 (m w).2.
Proof. unfold bind. destruct (m w); reflexivity. Qed.

Lemma bind_assoc {A B C} (m : M A) (f : A -> M B) (g : B -> M C) (w : world) :
  bind (bind m f) g w = bind m (fun x => bind (f x) g) w.
Proof. unfold bind. destruct (m w). reflexivity. Qed.

(** What a field of the world is after an update. *)
Lemma w_table_set_table f w : w_table (set_table f w) = f (w_table w).
Proof. reflexivity. Qed.
Lemma w_mk_set_table f w : w_mk (set_table f w) = w_mk w.
Proof. reflexivity. Qed.
Lemma w_ci_set_table f w : w_ci (set_table f w) = w_ci w.
Proof. reflexivity. Qed.
Lemma w_tfm_set_table f w : w_tfm (set_table f w) = w_tfm w.
Proof. reflexivity. Qed.
Lemma w_essiv_hash_tfm_set_table f w : w_essiv_hash_tfm (set_table f w) = w_essiv_hash_tfm w.
Proof. reflexivity. Qed.
Lemma w_i_crypt_info_set_table f w : w_i_crypt_info (set_table f w) = w_i_crypt_info w.
Proof. reflexivity. Qed.
Lemma w_logged_impl_name_set_table f w : w_logged_impl_name (set_table f w) = w_logged_impl_name w.
Proof. reflexivity. Qed.
Lemma w_trace_set_table f w : w_trace (set_table f w) = w_trace w.
Proof. reflexivity. Qed.
Lemma w_table_set_mk f w : w_table (set_mk f w) = w_table w.
Proof. reflexivity. Qed.
Lemma w_mk_set_mk f w : w_mk (set_mk f w) = f (w_mk w).
Proof. reflexivity. Qed.
Lemma w_ci_set_mk f w : w_ci (set_mk f w) = w_ci w.
Proof. reflexivity. Qed.
Lemma w_tfm_set_mk f w : w_tfm (set_mk f w) = w_tfm w.
Proof. reflexivity. Qed.
Lemma w_essiv_hash_tfm_set_mk f w : w_essiv_hash_tfm (set_mk f w) = w_essiv_hash_tfm w.
Proof. reflexivity. Qed.
Lemma w_i_crypt_info_set_mk f w : w_i_crypt_info (set_mk f w) = w_i_crypt_info w.
Proof. reflexivity. Qed.
Lemma w_logged_impl_name_set_mk f w : w_logged_impl_name (set_mk f w) = w_logged_impl_name w.
Proof. reflexivity. Qed.
Lemma w_trace_set_mk f w : w_trace (set_mk f w) = w_trace w.
Proof. reflexivity. Qed.
Lemma w_table_set_ci f w : w_table (set_ci f w) = w_table w.
Proof. reflexivity. Qed.
Lemma w_mk_set_ci f w : w_mk (set_ci f w) = w_mk w.
Proof. reflexivity. Qed.
Lemma w_ci_set_ci f w : w_ci (set_ci f w) = f (w_ci w).
Proof. reflexivity. Qed.
Lemma w_tfm_set_ci f w : w_tfm (set_ci f w) = w_tfm w.
Proof. reflexivity. Qed.
Lemma w_essiv_hash_tfm_set_ci f w : w_essiv_hash_tfm (set_ci f w) = w_essiv_hash_tfm w.
Proof. reflexivity. Qed.
Lemma w_i_crypt_info_set_ci f w : w_i_crypt_info (set_ci f w) = w_i_crypt_info w.
Proof. reflexivity. Qed.
Lemma w_logged_impl_name_set_ci f w : w_logged_impl_name (set_ci f w) = w_logged_impl_name w.
Proof. reflexivity. Qed.
Lemma w_trace_set_ci f w : w_trace (set_ci f w) = w_trace w.
Proof. reflexivity. Qed.
Lemma w_table_set_tfm f w : w_table (set_tfm f w) = w_table w.
Proof. reflexivity. Qed.
Lemma w_mk_set_tfm f w : w_mk (set_tfm f w) = w_mk w.
Proof. reflexivity. Qed.
Lemma w_ci_set_tfm f w : w_ci (set_tfm f w) = w_ci w.
Proof. reflexivity. Qed.
Lemma w_tfm_set_tfm f w : w_tfm (set_tfm f w) = f (w_tfm w).
Proof. reflexivity. Qed.
Lemma w_essiv_hash_tfm_set_tfm f w : w_essiv_hash_tfm (set_tfm f w) = w_essiv_hash_tfm w.
Proof. reflexivity. Qed.
Lemma w_i_crypt_info_set_tfm f w : w_i_crypt_info (set_tfm f w) = w_i_crypt_info w.
Proof. reflexivity. Qed.
Lemma w_logged_impl_name_set_tfm f w : w_logged_impl_name (set_tfm f w) = w_logged_impl_name w.
Proof. reflexivity. Qed.
Lemma w_trace_set_tfm f w : w_trace (set_tfm f w) = w_trace w.
Proof. reflexivity. Qed.
Lemma w_table_set_essiv_hash_tfm f w : w_table (set_essiv_hash_tfm f w) = w_table w.
Proof. reflexivity. Qed.
Lemma w_mk_set_essiv_hash_tfm f w : w_mk (set_essiv_hash_tfm f w) = w_mk w.
Proof. reflexivity. Qed.
Lemma w_ci_set_essiv_hash_tfm f w : w_ci (set_essiv_hash_tfm f w) = w_ci w.
Proof. reflexivity. Qed.
Lemma w_tfm_set_essiv_hash_tfm f w : w_tfm (set_essiv_hash_tfm f w) = w_tfm w.
Proof. reflexivity. Qed.
Lemma w_essiv_hash_tfm_set_essiv_hash_tfm f w : w_essiv_hash_tfm (set_essiv_hash_tfm f w) = f.
Proof. reflexivity. Qed.
Lemma w_i_crypt_info_set_essiv_hash_tfm f w : w_i_crypt_info (set_essiv_hash_tfm f w) = w_i_crypt_info w.
Proof. reflexivity. Qed.
Lemma w_logged_impl_name_set_essiv_hash_tfm f w : w_logged_impl_name (set_essiv_hash_tfm f w) = w_logged_impl_name w.
Proof. reflexivity. Qed.
Lemma w_trace_set_essiv_hash_tfm f w : w_trace (set_essiv_hash_tfm f w) = w_trace w.
Proof. reflexivity. Qed.
Lemma w_table_set_i_crypt_info f w : w_table (set_i_crypt_info f w) = w_table w.
Proof. reflexivity. Qed.
Lemma w_mk_set_i_crypt_info f w : w_mk (set_i_crypt_info f w) = w_mk w.
Proof. reflexivity. Qed.
Lemma w_ci_set_i_crypt_info f w : w_ci (set_i_crypt_info f w) = w_ci w.
Proof. reflexivity. Qed.
Lemma w_tfm_set_i_crypt_info f w : w_tfm (set_i_crypt_info f w) = w_tfm w.
Proof. reflexivity. Qed.
Lemma w_essiv_hash_tfm_set_i_crypt_info f w : w_essiv_hash_tfm (set_i_crypt_info f w) = w_essiv_hash_tfm w.
Proof. reflexivity. Qed.
Lemma w_i_crypt_info_set_i_crypt_info f w : w_i_crypt_info (set_i_crypt_info f w) = f (w_i_crypt_info w).
Proof. reflexivity. Qed.
Lemma w_logged_impl_name_set_i_crypt_info f w : w_logged_impl_name (set_i_crypt_info f w) = w_logged_impl_name w.
Proof. reflexivity. Qed.
Lemma w_trace_set_i_crypt_info f w : w_trace (set_i_crypt_info f w) = w_trace w.
Proof. reflexivity. Qed.
Lemma w_table_set_logged_impl_name f w : w_table (set_logged_impl_name f w) = w_table w.
Proof. reflexivity. Qed.
Lemma w_mk_set_logged_impl_name f w : w_mk (set_logged_impl_name f w) = w_mk w.
Proof. reflexivity. Qed.
Lemma w_ci_set_logged_impl_name f w : w_ci (set_logged_impl_name f w) = w_ci w.
Proof. reflexivity. Qed.
Lemma w_tfm_set_logged_impl_name f w : w_tfm (set_logged_impl_name f w) = w_tfm w.
Proof. reflexivity. Qed.
Lemma w_essiv_hash_tfm_set_logged_impl_name f w : w_essiv_hash_tfm (set_logged_impl_name f w) = w_essiv_hash_tfm w.
Proof. reflexivity. Qed.
Lemma w_i_crypt_info_set_logged_impl_name f w : w_i_crypt_info (set_logged_impl_name f w) = w_i_crypt_info w.
Proof. reflexivity. Qed.
Lemma w_logged_impl_name_set_logged_impl_name f w : w_logged_impl_name (set_logged_impl_name f w) = f.
Proof. reflexivity. Qed.
Lemma w_trace_set_logged_impl_name f w : w_trace (set_logged_impl_name f w) = w_trace w.
Proof. reflexivity. Qed.
Lemma w_table_set_trace f w : w_table (set_trace f w) = w_table w.
Proof. reflexivity. Qed.
Lemma w_mk_set_trace f w : w_mk (set_trace f w) = w_mk w.
Proof. reflexivity. Qed.
Lemma w_ci_set_trace f w : w_ci (set_trace f w) = w_ci w.
Proof. reflexivity. Qed.
Lemma w_tfm_set_trace f w : w_tfm (set_trace f w) = w_tfm w.
Proof. reflexivity. Qed.
Lemma w_essiv_hash_tfm_set_trace f w : w_essiv_hash_tfm (set_trace f w) = w_essiv_hash_tfm w.
Proof. reflexivity. Qed.
Lemma w_i_crypt_info_set_trace f w : w_i_crypt_info (set_trace f w) = w_i_crypt_info w.
Proof. reflexivity. Qed.
Lemma w_logged_impl_name_set_trace f w : w_logged_impl_name (set_trace f w) = w_logged_impl_name w.
Proof. reflexivity. Qed.
Lemma w_trace_set_trace f w : w_trace (set_trace f w) = f (w_trace w).
Proof. reflexivity. Qed.
Lemma w_table_add_events evs w : w_table (add_events evs w) = w_table w.
Proof. reflexivity. Qed.
Lemma w_mk_add_events evs w : w_mk (add_events evs w) = w_mk w.
Proof. reflexivity. Qed.
Lemma w_ci_add_events evs w : w_ci (add_events evs w) = w_ci w.
Proof. reflexivity. Qed.
Lemma w_tfm_add_events evs w : w_tfm (add_events evs w) = w_tfm w.
Proof. reflexivity. Qed.
Lemma w_essiv_hash_tfm_add_events evs w : w_essiv_hash_tfm (add_events evs w) = w_essiv_hash_tfm w.
Proof. reflexivity. Qed.
Lemma w_i_crypt_info_add_events evs w : w_i_crypt_info (add_events evs w) = w_i_crypt_info w.
Proof. reflexivity. Qed.
Lemma w_logged_impl_name_add_events evs w : w_logged_impl_name (add_events evs w) = w_logged_impl_name w.
Proof. reflexivity. Qed.
Lemma w_trace_add_events evs w : w_trace (add_events evs w) = w_trace w ++ evs.
Proof. reflexivity. Qed.

Create Rewrite HintDb world.
Create Rewrite HintDb events.

#[global] Hint Rewrite
  w_table_set_table w_mk_set_table w_ci_set_table w_tfm_set_table
  w_essiv_hash_tfm_set_table w_i_crypt_info_set_table
  w_logged_impl_name_set_table w_trace_set_table w_table_set_mk w_mk_set_mk
  w_ci_set_mk w_tfm_set_mk w_essiv_hash_tfm_set_mk w_i_crypt_info_set_mk
  w_logged_impl_name_set_mk w_trace_set_mk w_table_set_ci w_mk_set_ci
  w_ci_set_ci w_tfm_set_ci w_essiv_hash_tfm_set_ci w_i_crypt_info_set_ci
  w_logged_impl_name_set_ci w_trace_set_ci w_table_set_tfm w_mk_set_tfm
  w_ci_set_tfm w_tfm_set_tfm w_essiv_hash_tfm_set_tfm
  w_i_crypt_info_set_tfm w_logged_impl_name_set_tfm w_trace_set_tfm
  w_table_set_essiv_hash_tfm w_mk_set_essiv_hash_tfm
  w_ci_set_essiv_hash_tfm w_tfm_set_essiv_hash_tfm
  w_essiv_hash_tfm_set_essiv_hash_tfm w_i_crypt_info_set_essiv_hash_tfm
  w_logged_impl_name_set_essiv_hash_tfm w_trace_set_essiv_hash_tfm
  w_table_set_i_crypt_info w_mk_set_i_crypt_info w_ci_set_i_crypt_info
  w_tfm_set_i_crypt_info w_essiv_hash_tfm_set_i_crypt_info
  w_i_crypt_info_set_i_crypt_info w_logged_impl_name_set_i_crypt_info
  w_trace_set_i_crypt_info w_table_set_logged_impl_name
  w_mk_set_logged_impl_name w_ci_set_logged_impl_name
  w_tfm_set_logged_impl_name w_essiv_hash_tfm_set_logged_impl_name
  w_i_crypt_info_set_logged_impl_name
  w_logged_impl_name_set_logged_impl_name w_trace_set_logged_impl_name
  w_table_set_trace w_mk_set_trace w_ci_set_trace w_tfm_set_trace
  w_essiv_hash_tfm_set_trace w_i_crypt_info_set_trace
  w_logged_impl_name_set_trace w_trace_set_trace w_table_add_events
  w_mk_add_events w_ci_add_events w_tfm_add_events
  w_essiv_hash_tfm_add_events w_i_crypt_info_add_events
  w_logged_impl_name_add_events w_trace_add_events
  : world.

(** Events commute with the updates of the other fields, and add up. *)
Lemma set_table_add_events f evs w : set_table f (add_events evs w) = add_events evs (set_table f w).
Proof. reflexivity. Qed.
Lemma set_mk_add_events f evs w : set_mk f (add_events evs w) = add_events evs (set_mk f w).
Proof. reflexivity. Qed.
Lemma set_ci_add_events f evs w : set_ci f (add_events evs w) = add_events evs (set_ci f w).
Proof. reflexivity. Qed.
Lemma set_tfm_add_events f evs w : set_tfm f (add_events evs w) = add_events evs (set_tfm f w).
Proof. reflexivity. Qed.
Lemma set_essiv_hash_tfm_add_events f evs w : set_essiv_hash_tfm f (add_events evs w) = add_events evs (set_essiv_hash_tfm f w).
Proof. reflexivity. Qed.
Lemma set_i_crypt_info_add_events f evs w : set_i_crypt_info f (add_events evs w) = add_events evs (set_i_crypt_info f w).
Proof. reflexivity. Qed.
Lemma set_logged_impl_name_add_events f evs w : set_logged_impl_name f (add_events evs w) = add_events evs (set_logged_impl_name f w).
Proof. reflexivity. Qed.

Lemma add_events_nil w : add_events [] w = w.
Proof. destruct w. unfold add_events, set_trace. simpl. by rewrite app_nil_r. Qed.

Lemma add_events_app evs1 evs2 w :
  add_events evs2 (add_events evs1 w) = add_events (evs1 ++ evs2) w.
Proof. unfold add_events, set_trace. simpl. by rewrite app_assoc. Qed.

#[global] Hint Rewrite
  set_table_add_events set_mk_add_events set_ci_add_events
  set_tfm_add_events set_essiv_hash_tfm_add_events
  set_i_crypt_info_add_events set_logged_impl_name_add_events
  add_events_app : events.

(** Two worlds with the same fields are equal. *)
Lemma world_eq (w1 w2 : world) :
  w_table w1 = w_table w2 -> w_mk w1 = w_mk w2 -> w_ci w1 = w_ci w2 ->
  w_tfm w1 = w_tfm w2 -> w_essiv_hash_tfm w1 = w_essiv_hash_tfm w2 ->
  w_i_crypt_info w1 = w_i_crypt_info w2 ->
  w_logged_impl_name w1 = w_logged_impl_name w2 ->
  w_trace w1 = w_trace w2 -> w1 = w2.
Proof. destruct w1, w2. simpl. by intros -> -> -> -> -> -> -> ->. Qed.

#[global] Opaque set_table set_mk set_ci set_tfm set_essiv_hash_tfm
  set_i_crypt_info set_logged_impl_name set_trace add_events.

(** Bring the events of a world together. *)
Ltac trace_eq :=
  autorewrite with events; reflexivity.

(** ** Running the code step by step *)

Lemma post_intro {A} (m : M A) w (Q : A -> world -> Prop) :
  post m w Q -> Q (m w).1 (m w).2.
Proof. done. Qed.

Lemma post_run {A} (m : M A) w (Q : A -> world -> Prop) :
  Q (m w).1 (m w).2 -> post m w Q.
Proof. done. Qed.

Lemma post_result {A} (m : M A) w x :
  post m w (fun r w' => (r, w') = x) -> m w = x.
Proof. unfold post. by destruct (m w). Qed.

Lemma post_bind {A B} (m : M A) (k : A -> M B) w Q :
  post m w (fun a w' => post (k a) w' Q) -> post (bind m k) w Q.
Proof. unfold post. by rewrite bind_eq. Qed.

Lemma post_ret {A} (a : A) w Q : Q a w -> post (ret a) w Q.
Proof. done. Qed.

Lemma post_emit e w Q : Q tt (add_events [e] w) -> post (emit e) w Q.
Proof. done. Qed.

Lemma post_modify f w Q : Q tt (f w) -> post (modify f) w Q.
Proof. done. Qed.

Lemma post_get w Q : Q w w -> post get w Q.
Proof. done. Qed.

Lemma post_eq {A} (m : M A) w r w' Q : m w = (r, w') -> Q r w' -> post m w Q.
Proof. unfold post. by intros ->. Qed.

Lemma post_when_true m w Q : post m w Q -> post (when true m) w Q.
Proof. done. Qed.

Lemma post_when_false m w Q : Q tt w -> post (when false m) w Q.
Proof. done. Qed.

Lemma post_when b m w Q :
  (b = true -> post m w Q) -> (b = false -> Q tt w) -> post (when b m) w Q.
Proof.
  destruct b; intros H1 H2.
  - by apply post_when_true, H1.
  - by apply post_when_false, H2.
Qed.

Lemma post_when_emit b e w Q :
  (forall evs, Q tt (add_events evs w)) -> post (when b (emit e)) w Q.
Proof.
  intros HQ. destruct b.
  - apply post_when_true, post_emit, HQ.
  - apply post_when_false. rewrite <- (add_events_nil w). apply HQ.
Qed.

Lemma post_kzfree b w Q :
  (forall evs, Q tt (add_events evs w)) -> post (kzfree b) w Q.
Proof.
  intros HQ. destruct b; unfold kzfree.
  - apply post_emit, HQ.
  - apply post_ret. rewrite <- (add_events_nil w). apply HQ.
Qed.

Lemma post_crypto_free_None w Q : Q tt w -> post (crypto_free None) w Q.
Proof. intros HQ. by apply post_ret. Qed.

Lemma post_ci_store `{KernelHeaders} p f w Q :
  Q tt (set_ci (alter f p) w) -> post (ci_store p f) w Q.
Proof. done. Qed.

Lemma post_ci_load `{KernelHeaders} p w Q :
  Q (default zero_crypt_info (w_ci w !! p)) w -> post (ci_load p) w Q.
Proof. done. Qed.

Lemma post_mk_store p f w Q :
  Q tt (set_mk (alter f p) w) -> post (mk_store p f) w Q.
Proof. done. Qed.

#[global] Opaque post.

Ltac mstep1 :=
  lazymatch goal with
  | |- post (bind _ _) _ _ => apply post_bind
  | |- post (ret _) _ _ => apply post_ret
  | |- post (emit _) _ _ => apply post_emit
  | |- post (modify _) _ _ => apply post_modify
  | |- post get _ _ => apply post_get
  | |- post (when true _) _ _ => apply post_when_true
  | |- post (when false _) _ _ => apply post_when_false
  | |- post (ci_store _ _) _ _ => apply post_ci_store
  | |- post (ci_load _) _ _ => apply post_ci_load
  | |- post (mk_store _ _) _ _ => apply post_mk_store
  end; cbn beta.

Ltac mstep := repeat first [mstep1 | progress cbn beta iota].

Lemma set_ci_alter_id p w : set_ci (alter (fun c => c) p) w = w.
Proof.
  apply world_eq; autorewrite with world; try reflexivity.
  by apply alter_id.
Qed.

Lemma set_ci_alter_fuse f g p w :
  set_ci (alter f p) (set_ci (alter g p) w) = set_ci (alter (f ∘ g) p) w.
Proof.
  apply world_eq; autorewrite with world; try reflexivity.
  by rewrite alter_alter_eq.
Qed.

(** ** Traces only grow *)

Lemma grows_ret {A} (a : A) : grows (ret a).
Proof. intros w. exists []. by rewrite app_nil_r. Qed.
Lemma grows_emit e : grows (emit e).
Proof. intros w. by exists [e]. Qed.
Lemma grows_get : grows get.
Proof. intros w. exists []. by rewrite app_nil_r. Qed.
Lemma grows_bind {A B} (m : M A) (k : A -> M B) :
  grows m -> (forall a, grows (k a)) -> grows (bind m k).
Proof.
  intros Hm Hk w. rewrite bind_eq.
  destruct (Hm w) as [e1 E1]. destruct (Hk (m w).1 (m w).2) as [e2 E2].
  exists (e1 ++ e2). by rewrite E2, E1, app_assoc.
Qed.
Lemma grows_modify f :
  (forall w, w_trace (f w) = w_trace w) -> grows (modify f).
Proof. intros Hf w. exists []. cbn. by rewrite Hf, app_nil_r. Qed.
Lemma grows_when b m : grows m -> grows (when b m).
Proof. destruct b; [done |]. intros _. apply grows_ret. Qed.

Ltac grows_step :=
  lazymatch goal with
  | |- grows (bind _ _) => apply grows_bind; [| intros ?]
  | |- grows (ret _) => apply grows_ret
  | |- grows (emit _) => apply grows_emit
  | |- grows get => apply grows_get
  | |- grows (when _ _) => apply grows_when
  | |- grows (modify _) =>
      apply grows_modify; intros ?; autorewrite with world; reflexivity
  | |- grows (match ?x with _ => _ end) => destruct x
  | |- grows (let (_, _) := ?x in _) => destruct x
  end.


(** ** Buffers *)

Lemma memcpy_exact (dst src : bytes) n :
  length dst = Z.to_nat n -> length src = Z.to_nat n -> memcpy dst src n = src.
Proof.
  intros Hd Hs. unfold memcpy.
  rewrite take_ge by lia. rewrite drop_ge by lia. by rewrite app_nil_r.
Qed.

Lemma length_uninitialized garbage n :
  length (uninitialized garbage n) = Z.to_nat n.
Proof.
  unfold uninitialized, zeros. rewrite length_take, length_app, length_replicate. lia.
Qed.

Lemma memset_all (b : bytes) :
  memset b x00 (Z.of_nat (length b)) = zeros (length b).
Proof.
  unfold memset, zeros. rewrite Nat2Z.id, drop_all. by rewrite app_nil_r.
Qed.

Section Basics.
Context `{KernelHeaders} `{CryptoPrimitives}.

(** ** The wrapping-key locator *)

Lemma find_and_lock_process_key_no_key a prefix descriptor min_keysize w :
  a_kasprintf a = true ->
  no_usable_key a (key_description prefix descriptor) min_keysize ->
  find_and_lock_process_key a prefix descriptor min_keysize w =
    (inl (- ENOKEY),
     add_events (lookup_events a (key_description prefix descriptor) min_keysize) w).
Proof.
  intros Hk Hno. unfold find_and_lock_process_key, lookup_events.
  fold (key_description prefix descriptor).
  rewrite Hk. simpl. mrun.
  destruct Hno as [Habs | k Hreq Hrev | k ukp Hreq Hpay Hbad].
  - rewrite Habs. trace_eq.
  - rewrite Hreq. simpl. rewrite Hrev. trace_eq.
  - rewrite Hreq. simpl. rewrite Hpay.
    destruct (negb (bool_decide (datalen ukp = sizeof_fscrypt_key))
              || (key_size (data ukp) <? 1)
              || (FS_MAX_KEY_SIZE <? key_size (data ukp))) eqn:E1.
    + trace_eq.
    + destruct (key_size (data ukp) <? min_keysize) eqn:E2.
      * trace_eq.
      * exfalso. apply Hbad.
        apply orb_false_elim in E1 as [E1 E3].
        apply orb_false_elim in E1 as [E0 E1].
        apply negb_false_iff, bool_decide_eq_true in E0.
        apply Z.ltb_ge in E1, E2, E3.
        unfold payload_well_formed. lia.
Qed.

Lemma find_and_lock_process_key_found a prefix descriptor min_keysize w k ukp :
  a_kasprintf a = true ->
  a_request_key a (key_description prefix descriptor) = inr k ->
  payload k = Some ukp ->
  payload_well_formed ukp min_keysize ->
  find_and_lock_process_key a prefix descriptor min_keysize w =
    (inr (k, data ukp),
     add_events [Ev_kasprintf;
                 Ev_request_key (key_description prefix descriptor);
                 Ev_kfree (Freed_description (key_description prefix descriptor));
                 Ev_down_read (description k)] w).
Proof.
  intros Hk Hreq Hpay (Hlen & Hsz & Hmin).
  unfold find_and_lock_process_key.
  fold (key_description prefix descriptor).
  rewrite Hk. simpl. mrun. rewrite Hreq. simpl. rewrite Hpay.
  rewrite (bool_decide_eq_true_2 _ Hlen). simpl.
  replace (key_size (data ukp) <? 1) with false by (symmetry; apply Z.ltb_ge; lia).
  replace (FS_MAX_KEY_SIZE <? key_size (data ukp)) with false
    by (symmetry; apply Z.ltb_ge; lia).
  replace (key_size (data ukp) <? min_keysize) with false
    by (symmetry; apply Z.ltb_ge; lia).
  trace_eq.
Qed.

(** [find_and_derive_key] once its lookup has found the master key. *)
Lemma find_and_derive_key_located a inode ctx derived_key mode w k payload w1 :
  locate_master_key a inode ctx mode w = (inr (k, payload), w1) ->
  find_and_derive_key a inode ctx derived_key mode w =
    (let* r :=
       if negb (bool_decide (Z.land (flags ctx) FS_POLICY_FLAG_DIRECT_KEY = 0)) then
         if ivsize (available_modes mode) <? offsetofend_fscrypt_iv_nonce then
           emit (Ev_warn "direct key mode not allowed with this mode") >>
           ret (- EINVAL, derived_key)
         else if negb (bool_decide (contents_encryption_mode ctx =
                                    filenames_encryption_mode ctx)) then
           emit (Ev_warn "direct key mode not allowed with different contents and filenames modes") >>
           ret (- EINVAL, derived_key)
         else
           ret (0, memcpy derived_key (key_raw payload)
                     (keysize (available_modes mode)))
       else if inline_encryption (available_modes mode) then
         ret (0, memcpy derived_key (key_raw payload)
                   (keysize (available_modes mode)))
       else
         derive_key_aes a (key_raw payload) ctx derived_key
           (keysize (available_modes mode)) in
     emit (Ev_up_read (description k)) >>
     emit (Ev_key_put (description k)) >>
     ret r) w1.
Proof.
  intros Hloc. unfold find_and_derive_key.
  rewrite <- bind_assoc. fold (locate_master_key a inode ctx mode).
  rewrite bind_eq, Hloc. reflexivity.
Qed.

(** [find_and_derive_key] when its lookup fails: the error of the lookup
    is returned and the buffer is left as it was. *)
Lemma find_and_derive_key_not_located a inode ctx derived_key mode w e w1 :
  locate_master_key a inode ctx mode w = (inl e, w1) ->
  find_and_derive_key a inode ctx derived_key mode w = ((e, derived_key), w1).
Proof.
  intros Hloc. unfold find_and_derive_key.
  rewrite <- bind_assoc. fold (locate_master_key a inode ctx mode).
  rewrite bind_eq, Hloc. reflexivity.
Qed.

Lemma derive_key_aes_ok a master_key ctx derived_key n w :
  a_ecb_alloc a = 0 -> a_ecb_request_alloc a = true ->
  a_ecb_setkey a = 0 -> a_ecb_encrypt a = 0 ->
  (derive_key_aes a master_key ctx derived_key n w).1 =
    (0, memcpy derived_key
          (aes_ecb_encrypt (take (Z.to_nat FS_KEY_DERIVATION_NONCE_SIZE) (nonce ctx))
             (take (Z.to_nat n) master_key)) n).
Proof.
  intros Ha Hr Hs He. unfold derive_key_aes, crypto_alloc, crypto_setkey,
    crypto_set_weak_key, crypto_free.
  rewrite Ha, Hr, Hs, He. simpl. mrun.
  unfold key_of_tfm. autorewrite with world.
  rewrite !lookup_alter_eq, lookup_insert_eq. simpl. reflexivity.
Qed.

Lemma select_encryption_mode_selects ci inode mode w :
  selects (ci_data_mode ci) (ci_filename_mode ci) inode mode ->
  select_encryption_mode ci inode w = (inr mode, w).
Proof.
  intros [Hv Hk]. unfold select_encryption_mode. rewrite Hv. cbn [negb].
  destruct Hk as [(-> & Hice & ->) | (-> & Hdl & ->)].
  - destruct Hice as [-> | ->]; [reflexivity |]. by rewrite andb_false_r.
  - destruct Hdl as [-> | ->]; [reflexivity |]. by rewrite orb_true_r.
Qed.

Lemma locate_master_key_unavailable a inode ctx mode :
  master_key_unavailable a inode ctx mode ->
  exists evs, forall w,
    locate_master_key a inode ctx mode w = (inl (- ENOKEY), add_events evs w).
Proof.
  intros (Hk & Hfs & Hpre). unfold locate_master_key.
  destruct (s_cop_key_prefix (i_sb inode)) as [prefix |] eqn:Epre.
  - eexists. intros w. rewrite bind_eq.
    rewrite (find_and_lock_process_key_no_key _ _ _ _ _ Hk Hfs). cbn [fst snd].
    rewrite bool_decide_eq_true_2 by done.
    rewrite (find_and_lock_process_key_no_key _ _ _ _ _ Hk (Hpre _ eq_refl)).
    f_equal. trace_eq.
  - eexists. intros w. rewrite bind_eq.
    rewrite (find_and_lock_process_key_no_key _ _ _ _ _ Hk Hfs). cbn [fst snd].
    reflexivity.
Qed.

Lemma find_and_derive_key_unavailable a inode ctx mode :
  master_key_unavailable a inode ctx mode ->
  exists evs, forall w derived_key,
    find_and_derive_key a inode ctx derived_key mode w =
      ((- ENOKEY, derived_key), add_events evs w).
Proof.
  intros Hno. destruct (locate_master_key_unavailable _ _ _ _ Hno) as [evs Hloc].
  exists evs. intros w dk. by apply find_and_derive_key_not_located.
Qed.

Lemma crypto_alloc_ok alg w :
  crypto_alloc 0 alg w =
    (inr (fresh (dom (w_tfm w))),
     add_events [Ev_crypto_alloc alg (fresh (dom (w_tfm w)))]
       (set_tfm (insert (fresh (dom (w_tfm w))) (new_tfm alg)) w)).
Proof. reflexivity. Qed.

Lemma crypto_alloc_failed answer alg w :
  answer <> 0 ->
  crypto_alloc answer alg w = (inl answer, add_events [Ev_crypto_alloc_failed alg] w).
Proof.
  intros Hne. unfold crypto_alloc. by rewrite (bool_decide_eq_false_2 _ Hne).
Qed.

Lemma crypto_setkey_ok h k w :
  crypto_setkey 0 h k w =
    (0, set_tfm (alter (fun t =>
          {| tfm_alg := tfm_alg t; tfm_key := Some k;
             tfm_weak_key := tfm_weak_key t |}) h)
          (add_events [Ev_crypto_setkey h k] w)).
Proof. reflexivity. Qed.

Lemma crypto_setkey_result answer h k w : (crypto_setkey answer h k w).1 = answer.
Proof. unfold crypto_setkey. mrun. by destruct (bool_decide (answer = 0)). Qed.

Lemma crypto_free_eq h w :
  crypto_free h w =
    (tt, add_events (free_events h)
           (set_tfm (fun t => match h with Some h => delete h t | None => t end) w)).
Proof.
  destruct h; [reflexivity |]. unfold crypto_free, free_events. mrun.
  f_equal. rewrite add_events_nil.
  apply world_eq; by autorewrite with world.
Qed.

Lemma free_master_key_live p o w :
  w_mk w !! p = Some o ->
  free_master_key (Some p) w =
    (tt, add_events (free_events (mk_ctfm o) ++
                     [Ev_kfree (Freed_master_key p (cleared_master_key o))])
           (set_mk (delete p)
              (set_tfm (fun t => match mk_ctfm o with
                                 | Some h => delete h t
                                 | None => t
                                 end) w))).
Proof.
  intros Hp. apply post_result. unfold free_master_key. mstep. rewrite Hp. mstep.
  eapply post_eq; [apply crypto_free_eq |]. mstep.
  f_equal. by autorewrite with events.
Qed.

Lemma keeps_ciphers_compose f g :
  keeps_ciphers f -> keeps_ciphers g -> keeps_ciphers (f ∘ g).
Proof.
  intros Hf Hg c. unfold compose. destruct (Hf (g c)) as (-> & -> & ->). apply Hg.
Qed.

Lemma not_is_Some_None {A} : bool_decide (is_Some (@None A)) = false.
Proof. apply bool_decide_eq_false_2. by intros [? ?]. Qed.

End Basics.

Ltac keeps :=
  repeat (lazymatch goal with
          | |- keeps_ciphers (_ ∘ _) => apply keeps_ciphers_compose
          end);
  first [assumption | by intros ?].

(** ** Key derivation *)

Section Derivation.
Context `{KernelHeaders} `{CryptoPrimitives}.

(** C3.  For a policy without DIRECT_KEY and a mode without inline
    encryption, once the master key has been found and the crypto API
    does its work, the key that [find_and_derive_key] produces is the
    ecb(aes) encryption, under the nonce of the inode, of the first
    [keysize] bytes of the master key; it has [keysize] bytes; and it is
    the same in every state of the kernel and whatever the buffer held
    before. *)
Theorem find_and_derive_key_aes
    a inode ctx derived_key mode w k payload w1 :
  ~ direct_key_policy (flags ctx) ->
  inline_encryption (available_modes mode) = false ->
  locate_master_key a inode ctx mode w = (inr (k, payload), w1) ->
  a_ecb_alloc a = 0 -> a_ecb_request_alloc a = true ->
  a_ecb_setkey a = 0 -> a_ecb_encrypt a = 0 ->
  (forall key text, length (aes_ecb_encrypt key text) = length text) ->
  length derived_key = Z.to_nat (keysize (available_modes mode)) ->
  (Z.to_nat (keysize (available_modes mode)) <= length (key_raw payload))%nat ->
  let derived :=
    aes_ecb_encrypt (take (Z.to_nat FS_KEY_DERIVATION_NONCE_SIZE) (nonce ctx))
      (take (Z.to_nat (keysize (available_modes mode))) (key_raw payload)) in
  (find_and_derive_key a inode ctx derived_key mode w).1 = (0, derived)
  /\ length derived = Z.to_nat (keysize (available_modes mode))
  /\ forall w' w1' derived_key',
       locate_master_key a inode ctx mode w' = (inr (k, payload), w1') ->
       length derived_key' = Z.to_nat (keysize (available_modes mode)) ->
       (find_and_derive_key a inode ctx derived_key' mode w').1 =
       (find_and_derive_key a inode ctx derived_key mode w).1.
Proof.
  intros Hdk Hinl Hloc Ha Hr Hs He Hlen Hbuf Hraw derived.
  assert (Hd : length derived = Z.to_nat (keysize (available_modes mode))).
  { unfold derived. rewrite Hlen, length_take. lia. }
  assert (Hgen : forall w' w1' derived_key',
    locate_master_key a inode ctx mode w' = (inr (k, payload), w1') ->
    length derived_key' = Z.to_nat (keysize (available_modes mode)) ->
    (find_and_derive_key a inode ctx derived_key' mode w').1 = (0, derived)).
  { intros w' w1' dk' Hloc' Hbuf'.
    rewrite (find_and_derive_key_located _ _ _ _ _ _ _ _ _ Hloc').
    unfold direct_key_policy in Hdk.
    assert (Hz : Z.land (flags ctx) FS_POLICY_FLAG_DIRECT_KEY = 0)
      by (destruct (decide (Z.land (flags ctx) FS_POLICY_FLAG_DIRECT_KEY = 0)); tauto).
    rewrite (bool_decide_eq_true_2 _ Hz), Hinl. simpl.
    rewrite bind_eq.
    rewrite (derive_key_aes_ok _ _ _ _ _ _ Ha Hr Hs He).
    mrun. cbn [fst]. f_equal. by apply memcpy_exact. }
  split; [by eapply Hgen | split; [done |]].
  intros w' w1' dk' Hloc' Hbuf'.
  rewrite (Hgen _ _ _ Hloc' Hbuf'). symmetry. by eapply Hgen.
Qed.

(** C4, as the code has it.  For a policy with DIRECT_KEY the master key
    is looked up first, and when the lookup fails its error is returned,
    whatever the modes of the policy are, and the buffer is left as it
    was.  Once the master key has been found: when the IV of the mode has
    room for the nonce and the contents and filenames modes are equal, the
    master key is copied as it is and nothing is derived (nothing else
    happens than the release of the key); when the IV is too small or the
    modes differ, the result is -EINVAL and the buffer is left as it
    was. *)
Theorem find_and_derive_key_direct_key a inode ctx derived_key mode w :
  direct_key_policy (flags ctx) ->
  let l := locate_master_key a inode ctx mode w in
  match l.1 with
  | inl e =>
      find_and_derive_key a inode ctx derived_key mode w
      = ((e, derived_key), l.2)
  | inr (k, payload) =>
      (offsetofend_fscrypt_iv_nonce <= ivsize (available_modes mode) ->
       contents_encryption_mode ctx = filenames_encryption_mode ctx ->
       find_and_derive_key a inode ctx derived_key mode w =
         ((0, memcpy derived_key (key_raw payload)
                (keysize (available_modes mode))),
          add_events [Ev_up_read (description k); Ev_key_put (description k)]
            l.2))
      /\ (ivsize (available_modes mode) < offsetofend_fscrypt_iv_nonce \/
          contents_encryption_mode ctx <> filenames_encryption_mode ctx ->
          exists msg,
            find_and_derive_key a inode ctx derived_key mode w =
              ((- EINVAL, derived_key),
               add_events [Ev_warn msg; Ev_up_read (description k);
                           Ev_key_put (description k)] l.2))
  end.
Proof.
  intros Hdk l. unfold l.
  destruct (locate_master_key a inode ctx mode w) as [[e | [k payload]] w1]
    eqn:Hloc; cbn [fst snd].
  { by apply find_and_derive_key_not_located. }
  rewrite (find_and_derive_key_located _ _ _ _ _ _ _ _ _ Hloc).
  unfold direct_key_policy in Hdk.
  rewrite (bool_decide_eq_false_2 _ Hdk). simpl.
  split.
  - intros Hiv Hsame.
    replace (ivsize (available_modes mode) <? offsetofend_fscrypt_iv_nonce)
      with false by (symmetry; apply Z.ltb_ge; lia).
    rewrite (bool_decide_eq_true_2 _ Hsame). simpl. mrun.
    f_equal. trace_eq.
  - intros Hbad.
    destruct (ivsize (available_modes mode) <? offsetofend_fscrypt_iv_nonce) eqn:E.
    + eexists. mrun. f_equal. trace_eq.
    + apply Z.ltb_ge in E. destruct Hbad as [Hbad | Hbad]; [lia |].
      rewrite (bool_decide_eq_false_2 _ Hbad). simpl.
      eexists. mrun. f_equal. trace_eq.
Qed.

End Derivation.

(** The files of the example: the key of a file under the per-file
    policy is the master key encrypted under the nonce. *)
Lemma find_and_derive_key_aes_witness :
  (find_and_derive_key (H:=linux_headers) (H0:=example_crypto)
     (all_succeed Ex.keyring) (Ex.file 10 Ex.policy_xts) Ex.policy_xts
     (zeros 64) 1 empty_world).1 = (0, replicate 64 x33).
Proof.
  etransitivity.
  - apply (find_and_derive_key_aes (H:=linux_headers) (H0:=example_crypto)
             (all_succeed Ex.keyring) (Ex.file 10 Ex.policy_xts) Ex.policy_xts
             (zeros 64) 1 empty_world Ex.key_object Ex.master_key
             (locate_master_key (H:=linux_headers) (all_succeed Ex.keyring)
                (Ex.file 10 Ex.policy_xts) Ex.policy_xts 1 empty_world).2).
    + unfold direct_key_policy. vm_compute. intros Hne. by apply Hne.
    + reflexivity.
    + vm_compute. reflexivity.
    + reflexivity.
    + reflexivity.
    + reflexivity.
    + reflexivity.
    + intros key text. apply length_map.
    + reflexivity.
    + vm_compute. lia.
  - vm_compute. reflexivity.
Defined.

(** Adiantum with DIRECT_KEY: the master key is the key of the file. *)
Lemma find_and_derive_key_direct_key_witness :
  (find_and_derive_key (H:=linux_headers) (H0:=example_crypto)
     (all_succeed Ex.keyring) (Ex.file 11 Ex.policy_adiantum_direct)
     Ex.policy_adiantum_direct (zeros 32) 9 empty_world).1
  = (0, replicate 32 x11).
Proof.
  pose proof (find_and_derive_key_direct_key (H:=linux_headers)
                (H0:=example_crypto) (all_succeed Ex.keyring)
                (Ex.file 11 Ex.policy_adiantum_direct)
                Ex.policy_adiantum_direct (zeros 32) 9 empty_world
                ltac:(unfold direct_key_policy; vm_compute; discriminate))
    as Hd.
  cbn zeta in Hd.
  replace (locate_master_key (H:=linux_headers) (all_succeed Ex.keyring)
             (Ex.file 11 Ex.policy_adiantum_direct)
             Ex.policy_adiantum_direct 9 empty_world).1
    with (inr (Ex.key_object, Ex.master_key) : Z + key * fscrypt_key) in Hd
    by (vm_compute; reflexivity).
  rewrite (proj1 Hd).
  - vm_compute. reflexivity.
  - vm_compute. discriminate.
  - reflexivity.
Defined.

(** With DIRECT_KEY on a mode whose IV has no room for the nonce, and
    with contents and filenames modes that differ, but without a master
    key in the keyring: the result is -ENOKEY, not -EINVAL, and no warning
    is logged; [fscrypt_get_encryption_info] then returns 0. *)
Lemma find_and_derive_key_direct_key_without_key :
  let ctx := Ex.policy 1 4 4 in
  let r := find_and_derive_key (H:=linux_headers) (H0:=example_crypto)
             (all_succeed empty_keyring) (Ex.file 12 ctx) ctx (zeros 64) 1
             empty_world in
  direct_key_policy (H:=linux_headers) (flags ctx)
  /\ ivsize (available_modes (H:=linux_headers) 1)
     < offsetofend_fscrypt_iv_nonce (KernelHeaders:=linux_headers)
  /\ contents_encryption_mode ctx <> filenames_encryption_mode ctx
  /\ r.1 = (- ENOKEY (KernelHeaders:=linux_headers), zeros 64)
  /\ r.1.1 <> - EINVAL (KernelHeaders:=linux_headers)
  /\ (forall msg, Ev_warn msg ∉ w_trace r.2)
  /\ (fscrypt_get_encryption_info (H:=linux_headers) (H0:=example_crypto)
        (all_succeed empty_keyring) (Ex.file 12 ctx) empty_world).1 = 0.
Proof.
  intros ctx r.
  split; [unfold direct_key_policy; vm_compute; discriminate |].
  split; [vm_compute; reflexivity |].
  split; [vm_compute; discriminate |].
  split; [vm_compute; reflexivity |].
  split; [vm_compute; discriminate |].
  split; [| vm_compute; reflexivity].
  intros msg Hin. apply list_elem_of_In in Hin. vm_compute in Hin.
  repeat (destruct Hin as [Hin | Hin]; [discriminate Hin |]). exact Hin.
Qed.

(** ** Mode selection and policy validation *)

Section Validation.
Context `{KernelHeaders} `{CryptoPrimitives}.

(** C5, as the code has it.  With an unrecognised pair of modes the
    result is -EINVAL.  With a recognised pair: for a regular file the
    contents mode, unless the mode is an inline-encryption mode and the
    volume is not ICE capable, which gives an error; for a directory or a
    symbolic link the filenames mode; and for any other kind of inode a
    warning is logged and the error -EINVAL is returned to the caller. *)
Theorem select_encryption_mode_spec ci inode w :
  (fscrypt_valid_enc_modes (ci_data_mode ci) (ci_filename_mode ci) = false ->
   (select_encryption_mode ci inode w).1 = inl (- EINVAL))
  /\ (fscrypt_valid_enc_modes (ci_data_mode ci) (ci_filename_mode ci) = true ->
      (S_ISREG (i_mode inode) = true ->
       (inline_encryption (available_modes (ci_data_mode ci)) = true ->
        s_ice_capable (i_sb inode) = false ->
        (select_encryption_mode ci inode w).1 = inl (- EINVAL))
       /\ (inline_encryption (available_modes (ci_data_mode ci)) = false \/
           s_ice_capable (i_sb inode) = true ->
           select_encryption_mode ci inode w = (inr (ci_data_mode ci), w)))
      /\ (S_ISREG (i_mode inode) = false ->
          S_ISDIR (i_mode inode) = true \/ S_ISLNK (i_mode inode) = true ->
          select_encryption_mode ci inode w = (inr (ci_filename_mode ci), w))
      /\ (S_ISREG (i_mode inode) = false ->
          S_ISDIR (i_mode inode) = false ->
          S_ISLNK (i_mode inode) = false ->
          exists msg,
            select_encryption_mode ci inode w =
              (inl (- EINVAL), add_events [Ev_warn msg] w))).
Proof.
  unfold select_encryption_mode. split.
  - intros ->. reflexivity.
  - intros ->. cbn [negb]. split; [| split].
    + intros ->. split.
      * intros -> ->. reflexivity.
      * intros [-> | ->]; [reflexivity |]. by rewrite andb_false_r.
    + intros -> [-> | ->]; [reflexivity |]. by rewrite orb_true_r.
    + intros -> -> ->. eexists. reflexivity.
Qed.

(** C8.  A policy record whose format is not the supported one, or whose
    flags have a bit outside FS_POLICY_FLAGS_VALID, makes
    [fscrypt_get_encryption_info] return -EINVAL; up to then the code has
    called fscrypt_initialize and read the record, and nothing else: no
    key has been looked up, no crypto info allocated, and no transform of
    the crypto API touched. *)
Theorem invalid_policy_rejected_first a inode w ctx :
  w_i_crypt_info w !! i_ino inode = None ->
  a_fscrypt_initialize a = 0 ->
  read_context inode = inr ctx ->
  format ctx <> FS_ENCRYPTION_CONTEXT_FORMAT_V1 \/
    Z.land (flags ctx) (Z.lnot FS_POLICY_FLAGS_VALID) <> 0 ->
  fscrypt_get_encryption_info a inode w =
    (- EINVAL,
     add_events [Ev_fscrypt_initialize (s_cop_flags (i_sb inode));
                 Ev_get_context (i_ino inode)] w).
Proof.
  intros Hslot Hinit Hctx Hbad.
  unfold fscrypt_get_encryption_info, fscrypt_has_encryption_key. mrun.
  rewrite Hslot, not_is_Some_None, Hinit.
  rewrite (bool_decide_eq_true_2 (0 = 0)) by done. cbn [negb].
  rewrite Hctx.
  destruct (decide (format ctx = FS_ENCRYPTION_CONTEXT_FORMAT_V1)) as [Hf | Hf].
  - rewrite (bool_decide_eq_true_2 _ Hf). cbn [negb].
    destruct Hbad as [Hb | Hb]; [done |].
    rewrite (bool_decide_eq_false_2 _ Hb). cbn [negb].
    f_equal. trace_eq.
  - rewrite (bool_decide_eq_false_2 _ Hf). cbn [negb].
    f_equal. trace_eq.
Qed.

End Validation.

(** A character device with a recognised pair of modes: the caller gets
    the error -EINVAL back, which [fscrypt_get_encryption_info] returns
    in turn after releasing what it had allocated. *)
Lemma select_encryption_mode_other_kind_returns :
  ~ (forall e,
       (select_encryption_mode (H:=linux_headers)
          (Ex.info_of (H:=linux_headers) Ex.policy_xts)
          (Ex.chardev 12 Ex.policy_xts) empty_world).1 <> inl e)
  /\ (fscrypt_get_encryption_info (H:=linux_headers) (H0:=example_crypto)
        (all_succeed Ex.keyring) (Ex.chardev 12 Ex.policy_xts) empty_world).1
     = -22.
Proof.
  split.
  - intros Hfatal. apply (Hfatal (-22)). vm_compute. reflexivity.
  - vm_compute. reflexivity.
Qed.

(** A record of format 2 is rejected before anything is looked up. *)
Lemma invalid_policy_rejected_first_witness :
  fscrypt_get_encryption_info (H:=linux_headers) (H0:=example_crypto)
    (all_succeed Ex.keyring) (Ex.file 13 Ex.policy_v2) empty_world =
  (-22, add_events [Ev_fscrypt_initialize 0; Ev_get_context 13] empty_world).
Proof.
  apply (invalid_policy_rejected_first (H:=linux_headers) (H0:=example_crypto)
           (all_succeed Ex.keyring) (Ex.file 13 Ex.policy_v2) empty_world
           Ex.policy_v2).
  - reflexivity.
  - reflexivity.
  - vm_compute. reflexivity.
  - left. vm_compute. discriminate.
Defined.

(** ** ESSIV *)

Section Essiv.
Context `{KernelHeaders} `{CryptoPrimitives}.

(** The digest never makes the buffer longer. *)
Lemma derive_essiv_salt_length a key keysize salt w :
  length salt = Z.to_nat SHA256_DIGEST_SIZE ->
  (length (derive_essiv_salt a key keysize salt w).1.2
   <= Z.to_nat SHA256_DIGEST_SIZE)%nat.
Proof.
  intros Hlen.
  apply (post_intro (derive_essiv_salt a key keysize salt) w
    (fun r _ => (length r.2 <= Z.to_nat SHA256_DIGEST_SIZE)%nat)).
  unfold derive_essiv_salt, crypto_alloc, crypto_free. mstep.
  repeat (mstep;
          try match goal with
              | |- post (if ?b then _ else _) _ _ => destruct b
              | |- post (match w_essiv_hash_tfm ?w with _ => _ end) _ _ =>
                  destruct (w_essiv_hash_tfm w)
              end).
  all: cbn [snd]; unfold memcpy;
    rewrite ?length_app, ?length_take, ?length_drop; lia.
Qed.

Lemma derive_essiv_salt_ok a key keysize salt w :
  is_Some (w_essiv_hash_tfm w) \/ a_shash_alloc a = 0 ->
  a_shash_digest a = 0 ->
  exists w',
    derive_essiv_salt a key keysize salt w =
      ((0, memcpy salt (sha256 (take (Z.to_nat keysize) key)) SHA256_DIGEST_SIZE),
       w')
    /\ w_ci w' = w_ci w
    /\ forall h, is_Some (w_tfm w !! h) -> w_tfm w' !! h = w_tfm w !! h.
Proof.
  intros Hhash Hdigest. unfold derive_essiv_salt.
  destruct (w_essiv_hash_tfm w) as [t |] eqn:Et.
  - eexists. split; [| split].
    + apply post_result. mstep. rewrite Et. mstep. rewrite Hdigest.
      rewrite bool_decide_eq_true_2 by done. mstep. reflexivity.
    + by autorewrite with world.
    + intros h _. by autorewrite with world.
  - destruct Hhash as [[? ?] | Hhash]; [done |].
    eexists. split; [| split].
    + apply post_result. mstep. rewrite Et. mstep. rewrite Hhash.
      eapply post_eq; [apply crypto_alloc_ok |]. mstep.
      autorewrite with world. rewrite Et. mstep. rewrite Hdigest.
      rewrite bool_decide_eq_true_2 by done. mstep. reflexivity.
    + by autorewrite with world.
    + intros h Hh. autorewrite with world. apply lookup_insert_ne.
      intros <-. apply elem_of_dom in Hh. by apply is_fresh in Hh.
Qed.

Lemma memset_short (b : bytes) n :
  (length b <= Z.to_nat n)%nat -> memset b x00 n = zeros (Z.to_nat n).
Proof.
  intros Hlen. unfold memset, zeros. rewrite drop_ge by lia. by rewrite app_nil_r.
Qed.

(** Once [init_essiv_generator] has its cipher object, the stack buffer
    that holds the salt is all zero when the function returns, whether the
    digest and the setkey succeed or fail.  When they succeed (for a live
    crypto info), the result is 0 and the crypto info has an "aes" cipher
    whose key is the SHA-256 digest of the first [keysize] bytes of the
    raw key, a key of SHA256_DIGEST_SIZE bytes. *)
Lemma init_essiv_generator_effect a ci raw_key keysize w :
  a_cipher_alloc a = 0 ->
  (init_essiv_generator a ci raw_key keysize w).1.2
    = zeros (Z.to_nat SHA256_DIGEST_SIZE)
  /\ (is_Some (w_ci w !! ci) ->
      is_Some (w_essiv_hash_tfm w) \/ a_shash_alloc a = 0 ->
      a_shash_digest a = 0 ->
      a_cipher_setkey a = 0 ->
      (forall text, length (sha256 text) = Z.to_nat SHA256_DIGEST_SIZE) ->
      (init_essiv_generator a ci raw_key keysize w).1.1 = 0
      /\ exists h c,
           w_ci (init_essiv_generator a ci raw_key keysize w).2 !! ci = Some c
           /\ ci_essiv_tfm c = Some h
           /\ w_tfm (init_essiv_generator a ci raw_key keysize w).2 !! h =
                Some {| tfm_alg := "aes";
                        tfm_key := Some (sha256 (take (Z.to_nat keysize) raw_key));
                        tfm_weak_key := false |}
           /\ length (sha256 (take (Z.to_nat keysize) raw_key))
              = Z.to_nat SHA256_DIGEST_SIZE).
Proof.
  intros Halloc. split.
  - apply (post_intro (init_essiv_generator a ci raw_key keysize) w
      (fun r _ => r.2 = zeros (Z.to_nat SHA256_DIGEST_SIZE))).
    unfold init_essiv_generator. mstep.
    rewrite Halloc. eapply post_eq; [apply crypto_alloc_ok |]. mstep.
    apply post_run. cbn zeta.
    match goal with |- context [derive_essiv_salt ?a ?k ?n ?s ?W] =>
      pose proof (derive_essiv_salt_length a k n s W
                    (length_uninitialized _ _)) as Hlen;
      set (r := derive_essiv_salt a k n s W) in *
    end.
    destruct (negb (bool_decide (r.1.1 = 0))); mstep; cbn [snd].
    + by apply memset_short.
    + apply post_run. mstep. cbn [snd]. by apply memset_short.
  - intros [c0 Hc0] Hhash Hdigest Hsetkey Hsha.
    set (h := fresh (dom (w_tfm w))).
    set (W1 := set_ci (alter (with_ci_essiv_tfm (Some h)) ci)
                 (add_events [Ev_crypto_alloc "aes" h]
                    (set_tfm (insert h (new_tfm "aes")) w))).
    destruct (derive_essiv_salt_ok a raw_key keysize
                (uninitialized (a_stack_garbage a) SHA256_DIGEST_SIZE) W1)
      as (W2 & Hsalt & Hci & Htfm); [by unfold W1; autorewrite with world | done |].
    rewrite memcpy_exact in Hsalt by (by rewrite ?length_uninitialized, ?Hsha).
    assert (Hrun : init_essiv_generator a ci raw_key keysize w =
      ((0, memset (sha256 (take (Z.to_nat keysize) raw_key)) x00 SHA256_DIGEST_SIZE),
       set_tfm (alter (fun t =>
          {| tfm_alg := tfm_alg t;
             tfm_key := Some (sha256 (take (Z.to_nat keysize) raw_key));
             tfm_weak_key := tfm_weak_key t |}) h)
          (add_events [Ev_crypto_setkey h (sha256 (take (Z.to_nat keysize) raw_key))] W2))).
    { apply post_result. unfold init_essiv_generator. mstep. rewrite Halloc.
      eapply post_eq; [apply crypto_alloc_ok |]. mstep.
      eapply post_eq; [apply Hsalt |]. mstep. cbn [fst snd].
      rewrite bool_decide_eq_true_2 by done. cbn [negb]. mstep.
      rewrite Hsetkey. eapply post_eq; [apply crypto_setkey_ok |]. mstep.
      rewrite (take_ge (sha256 _)) by (rewrite Hsha; lia). reflexivity. }
    rewrite Hrun. cbn [fst snd]. split; [done |].
    exists h, (with_ci_essiv_tfm (Some h) c0).
    autorewrite with world. rewrite Hci. unfold W1. autorewrite with world.
    rewrite !lookup_alter_eq, Hc0. split; [done |]. split; [done |].
    split; [| apply Hsha].
    rewrite Htfm.
    + unfold W1. autorewrite with world. by rewrite lookup_insert_eq.
    + unfold W1. autorewrite with world. rewrite lookup_insert_eq. by eexists.
Qed.
End Essiv.

(** With a 16-byte key (AES-128-CBC), the salt buffer is cleared. *)
Example init_essiv_generator_clears_salt :
  (init_essiv_generator (H:=linux_headers) (H0:=example_crypto)
     (all_succeed Ex.keyring) 1 (replicate 16 x33) 16
     (set_ci (insert 1%positive (zero_crypt_info (H:=linux_headers)))
        empty_world)).1.2 = zeros 32.
Proof.
  apply (init_essiv_generator_effect (H:=linux_headers) (H0:=example_crypto)
           (all_succeed Ex.keyring) 1 (replicate 16 x33) 16).
  reflexivity.
Qed.

(** ** The table of master keys *)

Section MasterKeys.
Context `{KernelHeaders} `{CryptoPrimitives}.

Lemma search_chain_Some heap d r m l p :
  search_chain heap d r m l = Some p ->
  p ∈ l /\ exists o, heap !! p = Some o /\ mk_matches d r m o.
Proof.
  induction l as [| q l IH]; [done |]. cbn [search_chain].
  destruct (heap !! q) as [o |] eqn:Eq.
  - unfold memcmp_ne, crypto_memneq.
    destruct (bool_decide (take _ d = take _ (mk_descriptor o))) eqn:E1; cbn [negb];
      [| intros Hs; destruct (IH Hs) as [? ?]; split; [by right | done]].
    destruct (bool_decide (Some m = mk_mode o)) eqn:E2; cbn [negb];
      [| intros Hs; destruct (IH Hs) as [? ?]; split; [by right | done]].
    destruct (bool_decide (take _ r = take _ (mk_raw o))) eqn:E3; cbn [negb];
      [| intros Hs; destruct (IH Hs) as [? ?]; split; [by right | done]].
    intros [= <-]. split; [by left |]. exists o. split; [done |].
    apply bool_decide_eq_true in E1, E2, E3. done.
  - intros Hs. destruct (IH Hs) as [? ?]. split; [by right | done].
Qed.

Lemma search_chain_None heap d r m l :
  search_chain heap d r m l = None ->
  forall p o, p ∈ l -> heap !! p = Some o -> ~ mk_matches d r m o.
Proof.
  induction l as [| q l IH]; [intros _ p o Hp; by apply elem_of_nil in Hp |].
  cbn [search_chain]. intros Hs p o Hp Ho (M1 & M2 & M3).
  apply elem_of_cons in Hp as [-> | Hp].
  - rewrite Ho in Hs. unfold memcmp_ne, crypto_memneq in Hs.
    rewrite (bool_decide_eq_true_2 _ M1) in Hs. cbn [negb] in Hs.
    rewrite (bool_decide_eq_true_2 (Some m = mk_mode o)) in Hs by done.
    cbn [negb] in Hs.
    rewrite (bool_decide_eq_true_2 _ M3) in Hs. done.
  - apply (IH (ltac:(
      destruct (heap !! q) as [oq |]; [| exact Hs];
      repeat match type of Hs with
             | (if ?c then _ else _) = None => destruct c; [exact Hs |]
             end; done)) p o Hp Ho).
    done.
Qed.

Lemma search_chain_ext heap1 heap2 d r m l :
  (forall p, p ∈ l -> heap1 !! p = heap2 !! p) ->
  search_chain heap1 d r m l = search_chain heap2 d r m l.
Proof.
  induction l as [| q l IH]; [done |]. intros Hext. cbn [search_chain].
  rewrite <- (Hext q) by by left.
  rewrite IH by (intros p Hp; apply Hext; by right). done.
Qed.
Lemma free_master_key_eq c w :
  exists evs,
    free_master_key c w =
      (tt, add_events evs
             (set_mk (mk_freed c)
                (set_tfm (tfm_freed (handle_of (w_mk w) c)) w))).
Proof.
  destruct c as [c |].
  - destruct (w_mk w !! c) as [o |] eqn:Ec.
    + eexists. rewrite (free_master_key_live _ _ _ Ec). cbn [handle_of].
      rewrite Ec. reflexivity.
    + exists []. unfold free_master_key. mrun. rewrite Ec.
      rewrite add_events_nil. f_equal.
      apply world_eq; autorewrite with world; try reflexivity.
      * cbn. symmetry. by apply delete_id.
      * cbn. by rewrite Ec.
  - exists []. rewrite add_events_nil. cbn. f_equal.
    apply world_eq; by autorewrite with world.
Qed.

Lemma find_or_insert_master_key_found to_insert raw_key mode ci w p :
  search_chain (w_mk w) (ci_master_key_descriptor ci) raw_key mode
    (chain w (bucket_of (ci_master_key_descriptor ci))) = Some p ->
  exists evs,
    find_or_insert_master_key to_insert raw_key mode ci w =
      (Some p,
       add_events evs
         (set_mk (mk_freed to_insert)
            (set_tfm (tfm_freed
                        (handle_of
                           (alter (fun mk => with_refcount (mk_refcount mk + 1) mk)
                              p (w_mk w)) to_insert))
               (set_mk (alter (fun mk => with_refcount (mk_refcount mk + 1) mk) p)
                  w)))).
Proof.
  intros Hs. unfold chain, bucket_of in Hs.
  destruct (free_master_key_eq to_insert
    (add_events [Ev_spin_unlock]
       (set_mk (alter (fun mk => with_refcount (mk_refcount mk + 1) mk) p)
          (add_events [Ev_spin_lock] w)))) as [evs Hfree].
  eexists. apply post_result. unfold find_or_insert_master_key, refcount_inc.
  mstep. autorewrite with world. rewrite Hs. mstep.
  eapply post_eq; [apply Hfree |]. mstep.
  autorewrite with world events. reflexivity.
Qed.

Lemma find_or_insert_master_key_not_found to_insert raw_key mode ci w :
  search_chain (w_mk w) (ci_master_key_descriptor ci) raw_key mode
    (chain w (bucket_of (ci_master_key_descriptor ci))) = None ->
  exists evs,
    find_or_insert_master_key to_insert raw_key mode ci w =
      (to_insert,
       add_events evs
         (set_table (fun t =>
            match to_insert with
            | Some c =>
                <[bucket_of (ci_master_key_descriptor ci) :=
                    c :: default [] (t !! bucket_of (ci_master_key_descriptor ci))]> t
            | None => t
            end) w)).
Proof.
  intros Hs. unfold chain, bucket_of in Hs.
  destruct to_insert as [c |]; eexists; apply post_result;
    unfold find_or_insert_master_key, hash_add;
    mstep; autorewrite with world; rewrite Hs; mstep.
  - autorewrite with events. reflexivity.
  - autorewrite with events. f_equal.
    f_equal. apply world_eq; by autorewrite with world.
Qed.
Lemma bucket_of_take d1 d2 :
  sizeof_unsigned_long <= FS_KEY_DESCRIPTOR_SIZE ->
  take (Z.to_nat FS_KEY_DESCRIPTOR_SIZE) d1 =
    take (Z.to_nat FS_KEY_DESCRIPTOR_SIZE) d2 ->
  bucket_of d1 = bucket_of d2.
Proof.
  intros Hul Heq. unfold bucket_of, hash_key_of. do 2 f_equal.
  assert (Htake : forall d : bytes,
    take (Z.to_nat sizeof_unsigned_long) d =
    take (Z.to_nat sizeof_unsigned_long)
      (take (Z.to_nat FS_KEY_DESCRIPTOR_SIZE) d)).
  { intros d. rewrite take_take. f_equal. lia. }
  by rewrite (Htake d1), (Htake d2), Heq.
Qed.

Lemma table_wf_search w d r m p o :
  table_wf w ->
  sizeof_unsigned_long <= FS_KEY_DESCRIPTOR_SIZE ->
  in_table w p -> w_mk w !! p = Some o -> mk_matches d r m o ->
  search_chain (w_mk w) d r m (chain w (bucket_of d)) = Some p.
Proof.
  intros Hwf Hul [b Hb] Ho Hm.
  destruct (wf_live _ Hwf b p Hb) as (o' & Ho' & ->).
  rewrite Ho in Ho'. injection Ho' as <-.
  rewrite <- (bucket_of_take d (mk_descriptor o) Hul (proj1 Hm)) in Hb.
  destruct (search_chain (w_mk w) d r m (chain w (bucket_of d))) as [q |] eqn:Es.
  - apply search_chain_Some in Es as (Hq & oq & Hoq & Hmq).
    f_equal. apply (wf_unique _ Hwf d r m q p oq o); try done; by eexists.
  - exfalso. by apply (search_chain_None _ _ _ _ _ Es p o).
Qed.

Lemma table_wf_no_match w d r m :
  table_wf w ->
  (forall p o, in_table w p -> w_mk w !! p = Some o -> ~ mk_matches d r m o) ->
  search_chain (w_mk w) d r m (chain w (bucket_of d)) = None.
Proof.
  intros Hwf Hno.
  destruct (search_chain (w_mk w) d r m (chain w (bucket_of d))) as [q |] eqn:Es;
    [| done].
  apply search_chain_Some in Es as (Hq & oq & Hoq & Hmq).
  exfalso. apply (Hno q oq); try done. by eexists.
Qed.

Lemma find_or_insert_master_key_wf to_insert raw_key mode ci w :
  table_wf w ->
  sizeof_unsigned_long <= FS_KEY_DESCRIPTOR_SIZE ->
  (forall c, to_insert = Some c -> ~ in_table w c) ->
  let r := find_or_insert_master_key to_insert raw_key mode ci w in
  (forall p o,
     in_table w p -> w_mk w !! p = Some o ->
     mk_matches (ci_master_key_descriptor ci) raw_key mode o ->
     r.1 = Some p
     /\ w_mk r.2 !! p = Some (with_refcount (mk_refcount o + 1) o)
     /\ w_table r.2 = w_table w
     /\ forall c, to_insert = Some c ->
          w_mk r.2 !! c = None
          /\ forall oc h, w_mk w !! c = Some oc -> mk_ctfm oc = Some h ->
               w_tfm r.2 !! h = None)
  /\ ((forall p o,
         in_table w p -> w_mk w !! p = Some o ->
         ~ mk_matches (ci_master_key_descriptor ci) raw_key mode o) ->
      r.1 = to_insert
      /\ w_mk r.2 = w_mk w
      /\ match to_insert with
         | Some c => in_table r.2 c
         | None => w_table r.2 = w_table w
         end).
Proof.
  intros Hwf Hul Hcand r. split.
  - intros p o Hin Ho Hm.
    pose proof (table_wf_search _ _ _ _ _ _ Hwf Hul Hin Ho Hm) as Hs.
    destruct (find_or_insert_master_key_found to_insert raw_key mode ci w p Hs)
      as [evs Hrun].
    subst r. rewrite Hrun. cbn [fst snd]. autorewrite with world.
    split; [done |].
    assert (Hne : forall c, to_insert = Some c -> c <> p).
    { intros c Hc ->. by apply (Hcand p). }
    split; [| split; [done |]].
    + destruct to_insert as [c |]; cbn [mk_freed].
      * rewrite lookup_delete_ne by (by apply Hne).
        by rewrite lookup_alter_eq, Ho.
      * by rewrite lookup_alter_eq, Ho.
    + intros c ->. cbn [mk_freed handle_of]. split; [apply lookup_delete_eq |].
      intros oc h Hoc Hh.
      rewrite lookup_alter_ne by (intros Heq; by apply (Hne c eq_refl)).
      rewrite Hoc, Hh. cbn [tfm_freed]. apply lookup_delete_eq.
  - intros Hno.
    pose proof (table_wf_no_match _ _ _ _ Hwf Hno) as Hs.
    destruct (find_or_insert_master_key_not_found to_insert raw_key mode ci w Hs)
      as [evs Hrun].
    subst r. rewrite Hrun. cbn [fst snd]. autorewrite with world.
    split; [done |]. split; [done |].
    destruct to_insert as [c |]; [| done].
    exists (bucket_of (ci_master_key_descriptor ci)). unfold chain.
    autorewrite with world. rewrite lookup_insert_eq. cbn. by left.
Qed.
Lemma allocate_skcipher_for_mode_ok a mode raw_key inode w :
  a_skcipher_alloc a = 0 -> a_skcipher_setkey a = 0 ->
  exists w',
    allocate_skcipher_for_mode a mode raw_key inode w =
      (inr (fresh (dom (w_tfm w))), w')
    /\ w_table w' = w_table w /\ w_mk w' = w_mk w /\ w_ci w' = w_ci w
    /\ w_i_crypt_info w' = w_i_crypt_info w
    /\ w_essiv_hash_tfm w' = w_essiv_hash_tfm w
    /\ w_tfm w' =
         <[fresh (dom (w_tfm w)) :=
             {| tfm_alg := cipher_str (available_modes mode);
                tfm_key := Some (take (Z.to_nat (keysize (available_modes mode)))
                                   raw_key);
                tfm_weak_key := true |}]> (w_tfm w).
Proof.
  intros Halloc Hsetkey.
  destruct (bool_decide (mode ∈ w_logged_impl_name w)) eqn:Elog.
  all: eexists; split;
    [ apply post_result; unfold allocate_skcipher_for_mode; mstep;
      rewrite Halloc; (eapply post_eq; [apply crypto_alloc_ok |]); mstep;
      autorewrite with world; rewrite Elog; cbn [negb]; mstep;
      unfold crypto_set_weak_key; mstep; rewrite Hsetkey;
      (eapply post_eq; [apply crypto_setkey_ok |]); mstep;
      rewrite bool_decide_eq_true_2 by done; cbn [negb]; mstep; reflexivity
    | autorewrite with world; repeat split; try reflexivity;
      rewrite !alter_insert_eq; reflexivity ].
Qed.

(** Updates of the stores that keep the table well formed: the entries
    of the table keep their descriptor, mode, raw key and handle, and
    live transforms stay live. *)
Lemma table_wf_same_keys w w' :
  w_table w' = w_table w ->
  (forall p o, in_table w p -> w_mk w !! p = Some o ->
     exists o', w_mk w' !! p = Some o'
       /\ mk_descriptor o' = mk_descriptor o /\ mk_mode o' = mk_mode o
       /\ mk_raw o' = mk_raw o /\ mk_ctfm o' = mk_ctfm o) ->
  (forall h, is_Some (w_tfm w !! h) -> is_Some (w_tfm w' !! h)) ->
  table_wf w -> table_wf w'.
Proof.
  intros Ht Hkeep Htfm Hwf.
  assert (Hin : forall p, in_table w' p <-> in_table w p).
  { intros p. unfold in_table, chain. by rewrite Ht. }
  assert (Hback : forall p o', in_table w' p -> w_mk w' !! p = Some o' ->
            exists o, w_mk w !! p = Some o
              /\ mk_descriptor o' = mk_descriptor o /\ mk_mode o' = mk_mode o
              /\ mk_raw o' = mk_raw o /\ mk_ctfm o' = mk_ctfm o).
  { intros p o' Hp Ho'. apply Hin in Hp. pose proof Hp as [b Hb].
    destruct (wf_live _ Hwf b p Hb) as (o & Ho & _).
    destruct (Hkeep p o Hp Ho) as (o2 & Ho2 & ?).
    rewrite Ho' in Ho2. injection Ho2 as <-. by exists o. }
  split.
  - intros b p Hp. unfold chain in Hp. rewrite Ht in Hp.
    destruct (wf_live _ Hwf b p Hp) as (o & Ho & Hb).
    assert (Hpin : in_table w p) by (by exists b).
    destruct (Hkeep p o Hpin Ho) as (o' & Ho' & Hd & _).
    exists o'. by rewrite Hd.
  - intros d r m p q op' oq' Hp Hq Hop' Hoq' Mp Mq.
    destruct (Hback p op' Hp Hop') as (op & Hop & Hd1 & Hm1 & Hr1 & _).
    destruct (Hback q oq' Hq Hoq') as (oq & Hoq & Hd2 & Hm2 & Hr2 & _).
    apply Hin in Hp, Hq.
    apply (wf_unique _ Hwf d r m p q op oq); try done.
    + unfold mk_matches in *. by rewrite <- Hd1, <- Hm1, <- Hr1.
    + unfold mk_matches in *. by rewrite <- Hd2, <- Hm2, <- Hr2.
  - intros p o' Hp Ho'.
    destruct (Hback p o' Hp Ho') as (o & Ho & _ & _ & _ & Hc).
    apply Hin in Hp.
    destruct (wf_handle _ Hwf p o Hp Ho) as (h & Hh & Hlive).
    exists h. split; [by rewrite Hc | by apply Htfm].
  - intros p q op' oq' Hp Hq Hop' Hoq' Heq.
    destruct (Hback p op' Hp Hop') as (op & Hop & _ & _ & _ & Hc1).
    destruct (Hback q oq' Hq Hoq') as (oq & Hoq & _ & _ & _ & Hc2).
    apply Hin in Hp, Hq.
    apply (wf_handle_inj _ Hwf p q op oq); try done. by rewrite <- Hc1, <- Hc2.
Qed.

Lemma mk_matches_new descriptor raw_key mode n ctfm :
  (Z.to_nat (keysize (available_modes mode)) <= length raw_key)%nat ->
  mk_matches descriptor raw_key mode
    {| mk_refcount := n; mk_mode := Some mode; mk_ctfm := ctfm;
       mk_descriptor := memcpy (mk_descriptor zero_master_key) descriptor
                          FS_KEY_DESCRIPTOR_SIZE;
       mk_raw := memcpy (mk_raw zero_master_key) raw_key
                   (keysize (available_modes mode)) |}.
Proof.
  intros Hlen. unfold mk_matches, memcpy. cbn [mk_descriptor mk_mode mk_raw zero_master_key].
  split; [| split; [done |]].
  - unfold zeros. rewrite drop_replicate, Nat.sub_diag. cbn [replicate].
    rewrite app_nil_r. rewrite take_take. f_equal. lia.
  - rewrite take_app_le by (rewrite length_take; lia).
    rewrite take_take. f_equal. lia.
Qed.

Lemma fscrypt_get_master_key_ok a ci mode raw_key inode w :
  table_wf w ->
  sizeof_unsigned_long <= FS_KEY_DESCRIPTOR_SIZE ->
  a_kzalloc a = true -> a_skcipher_alloc a = 0 -> a_skcipher_setkey a = 0 ->
  (Z.to_nat (keysize (available_modes mode)) <= length raw_key)%nat ->
  exists p o w',
    fscrypt_get_master_key a ci mode raw_key inode w = (inr (Some p), w')
    /\ in_table w' p /\ w_mk w' !! p = Some o
    /\ mk_matches (ci_master_key_descriptor ci) raw_key mode o
    /\ table_wf w'
    /\ keeps_entries w w'
    /\ (forall q oq, in_table w q -> w_mk w !! q = Some oq ->
          mk_matches (ci_master_key_descriptor ci) raw_key mode oq -> p = q).
Proof.
  intros Hwf Hul Hkz Halloc Hsetkey Hlen.
  set (d := ci_master_key_descriptor ci).
  destruct (search_chain (w_mk w) d raw_key mode (chain w (bucket_of d)))
    as [p0 |] eqn:Es.
  - destruct (find_or_insert_master_key_found None raw_key mode ci w p0 Es)
      as [evs Hrun].
    apply search_chain_Some in Es as (Hp0 & o0 & Ho0 & Hm0).
    assert (Hin0 : in_table w p0) by (by eexists).
    eexists p0, (with_refcount (mk_refcount o0 + 1) o0), _.
    split; [| split; [| split; [| split; [| split; [| split]]]]].
    + unfold fscrypt_get_master_key. rewrite bind_eq, Hrun. cbn [fst snd].
      reflexivity.
    + unfold in_table, chain. by autorewrite with world.
    + autorewrite with world. cbn [mk_freed]. by rewrite lookup_alter_eq, Ho0.
    + done.
    + eapply table_wf_same_keys; [| | | exact Hwf].
      * by autorewrite with world.
      * intros q oq Hq Hoq. autorewrite with world. cbn [mk_freed].
        destruct (decide (q = p0)) as [-> | Hne].
        -- rewrite lookup_alter_eq, Hoq. by eexists.
        -- rewrite lookup_alter_ne by done. by eexists.
      * intros h0 Hh0. by autorewrite with world.
    + intros q oq Hq Hoq. split.
      * unfold in_table, chain. by autorewrite with world.
      * autorewrite with world. cbn [mk_freed].
        destruct (decide (q = p0)) as [-> | Hne].
        -- rewrite lookup_alter_eq, Hoq. by eexists.
        -- rewrite lookup_alter_ne by done. by eexists.
    + intros q oq Hq Hoq Hmq.
      by apply (wf_unique _ Hwf d raw_key mode p0 q o0 oq).
  - destruct (find_or_insert_master_key_not_found None raw_key mode ci w Es)
      as [evs0 Hrun0].
    set (c := fresh (dom (w_mk w))).
    assert (Hc : w_mk w !! c = None) by (apply not_elem_of_dom, is_fresh).
    assert (Hcout : ~ in_table w c).
    { intros [b Hb]. destruct (wf_live _ Hwf b c Hb) as (o & Ho & _). congruence. }
    set (W1 := set_mk (alter (with_mk_mode (Some mode)) c)
                 (set_mk (alter (with_refcount 1) c)
                    (add_events [Ev_kzalloc c]
                       (set_mk (insert c zero_master_key)
                          (add_events evs0 (set_table (fun t => t) w)))))).
    destruct (allocate_skcipher_for_mode_ok a mode raw_key inode W1 Halloc Hsetkey)
      as (W2 & Hrun2 & Ht2 & Hmk2 & _ & _ & _ & Htfm2).
    set (h := fresh (dom (w_tfm W1))) in *.
    set (W3 := set_mk (alter (fun o => with_mk_raw
                   (memcpy (mk_raw o) raw_key (keysize (available_modes mode))) o) c)
                 (set_mk (alter (fun o => with_mk_descriptor
                     (memcpy (mk_descriptor o) d FS_KEY_DESCRIPTOR_SIZE) o) c)
                    (set_mk (alter (with_mk_ctfm (Some h)) c) W2))).
    set (oc := {| mk_refcount := 1; mk_mode := Some mode; mk_ctfm := Some h;
                  mk_descriptor := memcpy (mk_descriptor zero_master_key) d
                                     FS_KEY_DESCRIPTOR_SIZE;
                  mk_raw := memcpy (mk_raw zero_master_key) raw_key
                              (keysize (available_modes mode)) |}).
    assert (Hmk3 : w_mk W3 = <[c := oc]> (w_mk w)).
    { unfold W3. autorewrite with world. rewrite Hmk2. unfold W1.
      autorewrite with world. rewrite !alter_insert_eq. reflexivity. }
    assert (Ht3 : w_table W3 = w_table w).
    { unfold W3. autorewrite with world. rewrite Ht2. unfold W1.
      by autorewrite with world. }
    assert (Hold : forall q, in_table w q -> w_mk W3 !! q = w_mk w !! q).
    { intros q Hq. rewrite Hmk3. apply lookup_insert_ne. intros <-. done. }
    assert (Es3 : search_chain (w_mk W3) (ci_master_key_descriptor ci) raw_key mode
                    (chain W3 (bucket_of (ci_master_key_descriptor ci))) = None).
    { fold d. unfold chain. rewrite Ht3. fold (chain w (bucket_of d)).
      rewrite <- Es. apply search_chain_ext. intros q Hq. apply Hold.
      by eexists. }
    destruct (find_or_insert_master_key_not_found (Some c) raw_key mode ci W3 Es3)
      as [evs3 Hrun3].
    fold d in Hrun3.
    assert (Hnomatch : forall q oq, in_table w q -> w_mk w !! q = Some oq ->
              ~ mk_matches d raw_key mode oq).
    { intros q oq [b Hb] Hoq Hmq.
      destruct (wf_live _ Hwf b q Hb) as (oq' & Hoq' & ->).
      rewrite Hoq in Hoq'. injection Hoq' as <-.
      rewrite <- (bucket_of_take d (mk_descriptor oq) Hul (proj1 Hmq)) in Hb.
      by apply (search_chain_None _ _ _ _ _ Es q oq). }
    assert (Hmc : mk_matches d raw_key mode oc) by (by apply mk_matches_new).
    set (W4 := add_events evs3
                 (set_table (fun t => <[bucket_of d :=
                     c :: default [] (t !! bucket_of d)]> t) W3)) in *.
    assert (Hmk4 : w_mk W4 = <[c := oc]> (w_mk w)).
    { unfold W4. autorewrite with world. exact Hmk3. }
    assert (Hchain : forall b p, p ∈ chain W4 b <->
              (b = bucket_of d /\ p = c) \/ p ∈ chain w b).
    { intros b p. unfold W4, chain. autorewrite with world. rewrite Ht3.
      destruct (decide (b = bucket_of d)) as [-> | Hb].
      - rewrite lookup_insert_eq. cbn [default from_option id].
        rewrite elem_of_cons. split.
        + intros [-> | Hp]; [by left | by right].
        + intros [[_ ->] | Hp]; [by left | by right].
      - rewrite lookup_insert_ne by done. split.
        + intros Hp. by right.
        + intros [[Hb' _] | Hp]; [by destruct Hb | done]. }
    assert (Hin4 : forall p, in_table W4 p <-> p = c \/ in_table w p).
    { intros p. split.
      - intros [b Hb]. apply Hchain in Hb as [[_ ->] | Hb]; [by left |].
        right. by exists b.
      - intros [-> | [b Hb]].
        + exists (bucket_of d). apply Hchain. by left.
        + exists b. apply Hchain. by right. }
    assert (Hold4 : forall q, in_table w q -> w_mk W4 !! q = w_mk w !! q).
    { intros q Hq. rewrite Hmk4. apply lookup_insert_ne. by intros <-. }
    assert (Hh : w_tfm w !! h = None).
    { unfold h, W1. autorewrite with world. apply not_elem_of_dom, is_fresh. }
    assert (Htfm4 : forall h0, is_Some (w_tfm w !! h0) ->
              h0 <> h /\ is_Some (w_tfm W4 !! h0)).
    { intros h0 Hh0.
      assert (h0 <> h) by (intros ->; rewrite Hh in Hh0; by destruct Hh0).
      split; [done |]. unfold W4, W3. autorewrite with world. rewrite Htfm2.
      fold h. rewrite lookup_insert_ne by done. unfold W1.
      by autorewrite with world. }
    assert (Hh4 : is_Some (w_tfm W4 !! h)).
    { unfold W4, W3. autorewrite with world. rewrite Htfm2. fold h.
      rewrite lookup_insert_eq. by eexists. }
    exists c, oc, W4.
    split; [| split; [| split; [| split; [| split; [| split]]]]].
    + apply post_result. unfold fscrypt_get_master_key. mstep.
      eapply post_eq; [apply Hrun0 |]. mstep. rewrite Hkz. cbn [negb]. mstep.
      autorewrite with world. fold c.
      eapply post_eq; [apply Hrun2 |]. mstep.
      eapply post_eq; [apply Hrun3 |]. mstep. reflexivity.
    + apply Hin4. by left.
    + rewrite Hmk4. apply lookup_insert_eq.
    + done.
    + split.
      * intros b p Hp. apply Hchain in Hp as [[-> ->] | Hp].
        -- exists oc. split; [rewrite Hmk4; apply lookup_insert_eq |].
           apply (bucket_of_take _ _ Hul), (proj1 Hmc).
        -- destruct (wf_live _ Hwf b p Hp) as (o & Ho & Hb).
           exists o. split; [| done]. rewrite Hold4; [done | by exists b].
      * intros d' r' m' p q op oq Hp Hq Hop Hoq Mp Mq.
        assert (Hclash : forall q oq, in_table w q -> w_mk w !! q = Some oq ->
                  mk_matches d' r' m' oc -> mk_matches d' r' m' oq -> False).
        { intros q0 oq0 Hq0 Hoq0 (C1 & C2 & C3) (Q1 & Q2 & Q3).
          apply (Hnomatch q0 oq0 Hq0 Hoq0).
          destruct Hmc as (N1 & N2 & N3).
          cbn [mk_mode oc] in C2. injection C2 as <-.
          split; [| split]; [by rewrite N1, <- C1 | done | by rewrite N3, <- C3]. }
        apply Hin4 in Hp as [-> | Hp]; apply Hin4 in Hq as [-> | Hq].
        -- done.
        -- exfalso. rewrite Hmk4, lookup_insert_eq in Hop. injection Hop as <-.
           rewrite (Hold4 q Hq) in Hoq. by apply (Hclash q oq).
        -- exfalso. rewrite Hmk4, lookup_insert_eq in Hoq. injection Hoq as <-.
           rewrite (Hold4 p Hp) in Hop. by apply (Hclash p op).
        -- rewrite (Hold4 p Hp) in Hop. rewrite (Hold4 q Hq) in Hoq.
           by apply (wf_unique _ Hwf d' r' m' p q op oq).
      * intros p o Hp Ho. apply Hin4 in Hp as [-> | Hp].
        -- rewrite Hmk4, lookup_insert_eq in Ho. injection Ho as <-.
           by exists h.
        -- rewrite (Hold4 p Hp) in Ho.
           destruct (wf_handle _ Hwf p o Hp Ho) as (h0 & Hh0 & Hlive).
           exists h0. split; [done |]. by apply Htfm4.
      * intros p q op oq Hp Hq Hop Hoq Heq.
        assert (Hfresh : forall q oq, in_table w q -> w_mk w !! q = Some oq ->
                  mk_ctfm oq <> Some h).
        { intros q0 oq0 Hq0 Hoq0 Hc0.
          destruct (wf_handle _ Hwf q0 oq0 Hq0 Hoq0) as (h0 & Hh0 & Hlive).
          rewrite Hc0 in Hh0. injection Hh0 as <-.
          rewrite Hh in Hlive. by destruct Hlive. }
        apply Hin4 in Hp as [-> | Hp]; apply Hin4 in Hq as [-> | Hq].
        -- done.
        -- exfalso. rewrite Hmk4, lookup_insert_eq in Hop. injection Hop as <-.
           rewrite (Hold4 q Hq) in Hoq. by apply (Hfresh q oq).
        -- exfalso. rewrite Hmk4, lookup_insert_eq in Hoq. injection Hoq as <-.
           rewrite (Hold4 p Hp) in Hop. by apply (Hfresh p op).
        -- rewrite (Hold4 p Hp) in Hop. rewrite (Hold4 q Hq) in Hoq.
           by apply (wf_handle_inj _ Hwf p q op oq).
    + intros q oq Hq Hoq. split; [apply Hin4; by right |].
      exists oq. by rewrite (Hold4 q Hq).
    + intros q oq Hq Hoq Hmq. exfalso. by apply (Hnomatch q oq).
Qed.

Lemma table_wf_empty : table_wf empty_world.
Proof.
  split.
  - intros b p Hp. by apply elem_of_nil in Hp.
  - intros d r m p q op oq [b Hp]. by apply elem_of_nil in Hp.
  - intros p o [b Hp]. by apply elem_of_nil in Hp.
  - intros p q op oq [b Hp]. by apply elem_of_nil in Hp.
Qed.

(** C1.  With the table well formed (and the hash key no longer than
    the descriptor, which the build checks):

    - [find_or_insert_master_key], when the table holds an entry with the
      descriptor, the mode and the raw key (over the key size of the
      mode) of the caller, returns that entry with its reference count
      incremented, leaves the table as it is and frees the candidate, its
      cipher handle included; when no entry of the table has all three,
      it returns the candidate, which is then in the table, and no
      existing entry is touched;
    - two calls of [fscrypt_get_master_key] whose allocations succeed
      return the same entry, and so the same cipher handle, if and only
      if the two callers have the same descriptor, mode and raw key. *)
Theorem master_key_cache_spec :
  sizeof_unsigned_long <= FS_KEY_DESCRIPTOR_SIZE ->
  (forall to_insert raw_key mode ci w,
     table_wf w ->
     (forall c, to_insert = Some c -> ~ in_table w c) ->
     let r := find_or_insert_master_key to_insert raw_key mode ci w in
     (forall p o,
        in_table w p -> w_mk w !! p = Some o ->
        mk_matches (ci_master_key_descriptor ci) raw_key mode o ->
        r.1 = Some p
        /\ w_mk r.2 !! p = Some (with_refcount (mk_refcount o + 1) o)
        /\ w_table r.2 = w_table w
        /\ forall c, to_insert = Some c ->
             w_mk r.2 !! c = None
             /\ forall oc h, w_mk w !! c = Some oc -> mk_ctfm oc = Some h ->
                  w_tfm r.2 !! h = None)
     /\ ((forall p o,
            in_table w p -> w_mk w !! p = Some o ->
            ~ mk_matches (ci_master_key_descriptor ci) raw_key mode o) ->
         r.1 = to_insert
         /\ w_mk r.2 = w_mk w
         /\ match to_insert with
            | Some c => in_table r.2 c
            | None => w_table r.2 = w_table w
            end))
  /\ (forall a1 a2 ci1 ci2 mode1 mode2 raw1 raw2 inode1 inode2 w,
        table_wf w ->
        master_key_allocations_succeed a1 ->
        master_key_allocations_succeed a2 ->
        (Z.to_nat (keysize (available_modes mode1)) <= length raw1)%nat ->
        (Z.to_nat (keysize (available_modes mode2)) <= length raw2)%nat ->
        exists p1 p2 o1 o2 w1 w2,
          fscrypt_get_master_key a1 ci1 mode1 raw1 inode1 w = (inr (Some p1), w1)
          /\ fscrypt_get_master_key a2 ci2 mode2 raw2 inode2 w1
             = (inr (Some p2), w2)
          /\ w_mk w2 !! p1 = Some o1 /\ w_mk w2 !! p2 = Some o2
          /\ is_Some (mk_ctfm o1) /\ is_Some (mk_ctfm o2)
          /\ (p1 = p2 <->
              same_triple (ci_master_key_descriptor ci1) raw1 mode1
                (ci_master_key_descriptor ci2) raw2 mode2)
          /\ (mk_ctfm o1 = mk_ctfm o2 <->
              same_triple (ci_master_key_descriptor ci1) raw1 mode1
                (ci_master_key_descriptor ci2) raw2 mode2)).
Proof.
  intros Hul. split.
  - intros to_insert raw_key mode ci w Hwf Hcand.
    by apply find_or_insert_master_key_wf.
  - intros a1 a2 ci1 ci2 mode1 mode2 raw1 raw2 inode1 inode2 w Hwf
      (Hz1 & Ha1 & Hs1) (Hz2 & Ha2 & Hs2) Hlen1 Hlen2.
    destruct (fscrypt_get_master_key_ok a1 ci1 mode1 raw1 inode1 w
                Hwf Hul Hz1 Ha1 Hs1 Hlen1)
      as (p1 & o1' & w1 & Hrun1 & Hin1 & Ho1' & Hm1 & Hwf1 & _ & _).
    destruct (fscrypt_get_master_key_ok a2 ci2 mode2 raw2 inode2 w1
                Hwf1 Hul Hz2 Ha2 Hs2 Hlen2)
      as (p2 & o2 & w2 & Hrun2 & Hin2 & Ho2 & Hm2 & Hwf2 & Hkeep & Huniq).
    destruct (Hkeep p1 o1' Hin1 Ho1')
      as (Hin12 & o1 & Ho1 & Hd1 & Hmo1 & Hr1 & Hc1).
    assert (Hm1' : mk_matches (ci_master_key_descriptor ci1) raw1 mode1 o1).
    { unfold mk_matches in *. by rewrite Hd1, Hmo1, Hr1. }
    assert (Hiff : p1 = p2 <->
              same_triple (ci_master_key_descriptor ci1) raw1 mode1
                (ci_master_key_descriptor ci2) raw2 mode2).
    { split.
      - intros <-. rewrite Ho1 in Ho2. injection Ho2 as <-.
        destruct Hm1' as (A1 & A2 & A3). destruct Hm2 as (B1 & B2 & B3).
        rewrite A2 in B2. injection B2 as <-.
        split; [| split]; [by rewrite A1, B1 | done | by rewrite A3, B3].
      - intros (S1 & <- & S3). symmetry. apply (Huniq p1 o1' Hin1 Ho1').
        destruct Hm1 as (A1 & A2 & A3).
        split; [| split]; [by rewrite <- S1 | done | by rewrite <- S3]. }
    exists p1, p2, o1, o2, w1, w2.
    split; [done |]. split; [done |]. split; [done |]. split; [done |].
    destruct (wf_handle _ Hwf2 p1 o1 Hin12 Ho1) as (h1 & Hh1 & _).
    destruct (wf_handle _ Hwf2 p2 o2 Hin2 Ho2) as (h2 & Hh2 & _).
    split; [by rewrite Hh1 |]. split; [by rewrite Hh2 |]. split; [done |].
    rewrite <- Hiff. split.
    + intros Heq. by apply (wf_handle_inj _ Hwf2 p1 p2 o1 o2).
    + intros <-. rewrite Ho1 in Ho2. by injection Ho2 as <-.
Qed.

(** What [put_master_key] does to a live entry, when it drops the last
    reference and when it does not. *)
Lemma put_master_key_last mk o w :
  w_mk w !! mk = Some o -> mk_refcount o - 1 = 0 ->
  put_master_key mk w =
    (tt, add_events ([Ev_spin_lock; Ev_hash_del mk; Ev_spin_unlock] ++
                     free_events (mk_ctfm o) ++
                     [Ev_kfree (Freed_master_key mk
                        (cleared_master_key (with_refcount (mk_refcount o - 1) o)))])
           (set_mk (delete mk)
              (set_tfm (fun t => match mk_ctfm o with
                                 | Some h => delete h t
                                 | None => t
                                 end)
                 (set_table (fmap (filter (fun q => q <> mk)))
                    (set_mk (alter (fun mk => with_refcount (mk_refcount mk - 1) mk) mk) w))))).
Proof.
  intros Hmk Hz.
  apply post_result. unfold put_master_key, refcount_dec_and_lock, hash_del.
  mstep. autorewrite with world. rewrite lookup_alter_eq, Hmk.
  cbn [fmap option_fmap option_map mk_refcount with_refcount].
  rewrite Hz. rewrite bool_decide_eq_true_2 by done. mstep.
  eapply post_eq.
  { apply (free_master_key_live mk (with_refcount 0 o)).
    autorewrite with world. by rewrite lookup_alter_eq, Hmk, <- Hz. }
  mstep. autorewrite with events. reflexivity.
Qed.

Lemma put_master_key_not_last mk o w :
  w_mk w !! mk = Some o -> mk_refcount o - 1 <> 0 ->
  put_master_key mk w =
    (tt, add_events [Ev_spin_lock; Ev_spin_unlock]
           (set_mk (insert mk (with_refcount (mk_refcount o - 1) o)) w)).
Proof.
  intros Hmk Hnz. apply post_result.
  unfold put_master_key, refcount_dec_and_lock. mstep.
  autorewrite with world. rewrite lookup_alter_eq, Hmk.
  cbn [fmap option_fmap option_map mk_refcount with_refcount].
  rewrite bool_decide_eq_false_2 by (intros [= ?]; done). mstep.
  cbn [negb]. mstep. autorewrite with events. do 2 f_equal.
  apply world_eq; autorewrite with world; try reflexivity.
  apply map_eq. intros i. destruct (decide (i = mk)) as [-> | Hne].
  - by rewrite lookup_alter_eq, lookup_insert_eq, Hmk.
  - by rewrite lookup_alter_ne, lookup_insert_ne.
Qed.

Lemma put_master_key_count mk o w :
  w_mk w !! mk = Some o ->
  w_mk (put_master_key mk w).2 !! mk =
    if bool_decide (mk_refcount o - 1 = 0) then None
    else Some (with_refcount (mk_refcount o - 1) o).
Proof.
  intros Hmk. case_bool_decide as Hz.
  - rewrite (put_master_key_last mk o w Hmk Hz). cbn [snd].
    autorewrite with world. apply lookup_delete_eq.
  - rewrite (put_master_key_not_last mk o w Hmk Hz). cbn [snd].
    autorewrite with world. apply lookup_insert_eq.
Qed.

(** C6.  [put_master_key] on a live entry decrements its reference
    count under the lock.  When the count reaches zero: the entry is taken
    off its chain while the lock is held, then, after the unlock, its
    cipher handle is destroyed and the entry is freed with its memory,
    raw key and descriptor included, cleared; no chain holds it any more.
    When the count does not reach zero, nothing changes but the count:
    the table, the stores of transforms and the other fields of the entry
    are as before. *)
Theorem put_master_key_spec mk o w :
  w_mk w !! mk = Some o ->
  (mk_refcount o - 1 = 0 ->
   let w' := (put_master_key mk w).2 in
   w_table w' = filter (fun q => q <> mk) <$> w_table w
   /\ (forall b, mk ∉ default [] (w_table w' !! b))
   /\ w_mk w' = delete mk (w_mk w)
   /\ w_tfm w' = match mk_ctfm o with
                 | Some h => delete h (w_tfm w)
                 | None => w_tfm w
                 end
   /\ exists z,
        mk_raw z = zeros (length (mk_raw o))
        /\ mk_descriptor z = zeros (length (mk_descriptor o))
        /\ w_trace w' =
             w_trace w ++
             [Ev_spin_lock; Ev_hash_del mk; Ev_spin_unlock] ++
             free_events (mk_ctfm o) ++
             [Ev_kfree (Freed_master_key mk z)])
  /\ (mk_refcount o - 1 <> 0 ->
      put_master_key mk w =
        (tt, add_events [Ev_spin_lock; Ev_spin_unlock]
               (set_mk (insert mk (with_refcount (mk_refcount o - 1) o)) w))).
Proof.
  intros Hmk. split.
  - intros Hz. rewrite (put_master_key_last mk o w Hmk Hz). cbn [snd].
    autorewrite with world.
    split; [done |]. split; [| split; [| split]].
    + intros b. rewrite lookup_fmap.
      destruct (w_table w !! b) as [l |]; cbn; [| apply not_elem_of_nil].
      intros Hin. apply list_elem_of_filter in Hin as [Hne _]. done.
    + by rewrite delete_alter_eq.
    + by destruct (mk_ctfm o).
    + eexists. split; [| split]; [| | reflexivity]; reflexivity.
  - intros Hnz. by apply put_master_key_not_last.
Qed.
End MasterKeys.

(** Two files with the same master key, mode and descriptor, starting
    from an empty table. *)
Lemma master_key_cache_spec_witness :
  exists p1 p2 o1 o2 w1 w2,
    fscrypt_get_master_key (H:=linux_headers) (all_succeed Ex.keyring)
      (Ex.info_of (H:=linux_headers) Ex.policy_adiantum_direct) 9
      (replicate 32 x11) (Ex.file 11 Ex.policy_adiantum_direct) empty_world
    = (inr (Some p1), w1)
    /\ fscrypt_get_master_key (H:=linux_headers) (all_succeed Ex.keyring)
         (Ex.info_of (H:=linux_headers) Ex.policy_adiantum_direct) 9
         (replicate 32 x11) (Ex.file 14 Ex.policy_adiantum_direct) w1
       = (inr (Some p2), w2)
    /\ w_mk w2 !! p1 = Some o1 /\ w_mk w2 !! p2 = Some o2
    /\ is_Some (mk_ctfm o1) /\ is_Some (mk_ctfm o2)
    /\ (p1 = p2 <->
        same_triple (H:=linux_headers)
          (ci_master_key_descriptor
             (Ex.info_of (H:=linux_headers) Ex.policy_adiantum_direct))
          (replicate 32 x11) 9
          (ci_master_key_descriptor
             (Ex.info_of (H:=linux_headers) Ex.policy_adiantum_direct))
          (replicate 32 x11) 9)
    /\ (mk_ctfm o1 = mk_ctfm o2 <->
        same_triple (H:=linux_headers)
          (ci_master_key_descriptor
             (Ex.info_of (H:=linux_headers) Ex.policy_adiantum_direct))
          (replicate 32 x11) 9
          (ci_master_key_descriptor
             (Ex.info_of (H:=linux_headers) Ex.policy_adiantum_direct))
          (replicate 32 x11) 9).
Proof.
  apply (proj2 (master_key_cache_spec (H:=linux_headers)
                  ltac:(vm_compute; intros Hc; discriminate Hc))).
  - apply table_wf_empty.
  - repeat split.
  - repeat split.
  - vm_compute. lia.
  - vm_compute. lia.
Defined.

(** The last reference to the entry of the example goes away. *)
Lemma put_master_key_spec_witness :
  w_mk (put_master_key 1 Ex.direct_world).2
  = delete 1%positive (w_mk Ex.direct_world).
Proof.
  assert (Hl : w_mk Ex.direct_world !! 1%positive = Some Ex.direct_entry)
    by (vm_compute; reflexivity).
  destruct (put_master_key_spec 1 Ex.direct_entry Ex.direct_world Hl)
    as [Hzero _].
  destruct (Hzero eq_refl) as (_ & _ & Hmk & _). exact Hmk.
Defined.

(** ** The crypto info of an inode *)

Section Lifecycle.
Context `{KernelHeaders} `{CryptoPrimitives}.

Lemma post_get_raw_key_unavailable a inode ctx p dk mode w Q :
  key_from_master_key a ctx ->
  master_key_unavailable a inode ctx mode ->
  (forall evs f, keeps_ciphers f ->
     Q (- ENOKEY, dk) (add_events evs (set_ci (alter f p) w))) ->
  post (get_raw_key a inode ctx p dk mode) w Q.
Proof.
  intros Hfrom Hno HQ.
  destruct (find_and_derive_key_unavailable _ _ _ _ Hno) as [evs Hfdk].
  unfold get_raw_key.
  destruct Hfrom as [Hoff | info Hon Halloc Hupd Hcls].
  - rewrite Hoff. eapply post_eq; [apply Hfdk |].
    rewrite <- (set_ci_alter_id p w). by apply HQ.
  - rewrite Hon, Halloc. mstep. rewrite Hupd.
    rewrite (bool_decide_eq_true_2 (0 = 0)) by done. cbn [negb].
    rewrite Hcls. eapply post_eq; [apply Hfdk |].
    autorewrite with events. rewrite set_ci_alter_fuse.
    apply HQ. by intros c.
Qed.

(** [put_crypt_info] on a crypto info without cipher objects. *)
Lemma post_put_crypt_info_plain p c w Q :
  w_ci w !! p = Some c ->
  ci_master_key c = None -> ci_ctfm c = None -> ci_essiv_tfm c = None ->
  (forall evs, Q tt (add_events evs (set_ci (delete p) w))) ->
  post (put_crypt_info (Some p)) w Q.
Proof.
  intros Hc Hmk Hctfm Hessiv HQ. unfold put_crypt_info. mstep.
  rewrite Hc. cbn [default from_option id]. rewrite Hmk, Hctfm, Hessiv.
  apply post_when_emit. intros evs. mstep.
  apply post_crypto_free_None. mstep. apply post_crypto_free_None. mstep.
  autorewrite with events.
  match goal with |- Q _ (add_events ?e ?W) =>
    replace W with (set_ci (delete p) w); [apply HQ |] end.
  apply world_eq; autorewrite with world; try reflexivity.
  by rewrite delete_alter_eq.
Qed.

Lemma post_build_crypt_info_unavailable a inode ctx p c0 w mode Q :
  w_ci w !! p = Some c0 ->
  ci_master_key c0 = None -> ci_ctfm c0 = None -> ci_essiv_tfm c0 = None ->
  selects (contents_encryption_mode ctx) (filenames_encryption_mode ctx)
    inode mode ->
  a_kmalloc a = true ->
  key_from_master_key a ctx ->
  master_key_unavailable a inode ctx mode ->
  ENOKEY <> 0 ->
  (forall evs f raw_key, keeps_ciphers f ->
     Q (inl (- ENOKEY, Some raw_key))
       (add_events evs (set_ci (alter f p) w))) ->
  post (build_crypt_info a inode ctx p) w Q.
Proof.
  intros Hc Hmk Hctfm Hessiv Hsel Hkmalloc Hfrom Hno Herr HQ.
  unfold build_crypt_info. mstep.
  apply post_when; intros Esdp; mstep.
  all: rewrite ?set_ci_alter_fuse.
  all: autorewrite with world; rewrite lookup_alter_eq, Hc;
    cbn [fmap option_fmap option_map default from_option id].
  all: eapply post_eq; [by apply select_encryption_mode_selects |].
  all: mstep; apply post_when_emit; intros evs1; mstep.
  all: rewrite Hkmalloc; cbn [negb]; mstep.
  all: apply post_get_raw_key_unavailable; [done | done |].
  all: intros evs2 f Hf; cbn [fst snd].
  all: rewrite (bool_decide_eq_false_2 (- ENOKEY = 0)) by lia; cbn [negb].
  all: mstep; autorewrite with events; rewrite ?set_ci_alter_fuse.
  all: apply HQ; keeps.
Qed.

(** C2.  An inode without crypto info whose policy is well formed and
    selects a mode, and whose master key is not usable: absent from the
    keyring, revoked, or with a malformed payload (wrong payload size,
    declared size outside [1, FS_MAX_KEY_SIZE] or below the key size of
    the mode), under the prefix "fscrypt:" and under the prefix of the
    filesystem.  Then [fscrypt_get_encryption_info] returns 0, the same
    in all these cases, and installs nothing: the inode still has no
    crypto info, the crypto info that was allocated has been freed, and
    no master key entry and no transform has been made. *)
Theorem no_key_is_success_without_info a inode w ctx mode :
  w_i_crypt_info w !! i_ino inode = None ->
  a_fscrypt_initialize a = 0 ->
  read_context inode = inr ctx ->
  policy_valid ctx ->
  a_kmem_cache_zalloc a = true ->
  selects (contents_encryption_mode ctx) (filenames_encryption_mode ctx)
    inode mode ->
  a_kmalloc a = true ->
  key_from_master_key a ctx ->
  master_key_unavailable a inode ctx mode ->
  ENOKEY <> 0 ->
  (fscrypt_get_encryption_info a inode w).1 = 0
  /\ w_i_crypt_info (fscrypt_get_encryption_info a inode w).2 !! i_ino inode
     = None
  /\ w_i_crypt_info (fscrypt_get_encryption_info a inode w).2
     = w_i_crypt_info w
  /\ w_ci (fscrypt_get_encryption_info a inode w).2 = w_ci w
  /\ w_mk (fscrypt_get_encryption_info a inode w).2 = w_mk w
  /\ w_tfm (fscrypt_get_encryption_info a inode w).2 = w_tfm w.
Proof.
  intros Hslot Hinit Hctx [Hfmt Hfl] Hzalloc Hsel Hkmalloc Hfrom Hno Herr.
  apply (post_intro (fscrypt_get_encryption_info a inode) w
    (fun r w' => r = 0 /\ w_i_crypt_info w' !! i_ino inode = None /\
                 w_i_crypt_info w' = w_i_crypt_info w /\
                 w_ci w' = w_ci w /\ w_mk w' = w_mk w /\ w_tfm w' = w_tfm w)).
  unfold fscrypt_get_encryption_info, fscrypt_has_encryption_key. mstep.
  rewrite Hslot, not_is_Some_None. mstep. rewrite Hinit.
  rewrite (bool_decide_eq_true_2 (0 = 0)) by done. cbn [negb]. mstep.
  rewrite Hctx, (bool_decide_eq_true_2 _ Hfmt), (bool_decide_eq_true_2 _ Hfl),
    Hzalloc.
  cbn [negb]. mstep. autorewrite with world.
  set (p := fresh (dom (w_ci w))).
  assert (Hp : w_ci w !! p = None) by (apply not_elem_of_dom, is_fresh).
  eapply (post_build_crypt_info_unavailable _ _ _ _ zero_crypt_info); try done.
  { autorewrite with world. apply lookup_insert_eq. }
  intros evs f raw_key Hf. unfold leave_get_encryption_info. mstep.
  eapply post_put_crypt_info_plain.
  { autorewrite with world. rewrite lookup_alter_eq, lookup_insert_eq.
    reflexivity. }
  1-3: by rewrite (proj1 (Hf _)) || rewrite (proj1 (proj2 (Hf _)))
          || rewrite (proj2 (proj2 (Hf _))).
  intros evs2. mstep. apply post_kzfree. intros evs3. mstep.
  rewrite bool_decide_eq_true_2 by done.
  autorewrite with world. repeat split; try done.
  rewrite delete_alter_eq, delete_insert_eq. by apply delete_id.
Qed.

End Lifecycle.

(** With an empty keyring the call succeeds and leaves the inode without
    crypto info. *)
Lemma no_key_is_success_without_info_witness :
  (fscrypt_get_encryption_info (H:=linux_headers) (H0:=example_crypto)
     (all_succeed empty_keyring) (Ex.file 10 Ex.policy_xts) empty_world).1 = 0.
Proof.
  apply (no_key_is_success_without_info (H:=linux_headers) (H0:=example_crypto)
           (all_succeed empty_keyring) (Ex.file 10 Ex.policy_xts) empty_world
           Ex.policy_xts 1).
  - reflexivity.
  - reflexivity.
  - vm_compute. reflexivity.
  - split; vm_compute; reflexivity.
  - reflexivity.
  - split; [vm_compute; reflexivity |]. left.
    split; [vm_compute; reflexivity |]. split; [by left | reflexivity].
  - reflexivity.
  - apply not_sdp. vm_compute. reflexivity.
  - split; [reflexivity |]. split.
    + apply key_absent. reflexivity.
    + intros prefix _. apply key_absent. reflexivity.
  - vm_compute. discriminate.
Defined.

(** ** Export of the key of an inode *)

Section KeyExport.
Context `{KernelHeaders} `{CryptoPrimitives}.

Lemma grows_crypto_alloc answer alg : grows (crypto_alloc answer alg).
Proof. unfold crypto_alloc. repeat grows_step. Qed.
Lemma grows_crypto_free h : grows (crypto_free h).
Proof. unfold crypto_free. repeat grows_step. Qed.
Lemma grows_crypto_setkey answer h k : grows (crypto_setkey answer h k).
Proof. unfold crypto_setkey. repeat grows_step. Qed.
Lemma grows_crypto_set_weak_key h : grows (crypto_set_weak_key h).
Proof. unfold crypto_set_weak_key. repeat grows_step. Qed.

Lemma grows_derive_key_aes a mk ctx dk n : grows (derive_key_aes a mk ctx dk n).
Proof.
  unfold derive_key_aes.
  repeat first [ apply grows_crypto_alloc | apply grows_crypto_free
               | apply grows_crypto_setkey | apply grows_crypto_set_weak_key
               | grows_step ].
Qed.

Lemma grows_find_and_lock_process_key a prefix d n :
  grows (find_and_lock_process_key a prefix d n).
Proof. unfold find_and_lock_process_key. repeat grows_step. Qed.

Lemma grows_find_and_derive_key a inode ctx dk mode :
  grows (find_and_derive_key a inode ctx dk mode).
Proof.
  unfold find_and_derive_key.
  repeat first [ apply grows_find_and_lock_process_key
               | apply grows_derive_key_aes | grows_step ].
Qed.
Lemma buffer_cleared_snoc pre n :
  buffer_cleared (pre ++ [Ev_kfree (Freed_buffer (zeros n))]).
Proof. intros _. by exists pre, n. Qed.

Lemma select_encryption_mode_events ci inode w :
  exists msgs, (select_encryption_mode ci inode w).2 = add_events (map Ev_warn msgs) w.
Proof.
  unfold select_encryption_mode.
  repeat match goal with |- context [if ?b then _ else _] => destruct b end;
    first [ by exists [] ; rewrite add_events_nil | by eexists [_] ].
Qed.

(** C10.  [fscrypt_get_encryption_key] returns -EINVAL for an inode
    without crypto info.  For an inode with crypto info whose policy
    record is read and valid and whose modes select a mode: if the key
    size of the mode exceeds FS_MAX_KEY_SIZE the result is -EPERM;
    otherwise the result is that of [find_and_derive_key] on the policy of
    the inode, and when that is 0 [key] gets the key size of the mode as
    its size and the key that [find_and_derive_key] produced in [raw];
    the buffer is cleared and freed last.  And on every path, whatever
    the inputs: once the temporary buffer has been allocated, the last
    thing done before returning is to free it, cleared. *)
Theorem fscrypt_get_encryption_key_spec a inode key w :
  (w_i_crypt_info w !! i_ino inode = None ->
   fscrypt_get_encryption_key a inode key w = ((- EINVAL, key), w))
  /\ (forall p c ctx mode,
        w_i_crypt_info w !! i_ino inode = Some p ->
        w_ci w !! p = Some c ->
        i_get_context inode = (sizeof_fscrypt_context, ctx) ->
        0 <= sizeof_fscrypt_context ->
        policy_valid ctx ->
        selects (ci_data_mode c) (ci_filename_mode c) inode mode ->
        (FS_MAX_KEY_SIZE < keysize (available_modes mode) ->
         fscrypt_get_encryption_key a inode key w =
           ((- EPERM, key), add_events [Ev_get_context (i_ino inode)] w))
        /\ (keysize (available_modes mode) <= FS_MAX_KEY_SIZE ->
            a_kmalloc a = true ->
            let r := find_and_derive_key a inode ctx
                       (uninitialized (a_kmalloc_garbage a)
                          (keysize (available_modes mode))) mode
                       (add_events [Ev_get_context (i_ino inode);
                                    Ev_kmalloc (keysize (available_modes mode))] w) in
            fscrypt_get_encryption_key a inode key w =
              ((r.1.1,
                if bool_decide (r.1.1 = 0) then exported_key key r.1.2 mode
                else key),
               add_events [Ev_kfree (Freed_buffer (zeros (length r.1.2)))] r.2)))
  /\ exists evs,
       w_trace (fscrypt_get_encryption_key a inode key w).2 = w_trace w ++ evs
       /\ buffer_cleared evs.
Proof.
  split; [| split].
  - intros Hslot. unfold fscrypt_get_encryption_key. mrun. by rewrite Hslot.
  - intros p c ctx mode Hslot Hc Hget Hsz [Hfmt Hfl] Hsel.
    split; [intros Hbig | intros Hfit Hkmalloc r].
    all: apply post_result; unfold fscrypt_get_encryption_key; mstep.
    all: rewrite Hslot; mstep; rewrite Hget; cbn [fst snd].
    all: replace (sizeof_fscrypt_context <? 0) with false
        by (symmetry; apply Z.ltb_ge; lia).
    all: rewrite (bool_decide_eq_true_2 (_ = _)) by done; cbn [negb].
    all: rewrite (bool_decide_eq_true_2 _ Hfmt), (bool_decide_eq_true_2 _ Hfl).
    all: cbn [negb]; mstep; autorewrite with world; rewrite Hc.
    all: cbn [default from_option id].
    all: eapply post_eq; [by apply select_encryption_mode_selects |]; mstep.
    + replace (FS_MAX_KEY_SIZE <? keysize (available_modes mode)) with true
        by (symmetry; apply Z.ltb_lt; lia).
      mstep. reflexivity.
    + replace (FS_MAX_KEY_SIZE <? keysize (available_modes mode)) with false
        by (symmetry; apply Z.ltb_ge; lia).
      rewrite Hkmalloc. cbn [negb]. mstep. autorewrite with events.
      apply post_run. cbn zeta. fold r.
      destruct (decide (r.1.1 = 0)) as [Hr | Hr].
      * rewrite !(bool_decide_eq_true_2 _ Hr). cbn [negb].
        unfold kzfree. mstep. rewrite memset_all. reflexivity.
      * rewrite !(bool_decide_eq_false_2 _ Hr). cbn [negb].
        unfold kzfree. mstep. rewrite memset_all. reflexivity.
  - apply (post_intro _ w (fun _ w' =>
      exists evs, w_trace w' = w_trace w ++ evs /\ buffer_cleared evs)).
    assert (Hnone : forall msgs pre,
      (forall n, Ev_kmalloc n ∉ pre) ->
      buffer_cleared (pre ++ map Ev_warn msgs)).
    { intros msgs pre Hpre [n Hn]. exfalso.
      apply elem_of_app in Hn as [Hn | Hn]; [by apply (Hpre n) |].
      apply list_elem_of_fmap in Hn as (msg & Hmsg & _). discriminate. }
    assert (Hgc : forall n, Ev_kmalloc n ∉ [Ev_get_context (i_ino inode)]).
    { intros n Hn. apply list_elem_of_singleton in Hn. discriminate. }
    unfold fscrypt_get_encryption_key. mstep.
    destruct (w_i_crypt_info w !! i_ino inode) as [p |]; mstep.
    2: { exists []. split; [by rewrite app_nil_r |].
         intros [n Hn]. by apply elem_of_nil in Hn. }
    repeat match goal with
           | |- post (if ?b then _ else _) _ _ => destruct b; mstep
           end.
    1-4: exists [Ev_get_context (i_ino inode)]; autorewrite with world;
         split; [reflexivity | apply (Hnone [] _ Hgc)].
    apply post_run.
    destruct (select_encryption_mode_events
                (default zero_crypt_info
                   (w_ci (add_events [Ev_get_context (i_ino inode)] w) !! p))
                inode (add_events [Ev_get_context (i_ino inode)] w))
      as [msgs Hm].
    rewrite Hm. clear Hm.
    destruct (select_encryption_mode _ inode _).1 as [e | mode]; mstep.
    { unfold kzfree. mstep. eexists. autorewrite with events world.
      split; [reflexivity | by apply Hnone]. }
    destruct (FS_MAX_KEY_SIZE <? keysize (available_modes mode)); mstep.
    { eexists. autorewrite with events world.
      split; [reflexivity | by apply Hnone]. }
    destruct (a_kmalloc a); cbn [negb]; mstep.
    2: { unfold kzfree. mstep. eexists. autorewrite with events world.
         split; [reflexivity | by apply Hnone]. }
    apply post_run.
    match goal with |- context [find_and_derive_key ?a ?i ?c ?b ?m ?W] =>
      destruct (grows_find_and_derive_key a i c b m W) as [evs2 He2];
      set (r := find_and_derive_key a i c b m W) in *
    end.
    cbn zeta.
    destruct (negb (bool_decide (r.1.1 = 0))); unfold kzfree; mstep.
    all: autorewrite with world; rewrite He2; autorewrite with events world.
    all: rewrite <- !app_assoc; eexists; split; [reflexivity |].
    all: rewrite memset_all, !app_assoc; apply buffer_cleared_snoc.
Qed.
End KeyExport.

(** A file whose crypto info is installed hands out the key that was
    derived for it, with the size of its mode. *)
Example fscrypt_get_encryption_key_example :
  let w := (fscrypt_get_encryption_info (H:=linux_headers) (H0:=example_crypto)
              (all_succeed Ex.keyring) (Ex.file 10 Ex.policy_xts) empty_world).2 in
  (fscrypt_get_encryption_key (H:=linux_headers) (H0:=example_crypto)
     (all_succeed Ex.keyring) (Ex.file 10 Ex.policy_xts)
     {| key_mode := 0; key_raw := zeros 64; key_size := 0 |} w).1
  = (0, {| key_mode := 0; key_raw := replicate 64 x33; key_size := 64 |}).
Proof. vm_compute. reflexivity. Qed.

(** ** Threads racing on one inode *)

Section Touches.
Context `{KernelHeaders} `{CryptoPrimitives}.
Context (p : ptr) (R : relation fscrypt_info) `{!PreOrder R}.

Lemma touches_ret {A} (a : A) : touches p R (ret a).
Proof.
  intros w c Hc. exists c, []. cbn. rewrite insert_id by done.
  by rewrite app_nil_r.
Qed.

Lemma touches_get : touches p R get.
Proof.
  intros w c Hc. exists c, []. cbn. rewrite insert_id by done.
  by rewrite app_nil_r.
Qed.

Lemma touches_emit e : quiet e -> touches p R (emit e).
Proof.
  intros He w c Hc. exists c, [e]. cbn. autorewrite with world.
  rewrite insert_id by done. repeat split; try done. by apply Forall_singleton.
Qed.

Lemma touches_modify f :
  (forall w, w_ci (f w) = w_ci w /\ w_i_crypt_info (f w) = w_i_crypt_info w /\
             w_trace (f w) = w_trace w) ->
  touches p R (modify f).
Proof.
  intros Hf w c Hc. exists c, []. cbn. destruct (Hf w) as (-> & -> & ->).
  rewrite insert_id by done. by rewrite app_nil_r.
Qed.

Lemma touches_bind {A B} (m : M A) (k : A -> M B) :
  touches p R m -> (forall a, touches p R (k a)) -> touches p R (bind m k).
Proof.
  intros Hm Hk w c Hc. rewrite bind_eq.
  destruct (Hm w c Hc) as (c1 & e1 & E1 & R1 & S1 & T1 & Q1).
  destruct (Hk (m w).1 (m w).2 c1) as (c2 & e2 & E2 & R2 & S2 & T2 & Q2).
  { rewrite E1. apply lookup_insert_eq. }
  exists c2, (e1 ++ e2). rewrite E2, E1, S2, S1, T2, T1.
  rewrite insert_insert_eq, app_assoc. repeat split; try done.
  - by etransitivity.
  - by apply Forall_app.
Qed.

Lemma touches_when b m : touches p R m -> touches p R (when b m).
Proof. destruct b; [done |]. intros _. apply touches_ret. Qed.

Lemma touches_ci_store f : (forall c, R c (f c)) -> touches p R (ci_store p f).
Proof.
  intros Hf w c Hc. exists (f c), []. unfold ci_store. cbn.
  autorewrite with world. rewrite app_nil_r. repeat split; try done.
  apply map_eq. intros q. destruct (decide (q = p)) as [-> | Hq].
  - by rewrite lookup_alter_eq, lookup_insert_eq, Hc.
  - by rewrite lookup_alter_ne, lookup_insert_ne.
Qed.

Lemma touches_ci_load : touches p R (ci_load p).
Proof. unfold ci_load. apply touches_bind; [apply touches_get |]. intros w. apply touches_ret. Qed.

Lemma touches_mk_store q f : touches p R (mk_store q f).
Proof.
  unfold mk_store. apply touches_modify. intros w.
  by autorewrite with world.
Qed.

End Touches.

Ltac touches_step :=
  lazymatch goal with
  | |- touches ?p ?R (bind _ _) => apply (touches_bind p R); [| intros ?]
  | |- touches ?p ?R (ret _) => apply (touches_ret p R)
  | |- touches ?p ?R (emit _) => apply (touches_emit p R); exact I
  | |- touches ?p ?R get => apply (touches_get p R)
  | |- touches ?p ?R (when _ _) => apply (touches_when p R)
  | |- touches ?p ?R (ci_load _) => apply (touches_ci_load p R)
  | |- touches ?p ?R (mk_store _ _) => apply (touches_mk_store p R)
  | |- touches ?p ?R (modify _) =>
      apply (touches_modify p R); intros ?; autorewrite with world; done
  | |- touches _ _ (match ?x with _ => _ end) => destruct x
  | |- touches _ _ (let (_, _) := ?x in _) => destruct x
  end.

Create HintDb touches.

Ltac touch := repeat first [touches_step | solve [auto with touches nocore]].

Section TouchesCode.
Context `{KernelHeaders} `{CryptoPrimitives}.
Context (p : ptr) (R : relation fscrypt_info) `{!PreOrder R}.

Lemma touches_crypto_alloc answer alg : touches p R (crypto_alloc answer alg).
Proof. unfold crypto_alloc. touch. Qed.
Lemma touches_crypto_free h : touches p R (crypto_free h).
Proof. unfold crypto_free. touch. Qed.
Lemma touches_crypto_setkey answer h k : touches p R (crypto_setkey answer h k).
Proof. unfold crypto_setkey. touch. Qed.
Lemma touches_crypto_set_weak_key h : touches p R (crypto_set_weak_key h).
Proof. unfold crypto_set_weak_key. touch. Qed.
Lemma touches_kzfree b : touches p R (kzfree b).
Proof. unfold kzfree. touch. Qed.
#[local] Hint Resolve touches_crypto_alloc touches_crypto_free
  touches_crypto_setkey touches_crypto_set_weak_key touches_kzfree : touches.

Lemma touches_derive_key_aes a mk ctx dk n :
  touches p R (derive_key_aes a mk ctx dk n).
Proof. unfold derive_key_aes. touch. Qed.
Lemma touches_find_and_lock_process_key a prefix d n :
  touches p R (find_and_lock_process_key a prefix d n).
Proof. unfold find_and_lock_process_key. touch. Qed.
#[local] Hint Resolve touches_derive_key_aes
  touches_find_and_lock_process_key : touches.
Lemma touches_find_and_derive_key a inode ctx dk mode :
  touches p R (find_and_derive_key a inode ctx dk mode).
Proof. unfold find_and_derive_key. touch. Qed.
Lemma touches_select_encryption_mode ci inode :
  touches p R (select_encryption_mode ci inode).
Proof. unfold select_encryption_mode. touch. Qed.
Lemma touches_allocate_skcipher_for_mode a mode raw_key inode :
  touches p R (allocate_skcipher_for_mode a mode raw_key inode).
Proof. unfold allocate_skcipher_for_mode. touch. Qed.
Lemma touches_free_master_key mk : touches p R (free_master_key mk).
Proof. unfold free_master_key. touch. Qed.
#[local] Hint Resolve touches_find_and_derive_key
  touches_select_encryption_mode touches_allocate_skcipher_for_mode
  touches_free_master_key : touches.
Lemma touches_put_master_key mk : touches p R (put_master_key mk).
Proof.
  unfold put_master_key, refcount_dec_and_lock, hash_del. touch.
Qed.
Lemma touches_find_or_insert_master_key to_insert raw_key mode ci :
  touches p R (find_or_insert_master_key to_insert raw_key mode ci).
Proof.
  unfold find_or_insert_master_key, refcount_inc, hash_add. touch.
Qed.
#[local] Hint Resolve touches_put_master_key
  touches_find_or_insert_master_key : touches.
Lemma touches_fscrypt_get_master_key a ci mode raw_key inode :
  touches p R (fscrypt_get_master_key a ci mode raw_key inode).
Proof. unfold fscrypt_get_master_key. touch. Qed.
Lemma touches_derive_essiv_salt a key keysize salt :
  touches p R (derive_essiv_salt a key keysize salt).
Proof. unfold derive_essiv_salt. touch. Qed.
Lemma touches_derive_fek a fek fek_len : touches p R (derive_fek a fek fek_len).
Proof. unfold derive_fek. touch. Qed.

End TouchesCode.

#[global] Hint Extern 0 (PreOrder _) => typeclasses eauto : touches.
#[global] Hint Resolve touches_crypto_alloc touches_crypto_free
  touches_crypto_setkey touches_crypto_set_weak_key touches_kzfree
  touches_derive_key_aes touches_find_and_lock_process_key
  touches_find_and_derive_key touches_select_encryption_mode
  touches_allocate_skcipher_for_mode touches_free_master_key
  touches_put_master_key touches_find_or_insert_master_key
  touches_fscrypt_get_master_key touches_derive_essiv_salt
  touches_derive_fek : touches.

Section Steps.
Context `{KernelHeaders} `{CryptoPrimitives}.

Lemma keeps_policy_preorder : PreOrder keeps_policy.
Proof.
  split.
  - intros c. by repeat split.
  - intros c1 c2 c3 (?&?&?&?&?&?) (?&?&?&?&?&?).
    repeat split; by etransitivity.
Qed.
#[local] Existing Instance keeps_policy_preorder.

Lemma quietly_refl w : quietly w w.
Proof. split; [done |]. exists []. by rewrite app_nil_r. Qed.

Lemma quietly_trans w1 w2 w3 : quietly w1 w2 -> quietly w2 w3 -> quietly w1 w3.
Proof.
  intros [S1 (e1 & T1 & Q1)] [S2 (e2 & T2 & Q2)]. split; [congruence |].
  exists (e1 ++ e2). rewrite T2, T1, app_assoc. split; [done |].
  by apply Forall_app.
Qed.

Lemma moves_refl p w c : w_ci w !! p = Some c -> moves p w w c.
Proof. intros Hc. split; [by rewrite insert_id | apply quietly_refl]. Qed.

Lemma moves_touches {A} p R (m : M A) w0 w c :
  touches p R m -> moves p w0 w c ->
  exists c', moves p w0 (m w).2 c' /\ R c c'.
Proof.
  intros Hm [Hci Hq].
  destruct (Hm w c) as (c' & evs & E & HR & S & T & Q).
  { rewrite Hci. apply lookup_insert_eq. }
  exists c'. split; [| done]. split.
  - by rewrite E, Hci, insert_insert_eq.
  - apply (quietly_trans _ w); [done |]. split; [done |]. by exists evs.
Qed.

Lemma post_touches {A} p R (m : M A) w0 w c (Q : A -> world -> Prop) :
  touches p R m -> moves p w0 w c ->
  (forall r w' c', moves p w0 w' c' -> R c c' -> Q r w') ->
  post m w Q.
Proof.
  intros Hm Hmv HQ. apply post_run.
  destruct (moves_touches p R m w0 w c Hm Hmv) as (c' & Hmv' & HR).
  by apply (HQ _ _ c').
Qed.

Lemma touches_init_essiv_generator a p raw_key keysize :
  touches p keeps_policy (init_essiv_generator a p raw_key keysize).
Proof.
  unfold init_essiv_generator.
  repeat first
    [ apply touches_ci_store; intros ?; by repeat split
    | apply touches_init_essiv_generator
    | touches_step
    | solve [auto with touches nocore] ].
Qed.

Lemma touches_setup_crypto_transform a p mode raw_key inode :
  touches p keeps_policy (setup_crypto_transform a p mode raw_key inode).
Proof.
  unfold setup_crypto_transform.
  repeat first
    [ apply touches_ci_store; intros ?; by repeat split
    | apply touches_init_essiv_generator
    | touches_step
    | solve [auto with touches nocore] ].
Qed.

Lemma touches_get_raw_key a inode ctx p raw_key mode :
  touches p keeps_policy (get_raw_key a inode ctx p raw_key mode).
Proof.
  unfold get_raw_key.
  repeat first
    [ apply touches_ci_store; intros ?; by repeat split
    | apply touches_init_essiv_generator
    | touches_step
    | solve [auto with touches nocore] ].
Qed.


Ltac store Hm :=
  apply post_bind;
  lazymatch goal with
  | |- post (ci_store ?p ?f) _ _ =>
      eapply (post_touches p (fun c c' => c' = f c));
      [ apply touches_ci_store; intros ?; reflexivity
      | exact Hm
      | clear Hm; intros _ ? ? Hm -> ]
  end.

Tactic Notation "call" constr(R) tactic3(lem) ident(Hm)
    "as" simple_intropattern(r) simple_intropattern(HR) :=
  apply post_bind;
  lazymatch type of Hm with
  | moves ?p _ _ _ =>
      eapply (post_touches p R);
      [ lem | exact Hm | clear Hm; intros r ? ? Hm HR ]
  end.

Lemma keeps_setup_preorder : PreOrder keeps_setup.
Proof.
  split.
  - intros c. by repeat split.
  - intros c1 c2 c3 ((?&?&?&?&?&?)&?&?&?&?) ((?&?&?&?&?&?)&?&?&?&?).
    repeat split; by etransitivity.
Qed.
#[local] Existing Instance keeps_setup_preorder.

Lemma touches_get_raw_key_setup a inode ctx p raw_key mode :
  touches p keeps_setup (get_raw_key a inode ctx p raw_key mode).
Proof.
  unfold get_raw_key.
  repeat first
    [ apply touches_ci_store; intros ?; by repeat split
    | touches_step
    | solve [auto with touches nocore] ].
Qed.

Lemma post_touches_run {A} p R (m : M A) w0 w c (Q : A -> world -> Prop) :
  touches p R m -> moves p w0 w c ->
  (forall c', moves p w0 (m w).2 c' -> R c c' -> Q (m w).1 (m w).2) ->
  post m w Q.
Proof.
  intros Hm Hmv HQ. apply post_run.
  destruct (moves_touches p R m w0 w c Hm Hmv) as (c' & Hmv' & HR).
  by apply (HQ c').
Qed.

(** [select_encryption_mode] chooses a mode as [selects] says. *)
Lemma select_encryption_mode_inr ci inode w mode :
  (select_encryption_mode ci inode w).1 = inr mode ->
  selects (ci_data_mode ci) (ci_filename_mode ci) inode mode.
Proof.
  unfold select_encryption_mode, selects.
  destruct (fscrypt_valid_enc_modes _ _); cbn [negb]; [| done].
  destruct (S_ISREG _).
  - destruct (inline_encryption _) eqn:Ei; cbn [andb negb].
    + destruct (s_ice_capable _) eqn:Es; cbn [negb]; [| done].
      intros [= <-]. split; [done |]. left. repeat split. by right.
    + intros [= <-]. split; [done |]. left. repeat split. by left.
  - destruct (S_ISDIR _) eqn:Ed; cbn [orb].
    + intros [= <-]. split; [done |]. right. repeat split. by left.
    + destruct (S_ISLNK _) eqn:El; [| done].
      intros [= <-]. split; [done |]. right. repeat split. by right.
Qed.

(** [fscrypt_get_master_key] never returns NULL. *)
Lemma fscrypt_get_master_key_some a ci mode raw_key inode w mk :
  (fscrypt_get_master_key a ci mode raw_key inode w).1 = inr mk -> is_Some mk.
Proof.
  unfold fscrypt_get_master_key. rewrite bind_eq.
  destruct (search_chain (w_mk w) (ci_master_key_descriptor ci) raw_key mode
              (chain w (bucket_of (ci_master_key_descriptor ci))))
    as [p |] eqn:Hs.
  { destruct (find_or_insert_master_key_found None raw_key mode ci w p Hs)
      as (evs & ->). cbn. intros [= <-]. by eexists. }
  destruct (find_or_insert_master_key_not_found None raw_key mode ci w Hs)
    as (evs & ->). cbn [fst snd].
  destruct (a_kzalloc a); cbn [negb]; [| done].
  rewrite !bind_eq. cbn [get modify emit mk_store fst snd].
  match goal with |- context [allocate_skcipher_for_mode a mode raw_key inode ?W] =>
    destruct (allocate_skcipher_for_mode a mode raw_key inode W)
      as [[err | ctfm] w2] end; cbn [fst snd].
  { rewrite !bind_eq. cbn [ret fst snd]. done. }
  rewrite !bind_eq. cbn [mk_store modify ret fst snd].
  match goal with |- context [find_or_insert_master_key (Some ?m) _ _ _ ?W] =>
    generalize W; intros w3; generalize m; intros q end.
  destruct (search_chain (w_mk w3) (ci_master_key_descriptor ci) raw_key mode
              (chain w3 (bucket_of (ci_master_key_descriptor ci))))
    as [p |] eqn:Hs3.
  - destruct (find_or_insert_master_key_found (Some q) raw_key mode ci w3 p Hs3)
      as (evs3 & ->). cbn. intros [= <-]. by eexists.
  - destruct (find_or_insert_master_key_not_found (Some q) raw_key mode ci w3 Hs3)
      as (evs3 & ->). cbn. intros [= <-]. by eexists.
Qed.


(** An error of [allocate_skcipher_for_mode] is not 0. *)
Lemma allocate_skcipher_for_mode_nonzero a mode raw_key inode w e :
  (allocate_skcipher_for_mode a mode raw_key inode w).1 = inl e -> e <> 0.
Proof.
  apply (post_intro (allocate_skcipher_for_mode a mode raw_key inode) w
    (fun r _ => r = inl e -> e <> 0)).
  unfold allocate_skcipher_for_mode, crypto_alloc, crypto_set_weak_key,
    crypto_setkey, crypto_free.
  case_bool_decide as Halloc; mstep; [| by intros [= <-]].
  destruct (bool_decide (mode ∈ _)); cbn [negb]; mstep.
  all: destruct (decide (a_skcipher_setkey a = 0)) as [Hkey | Hkey];
    [ rewrite !(bool_decide_eq_true_2 _ Hkey); mstep;
      rewrite !(bool_decide_eq_true_2 _ Hkey)
    | rewrite !(bool_decide_eq_false_2 _ Hkey); mstep;
      rewrite !(bool_decide_eq_false_2 _ Hkey) ];
    cbn [negb]; mstep; first [done | by intros [= <-]].
Qed.

(** An error of [fscrypt_get_master_key] is not 0. *)
Lemma fscrypt_get_master_key_nonzero a ci mode raw_key inode w e :
  ENOMEM <> 0 ->
  (fscrypt_get_master_key a ci mode raw_key inode w).1 = inl e -> e <> 0.
Proof.
  intros Hmem. unfold fscrypt_get_master_key. rewrite bind_eq.
  destruct (search_chain (w_mk w) (ci_master_key_descriptor ci) raw_key mode
              (chain w (bucket_of (ci_master_key_descriptor ci))))
    as [p |] eqn:Hs.
  { destruct (find_or_insert_master_key_found None raw_key mode ci w p Hs)
      as (evs & ->). by cbn. }
  destruct (find_or_insert_master_key_not_found None raw_key mode ci w Hs)
    as (evs & ->). cbn [fst snd].
  destruct (a_kzalloc a); cbn [negb].
  2: { cbn. intros [= <-]. lia. }
  rewrite !bind_eq. cbn [get modify emit mk_store fst snd].
  match goal with |- context [allocate_skcipher_for_mode a mode raw_key inode ?W] =>
    pose proof (allocate_skcipher_for_mode_nonzero a mode raw_key inode W) as Ha;
    destruct (allocate_skcipher_for_mode a mode raw_key inode W)
      as [[err | ctfm] w2] end; cbn [fst snd] in *.
  - rewrite !bind_eq. cbn [ret fst snd]. intros [= <-]. by apply Ha.
  - rewrite !bind_eq. cbn [mk_store modify ret fst snd].
    match goal with |- context [find_or_insert_master_key (Some ?m) _ _ _ ?W] =>
      generalize W; intros w3; generalize m; intros q end.
    destruct (search_chain (w_mk w3) (ci_master_key_descriptor ci) raw_key mode
                (chain w3 (bucket_of (ci_master_key_descriptor ci))))
      as [p |] eqn:Hs3.
    + destruct (find_or_insert_master_key_found (Some q) raw_key mode ci w3 p Hs3)
        as (evs3 & ->). by cbn.
    + destruct (find_or_insert_master_key_not_found (Some q) raw_key mode ci w3 Hs3)
        as (evs3 & ->). by cbn.
Qed.

(** [init_essiv_generator] on the crypto info at [p]: the crypto info
    gets the cipher for ESSIV once the cipher has been allocated, and
    nothing else of it changes. *)
Lemma post_init_essiv_generator a p raw_key keysize w0 w c
    (Q : Z * bytes -> world -> Prop) :
  moves p w0 w c ->
  (forall r w' c',
     moves p w0 w' c' ->
     (c' = c \/ exists h, c' = with_ci_essiv_tfm (Some h) c) ->
     (r.1 = 0 -> is_Some (ci_essiv_tfm c')) ->
     Q r w') ->
  post (init_essiv_generator a p raw_key keysize) w Q.
Proof.
  intros Hm HQ. unfold init_essiv_generator.
  apply post_bind.
  eapply (post_touches_run p (@eq fscrypt_info));
    [auto with touches nocore | exact Hm |].
  intros ? Hm1 <-.
  destruct (decide (a_cipher_alloc a = 0)) as [Hz | Hnz].
  - rewrite Hz in *. rewrite crypto_alloc_ok in *. cbn [fst snd] in *.
    store Hm1.
    call (@eq fscrypt_info) (auto with touches nocore) Hm1 as r <-.
    cbn zeta.
    destruct (negb (bool_decide (_ = 0))).
    + apply post_ret. eapply HQ; [exact Hm1 | right; by eexists |].
      intros _. by eexists.
    + call (@eq fscrypt_info) (auto with touches nocore) Hm1 as err <-.
      apply post_ret. eapply HQ; [exact Hm1 | right; by eexists |].
      intros _. by eexists.
  - rewrite (crypto_alloc_failed _ _ _ Hnz) in *. cbn [fst snd] in *.
    apply post_ret. eapply HQ; [exact Hm1 | by left | done].
Qed.

(** [setup_crypto_transform] on the crypto info at [p]: the fields of the
    policy and the raw key are kept, and when the function succeeds the
    crypto info has its cipher or its master key entry, and the cipher
    for ESSIV when the mode needs one. *)
Lemma post_setup_crypto_transform a p mode raw_key inode w0 w c
    (Q : Z -> world -> Prop) :
  moves p w0 w c ->
  ci_essiv_tfm c = None ->
  (forall res w' c',
     moves p w0 w' c' ->
     keeps_policy c c' -> ci_raw_key c' = ci_raw_key c ->
     (ENOMEM <> 0 -> res = 0 ->
        (if bool_decide (Z.land (ci_flags c') FS_POLICY_FLAG_DIRECT_KEY = 0)
         then ci_master_key c' = None /\ is_Some (ci_ctfm c')
         else is_Some (ci_master_key c')) /\
        (if needs_essiv (available_modes mode) then is_Some (ci_essiv_tfm c')
         else ci_essiv_tfm c' = None)) ->
     Q res w') ->
  post (setup_crypto_transform a p mode raw_key inode) w Q.
Proof.
  intros Hm He HQ. unfold setup_crypto_transform.
  apply post_bind, post_ci_load.
  rewrite (proj1 Hm), lookup_insert_eq. cbn [default from_option id].
  cbn zeta.
  apply post_bind.
  match goal with |- post ?m _ _ =>
    eapply (post_touches_run p (@eq fscrypt_info) m);
      [touch | exact Hm |] end.
  intros ? Hm1 <-.
  match type of Hm1 with moves _ _ (?m w).2 _ =>
    assert (Hr : match (m w).1 with
                 | inl e => ENOMEM <> 0 -> e <> 0
                 | inr (mk, ctfm) =>
                     if bool_decide
                          (Z.land (ci_flags c) FS_POLICY_FLAG_DIRECT_KEY = 0)
                     then mk = None /\ is_Some ctfm else is_Some mk
                 end);
    [| generalize dependent (m w).2; generalize dependent (m w).1]
  end.
  { destruct (bool_decide _); cbn [negb].
    - rewrite bind_eq.
      pose proof (allocate_skcipher_for_mode_nonzero a mode raw_key inode w) as Hn.
      destruct (allocate_skcipher_for_mode a mode raw_key inode w)
        as [[e | h] w1]; cbn in *; [by auto |]. split; [done | by eexists].
    - rewrite bind_eq.
      pose proof (fscrypt_get_master_key_some a c mode raw_key inode w) as Hs.
      pose proof (fscrypt_get_master_key_nonzero a c mode raw_key inode w) as Hn.
      destruct (fscrypt_get_master_key a c mode raw_key inode w)
        as [[e | q] w1]; cbn [fst snd] in *; [cbn; by auto |].
      rewrite !bind_eq. cbn. by apply Hs. }
  intros r Hr w1 Hm1. destruct r as [e | [mk ctfm]].
  { apply post_ret. eapply HQ; [exact Hm1 | done | done |].
    intros Hmem ->. by destruct (Hr Hmem). }
  store Hm1. store Hm1.
  match type of Hm1 with moves _ _ _ ?x => set (c2 := x) in * end.
  assert (Hk : keeps_policy c c2) by (by repeat split).
  assert (Hd : if bool_decide (Z.land (ci_flags c2) FS_POLICY_FLAG_DIRECT_KEY = 0)
               then ci_master_key c2 = None /\ is_Some (ci_ctfm c2)
               else is_Some (ci_master_key c2)).
  { by destruct c. }
  assert (He2 : ci_essiv_tfm c2 = None) by (by destruct c).
  assert (Hraw : ci_raw_key c2 = ci_raw_key c) by (by destruct c).
  clearbody c2.
  destruct (needs_essiv _).
  2: { apply post_ret. eapply HQ; [exact Hm1 | done | done |]. by intros _ _. }
  call (@eq fscrypt_info) (apply (touches_when _ _); apply (touches_emit _ _); exact I)
    Hm1 as _ <-.
  call (@eq fscrypt_info) (apply (touches_when _ _); apply (touches_emit _ _); exact I)
    Hm1 as _ <-.
  apply post_bind.
  eapply post_init_essiv_generator; [exact Hm1 |].
  intros r wz c' Hm' Hc' Hz.
  assert (Hk' : keeps_policy c c' /\ ci_raw_key c' = ci_raw_key c /\
            ci_flags c' = ci_flags c2 /\ ci_master_key c' = ci_master_key c2 /\
            ci_ctfm c' = ci_ctfm c2).
  { destruct Hc' as [-> | (h & ->)]; [done |]. by destruct c2. }
  destruct Hk' as (Hk1 & Hk2 & Hk3 & Hk4 & Hk5).
  destruct (negb (bool_decide (r.1 = 0))) eqn:Eb.
  - call (@eq fscrypt_info) (apply (touches_emit _ _); exact I) Hm' as _ <-.
    apply post_ret. eapply HQ; [exact Hm' | done | done |].
    intros _ Hz'. apply negb_true_iff, bool_decide_eq_false in Eb. done.
  - apply post_ret. eapply HQ; [exact Hm' | done | done |].
    intros _ _. apply negb_false_iff, bool_decide_eq_true in Eb.
    rewrite Hk3, Hk4, Hk5. split; [done | by apply Hz].
Qed.

Lemma build_crypt_info_moves a inode ctx p w :
  w_ci w !! p = Some zero_crypt_info ->
  exists c, moves p w (build_crypt_info a inode ctx p w).2 c /\
    forall raw_key, (build_crypt_info a inode ctx p w).1 = inr raw_key ->
      constructed ctx c /\
      (ENOMEM <> 0 ->
       exists mode, ci_mode c = Some mode /\
         selects (ci_data_mode c) (ci_filename_mode c) inode mode /\
         cipher_fields mode raw_key c).
Proof.
  intros Hc.
  apply (post_intro (build_crypt_info a inode ctx p) w
    (fun r w' => exists c, moves p w w' c /\
       forall raw_key, r = inr raw_key ->
         constructed ctx c /\
         (ENOMEM <> 0 ->
          exists mode, ci_mode c = Some mode /\
            selects (ci_data_mode c) (ci_filename_mode c) inode mode /\
            cipher_fields mode raw_key c))).
  pose proof (moves_refl p w _ Hc) as Hm.
  unfold build_crypt_info.
  store Hm. store Hm. store Hm. store Hm. store Hm.
  call keeps_setup
    (apply (touches_when _ _); apply touches_ci_store; intros ?; by repeat split)
    Hm as _ Hsdp.
  match goal with HR : keeps_setup _ ?c |- _ => rename c into c1 end.
  apply post_bind, post_ci_load.
  rewrite (proj1 Hm), lookup_insert_eq. cbn [default from_option id].
  apply post_bind.
  eapply (post_touches_run p (@eq fscrypt_info));
    [auto with touches nocore | exact Hm |].
  clear Hm. intros ? Hm <-.
  match goal with |- context [select_encryption_mode c1 inode ?W] =>
    pose proof (select_encryption_mode_inr c1 inode W) as Hsel;
    destruct (select_encryption_mode c1 inode W) as [[e | mode] w1]
  end; cbn [fst snd] in *.
  { apply post_ret. exists c1. split; [done | discriminate]. }
  specialize (Hsel _ eq_refl).
  call (@eq fscrypt_info) (apply (touches_when _ _); apply (touches_emit _ _); exact I)
    Hm as _ <-.
  store Hm.
  destruct (negb (a_kmalloc a)).
  { apply post_ret. eexists. split; [exact Hm | discriminate]. }
  call (@eq fscrypt_info) (apply (touches_emit _ _); exact I) Hm as _ <-.
  call keeps_setup (apply touches_get_raw_key_setup) Hm as r Hraw.
  cbn zeta.
  destruct (negb (bool_decide (_ = 0))).
  { apply post_ret. eexists. split; [exact Hm | discriminate]. }
  match goal with HR : keeps_setup _ ?c |- _ => rename c into c2 end.
  destruct Hsdp as ((M1 & F1 & D1 & N1 & K1 & O1) & T1 & E1 & Y1 & R1).
  destruct Hraw as ((M2 & F2 & D2 & N2 & K2 & O2) & T2 & E2 & Y2 & R2).
  cbn in M1, F1, D1, N1, K1, O1, T1, E1, Y1, R1.
  cbn in M2, F2, D2, N2, K2, O2, T2, E2, Y2, R2.
  assert (Hdone : forall c3, keeps_policy c2 c3 ->
            constructed ctx c3 /\ ci_mode c3 = Some mode /\
            selects (ci_data_mode c3) (ci_filename_mode c3) inode mode).
  { intros c3 (M3 & F3 & D3 & N3 & K3 & O3).
    split; [repeat split |].
    - by rewrite F3, F2, F1.
    - by rewrite D3, D2, D1.
    - by rewrite N3, N2, N1.
    - by rewrite K3, K2, K1.
    - by rewrite O3, O2, O1.
    - rewrite M3, M2. by eexists.
    - split; [by rewrite M3, M2 |]. by rewrite D3, D2, N3, N2. }
  destruct (inline_encryption (available_modes mode)) eqn:Ei; cbn [negb].
  - apply post_bind. store Hm. apply post_ret.
    rewrite bool_decide_eq_true_2 by done. cbn [negb].
    apply post_ret. eexists. split; [exact Hm |]. intros ? [= <-].
    match goal with |- constructed _ ?x /\ _ =>
      destruct (Hdone x) as (Hk1 & Hk2 & Hk3); [by repeat split |] end.
    split; [done |]. intros _. exists mode. split; [done |]. split; [done |].
    unfold cipher_fields. rewrite Ei. cbn. by rewrite T2, T1, E2, E1, Y2, Y1, R2, R1.
  - apply post_bind.
    eapply post_setup_crypto_transform; [exact Hm | by rewrite E2, E1 |].
    intros res w3 c3 Hm3 Hk3 Hr3 Hf3.
    destruct (negb (bool_decide (res = 0))) eqn:Eb.
    + apply post_ret. eexists. split; [exact Hm3 | discriminate].
    + apply post_ret. eexists. split; [exact Hm3 |]. intros ? [= <-].
      apply negb_false_iff, bool_decide_eq_true in Eb.
      destruct (Hdone c3 Hk3) as (Hd1 & Hd2 & Hd3).
      split; [done |]. intros Hmem. exists mode. split; [done |]. split; [done |].
      unfold cipher_fields. rewrite Ei. split; [by rewrite Hr3, R2, R1 |].
      by apply Hf3.
Qed.


Lemma quietly_add_events evs w : Forall quiet evs -> quietly w (add_events evs w).
Proof.
  intros Hq. split; autorewrite with world; [done |]. by exists evs.
Qed.

Lemma post_when_emit_quiet b e w Q :
  quiet e ->
  (forall evs, Forall quiet evs -> Q tt (add_events evs w)) ->
  post (when b (emit e)) w Q.
Proof.
  intros He HQ. destruct b.
  - apply post_when_true, post_emit, HQ. by apply Forall_singleton.
  - apply post_when_false. rewrite <- (add_events_nil w). by apply HQ.
Qed.

Lemma take_memset (b : bytes) n :
  take (Z.to_nat n) (memset b x00 n) = zeros (Z.to_nat n).
Proof.
  unfold memset, zeros. rewrite take_app_le by (rewrite length_replicate; lia).
  rewrite take_ge by (rewrite length_replicate; lia). done.
Qed.


Lemma free_events_quiet h : Forall quiet (free_events h).
Proof. destruct h; cbn; [by apply Forall_singleton | apply Forall_nil_2]. Qed.

(** The end of [put_crypt_info], and [kzfree(raw_key)]. *)
Lemma post_free_crypt_info p c raw_key (r : Z) w w1 (Q : Z -> world -> Prop) :
  moves p w w1 c ->
  (forall w2, quietly w w2 -> w_ci w2 = delete p (w_ci w) ->
     w_mk w2 = w_mk w1 -> w_tfm w2 = w_tfm w1 ->
     (exists evs z,
        w_trace w2 = w_trace w ++ evs
        /\ Ev_kfree (Freed_crypt_info p z) ∈ evs
        /\ take (Z.to_nat sizeof_ci_raw_key) (ci_raw_key z)
           = zeros (Z.to_nat sizeof_ci_raw_key)
        /\ forall raw, raw_key = Some raw ->
             Ev_kfree (Freed_buffer (zeros (length raw))) ∈ evs) ->
     Q r w2) ->
  post
    (ci_store p (fun c =>
       with_ci_raw_key (memset (ci_raw_key c) x00 sizeof_ci_raw_key) c) >>
     let* c := ci_load p in
     modify (set_ci (delete p)) >>
     emit (Ev_kfree (Freed_crypt_info p c)))
    w1 (fun _ w' => post (kzfree raw_key >> ret r) w' Q).
Proof.
  intros [Hci [Hslot (evs1 & Htr & Hq)]] HQ. mstep.
  autorewrite with world. rewrite lookup_alter_eq, Hci, lookup_insert_eq.
  cbn [fmap option_fmap option_map default from_option id]. mstep.
  set (z := with_ci_raw_key (memset (ci_raw_key c) x00 sizeof_ci_raw_key) c).
  assert (Hz : take (Z.to_nat sizeof_ci_raw_key) (ci_raw_key z)
               = zeros (Z.to_nat sizeof_ci_raw_key)) by apply take_memset.
  assert (Hdel : delete p (alter (fun c => with_ci_raw_key
                   (memset (ci_raw_key c) x00 sizeof_ci_raw_key) c) p (w_ci w1))
                 = delete p (w_ci w)).
  { by rewrite delete_alter_eq, Hci, delete_insert_eq. }
  destruct raw_key as [raw |]; unfold kzfree; mstep; apply HQ.
  all: autorewrite with events world; try done.
  - split; autorewrite with world; [done |].
    rewrite Htr, <- app_assoc. eexists. split; [done |].
    apply Forall_app. split; [done |]. by repeat constructor.
  - rewrite Htr, <- app_assoc. eexists _, z. split; [done |]. rewrite memset_all.
    split; [| split; [done |]].
    + apply elem_of_app. right. apply elem_of_cons. by left.
    + intros ? [= <-]. apply elem_of_app. right. apply elem_of_cons. right.
      apply elem_of_cons. by left.
  - split; autorewrite with world; [done |].
    rewrite Htr, <- app_assoc. eexists. split; [done |].
    apply Forall_app. split; [done |]. by repeat constructor.
  - rewrite Htr, <- app_assoc. eexists _, z. split; [done |].
    split; [| split; [done |]].
    + apply elem_of_app. right. apply elem_of_cons. by left.
    + intros ? [=].
Qed.

Lemma leave_released res p c raw_key w :
  w_ci w !! p = Some c ->
  quietly w (leave_get_encryption_info res (Some p) raw_key w).2
  /\ released p c raw_key w (leave_get_encryption_info res (Some p) raw_key w).2.
Proof.
  intros Hc.
  apply (post_intro (leave_get_encryption_info res (Some p) raw_key) w
    (fun _ w' => quietly w w' /\ released p c raw_key w w')).
  unfold leave_get_encryption_info, put_crypt_info. mstep.
  rewrite Hc. cbn [default from_option id].
  apply post_when_emit_quiet; [exact I |]. intros evs0 Hq0. mstep.
  unfold released.
  destruct (ci_master_key c) as [mk |] eqn:Emk.
  - apply post_run.
    destruct (touches_put_master_key p eq mk (add_events evs0 w) c)
      as (c' & evs1 & E1 & <- & S1 & T1 & Q1).
    { by autorewrite with world. }
    autorewrite with world in E1, S1, T1.
    eapply post_free_crypt_info.
    { split; [exact E1 |]. split; [exact S1 |]. exists (evs0 ++ evs1).
      rewrite T1, <- app_assoc. split; [done |]. by apply Forall_app. }
    intros w2 Hq Hci Hmk Htfm Hev.
    split; [done |]. split; [done |]. split; [done |].
    intros o Ho. rewrite Hmk. apply put_master_key_count.
    by autorewrite with world.
  - apply post_bind. eapply post_eq; [apply crypto_free_eq |].
    eapply post_eq; [apply crypto_free_eq |].
    eapply post_free_crypt_info.
    { split; [| split].
      - autorewrite with world. by rewrite insert_id.
      - by autorewrite with world.
      - autorewrite with events world. eexists. split; [done |].
        repeat (apply Forall_app; split); try done; apply free_events_quiet. }
    intros w2 Hq Hci Hmk Htfm Hev.
    split; [done |]. split; [done |]. split; [done |].
    rewrite Hmk, Htfm. autorewrite with world. split; [done |].
    by destruct (ci_ctfm c), (ci_essiv_tfm c).
Qed.


Lemma enter_effect a inode w :
  effect inode At_entry w (enter_get_encryption_info a inode w).1
    (enter_get_encryption_info a inode w).2.
Proof.
  apply (post_intro (enter_get_encryption_info a inode) w
    (effect inode At_entry w)).
  unfold enter_get_encryption_info, fscrypt_has_encryption_key. mstep.
  assert (Hret : forall res evs, Forall quiet evs ->
            effect inode At_entry w (Returned res) (add_events evs w)).
  { intros res evs Hq. apply effect_returned; [done | |].
    - by apply quietly_add_events.
    - by autorewrite with world. }
  destruct (bool_decide _).
  { mstep. rewrite <- (add_events_nil w) at 2. by apply Hret. }
  mstep.
  destruct (negb _).
  { mstep. apply Hret. by repeat constructor. }
  mstep.
  destruct (read_context inode) as [res | ctx] eqn:Ectx.
  { mstep. autorewrite with events. apply Hret. by repeat constructor. }
  do 3 (destruct (negb _);
    [mstep; autorewrite with events; apply Hret; by repeat constructor |]).
  mstep. autorewrite with events world.
  set (p := fresh (dom (w_ci w))).
  assert (Hp : w_ci w !! p = None) by apply not_elem_of_dom, is_fresh.
  match goal with |- post _ ?W _ => set (w1 := W) end.
  apply post_run.
  destruct (build_crypt_info_moves a inode ctx p w1) as (c & Hm & Hc).
  { unfold w1. autorewrite with world. apply lookup_insert_eq. }
  assert (Hm' : moves p w (build_crypt_info a inode ctx p w1).2 c).
  { destruct Hm as [Hci Hq]. split.
    - rewrite Hci. unfold w1. autorewrite with world.
      by rewrite insert_insert_eq.
    - apply (quietly_trans _ w1); [| done]. unfold w1.
      split; autorewrite with world; [done |]. eexists. split; [done |].
      by repeat constructor. }
  destruct (build_crypt_info a inode ctx p w1).1 as [[res raw_key] | raw_key];
    mstep.
  - by eapply effect_failed.
  - eapply effect_built; [done | exact Hm' | done |].
    intros Hmem. destruct (Hc raw_key eq_refl) as (Hk & Hf).
    destruct (Hf Hmem) as (mode & ? & ? & ?). by exists ctx, mode.
Qed.

Lemma install_effect a inode p raw_key w :
  effect inode (At_cmpxchg p raw_key) w
    (stage_step a inode (At_cmpxchg p raw_key) w).1
    (stage_step a inode (At_cmpxchg p raw_key) w).2.
Proof.
  apply (post_intro (stage_step a inode (At_cmpxchg p raw_key)) w
    (effect inode (At_cmpxchg p raw_key) w)).
  cbn [stage_step]. unfold install_crypt_info, cmpxchg_release. mstep.
  destruct (w_i_crypt_info w !! i_ino inode) as [q |] eqn:Eslot; mstep.
  - rewrite bool_decide_eq_false_2 by done.
    destruct CONFIG_FSCRYPT_SDP; mstep.
    all: eapply effect_lost; try done; by autorewrite with world.
  - rewrite bool_decide_eq_true_2 by done.
    destruct CONFIG_FSCRYPT_SDP; mstep.
    + eapply (effect_won _ _ _ _ _ [Ev_sdp "fscrypt_sdp_finalize_tasks"]);
        try done; autorewrite with world; try done.
      * by rewrite <- app_assoc.
      * by repeat constructor.
    + eapply (effect_won _ _ _ _ _ []);
        try done; autorewrite with world; try done.
Qed.

Lemma kzfree_quietly b w : quietly w (kzfree b w).2 /\ w_ci (kzfree b w).2 = w_ci w.
Proof.
  destruct b; cbn.
  - split; [| by autorewrite with world].
    apply quietly_add_events. by repeat constructor.
  - split; [apply quietly_refl | done].
Qed.

End Steps.

Section Parts.
Context `{KernelHeaders} `{CryptoPrimitives}.

(** The three parts, one after the other, are the function. *)
Lemma stages_compose a inode w :
  (let* t1 := stage_step a inode At_entry in
   let* t2 := stage_step a inode t1 in
   stage_step a inode t2) w
  = (Returned (fscrypt_get_encryption_info a inode w).1,
     (fscrypt_get_encryption_info a inode w).2).
Proof.
  unfold stage_step at 1.
  unfold enter_get_encryption_info, fscrypt_get_encryption_info,
    fscrypt_has_encryption_key.
  mrun.
  destruct (bool_decide _); [reflexivity |].
  destruct (negb _); [reflexivity |].
  destruct (read_context inode) as [res | ctx]; [reflexivity |].
  repeat (destruct (negb _); [reflexivity |]).
  destruct (build_crypt_info _ _ _ _ _) as [[[res raw_key] | raw_key] w2].
  - cbn [stage_step]. mrun.
    destruct (leave_get_encryption_info _ _ _ _); reflexivity.
  - cbn [stage_step]. mrun.
    destruct (install_crypt_info _ _ _) as [ci w3]. cbn [stage_step]. mrun.
    destruct (leave_get_encryption_info _ _ _ _); reflexivity.
Qed.

End Parts.

(** * Further properties of the code *)

(** ** Code that works aside of the crypto infos *)

Section Aside.

Lemma aside_ret {A} (a : A) : aside (ret a).
Proof. intros w. cbn. repeat split. exists []. by rewrite app_nil_r. Qed.

Lemma aside_get : aside get.
Proof. intros w. cbn. repeat split. exists []. by rewrite app_nil_r. Qed.

Lemma aside_emit e : plain e -> aside (emit e).
Proof.
  intros He w. cbn. autorewrite with world. repeat split. exists [e].
  split; [done |]. by apply Forall_singleton.
Qed.

Lemma aside_modify f :
  (forall w, w_ci (f w) = w_ci w /\ w_i_crypt_info (f w) = w_i_crypt_info w /\
             w_trace (f w) = w_trace w) ->
  aside (modify f).
Proof.
  intros Hf w. cbn. destruct (Hf w) as (-> & -> & ->). repeat split.
  exists []. by rewrite app_nil_r.
Qed.

Lemma aside_bind {A B} (m : M A) (k : A -> M B) :
  aside m -> (forall a, aside (k a)) -> aside (bind m k).
Proof.
  intros Hm Hk w. rewrite bind_eq.
  destruct (Hm w) as (C1 & S1 & e1 & T1 & Q1).
  destruct (Hk (m w).1 (m w).2) as (C2 & S2 & e2 & T2 & Q2).
  rewrite C2, C1, S2, S1, T2, T1. repeat split. exists (e1 ++ e2).
  rewrite app_assoc. split; [done |]. by apply Forall_app.
Qed.

Lemma aside_when b m : aside m -> aside (when b m).
Proof. destruct b; [done |]. intros _. apply aside_ret. Qed.

End Aside.

Ltac aside_step :=
  lazymatch goal with
  | |- aside (bind _ _) => apply aside_bind; [| intros ?]
  | |- aside (ret _) => apply aside_ret
  | |- aside (emit _) => apply aside_emit; exact I
  | |- aside get => apply aside_get
  | |- aside (when _ _) => apply aside_when
  | |- aside (mk_store _ _) =>
      apply aside_modify; intros ?; autorewrite with world; done
  | |- aside (modify _) =>
      apply aside_modify; intros ?; autorewrite with world; done
  | |- aside (match ?x with _ => _ end) => destruct x
  | |- aside (let (_, _) := ?x in _) => destruct x
  end.

Create HintDb aside.

Ltac asides := repeat first [aside_step | solve [auto with aside nocore]].

Section AsideCode.
Context `{KernelHeaders} `{CryptoPrimitives}.

Lemma aside_crypto_alloc answer alg : aside (crypto_alloc answer alg).
Proof. unfold crypto_alloc. asides. Qed.
Lemma aside_crypto_free h : aside (crypto_free h).
Proof. unfold crypto_free. asides. Qed.
Lemma aside_crypto_setkey answer h k : aside (crypto_setkey answer h k).
Proof. unfold crypto_setkey. asides. Qed.
Lemma aside_crypto_set_weak_key h : aside (crypto_set_weak_key h).
Proof. unfold crypto_set_weak_key. asides. Qed.
Lemma aside_kzfree b : aside (kzfree b).
Proof. unfold kzfree. asides. Qed.
#[local] Hint Resolve aside_crypto_alloc aside_crypto_free
  aside_crypto_setkey aside_crypto_set_weak_key aside_kzfree : aside.

Lemma aside_derive_key_aes a mk ctx dk n : aside (derive_key_aes a mk ctx dk n).
Proof. unfold derive_key_aes. asides. Qed.
#[local] Hint Resolve aside_derive_key_aes : aside.
Lemma aside_select_encryption_mode ci inode :
  aside (select_encryption_mode ci inode).
Proof. unfold select_encryption_mode. asides. Qed.
Lemma aside_allocate_skcipher_for_mode a mode raw_key inode :
  aside (allocate_skcipher_for_mode a mode raw_key inode).
Proof. unfold allocate_skcipher_for_mode. asides. Qed.
Lemma aside_free_master_key mk : aside (free_master_key mk).
Proof. unfold free_master_key. asides. Qed.
#[local] Hint Resolve aside_select_encryption_mode
  aside_allocate_skcipher_for_mode aside_free_master_key : aside.
Lemma aside_put_master_key mk : aside (put_master_key mk).
Proof. unfold put_master_key, refcount_dec_and_lock, hash_del. asides. Qed.
Lemma aside_find_or_insert_master_key to_insert raw_key mode ci :
  aside (find_or_insert_master_key to_insert raw_key mode ci).
Proof. unfold find_or_insert_master_key, refcount_inc, hash_add. asides. Qed.
#[local] Hint Resolve aside_put_master_key
  aside_find_or_insert_master_key : aside.
Lemma aside_fscrypt_get_master_key a ci mode raw_key inode :
  aside (fscrypt_get_master_key a ci mode raw_key inode).
Proof. unfold fscrypt_get_master_key. asides. Qed.
Lemma aside_derive_essiv_salt a key keysize salt :
  aside (derive_essiv_salt a key keysize salt).
Proof. unfold derive_essiv_salt. asides. Qed.
Lemma aside_derive_fek a fek fek_len : aside (derive_fek a fek fek_len).
Proof. unfold derive_fek. asides. Qed.

Lemma post_aside {A} (m : M A) w (Q : A -> world -> Prop) :
  aside m ->
  (forall r w', w_ci w' = w_ci w -> w_i_crypt_info w' = w_i_crypt_info w ->
     (exists evs, w_trace w' = w_trace w ++ evs /\ Forall plain evs) ->
     Q r w') ->
  post m w Q.
Proof.
  intros Hm HQ. apply post_run. destruct (Hm w) as (? & ? & ?). by apply HQ.
Qed.

End AsideCode.

#[global] Hint Resolve aside_crypto_alloc aside_crypto_free
  aside_crypto_setkey aside_crypto_set_weak_key aside_kzfree
  aside_derive_key_aes aside_select_encryption_mode
  aside_allocate_skcipher_for_mode aside_free_master_key
  aside_put_master_key aside_find_or_insert_master_key
  aside_fscrypt_get_master_key aside_derive_essiv_salt
  aside_derive_fek : aside.

Section Sequential.
Context `{KernelHeaders} `{CryptoPrimitives}.

Lemma leave_without_crypt_info res raw_key w :
  leave_get_encryption_info res None raw_key w
  = (if bool_decide (res = - ENOKEY) then 0 else res, (kzfree raw_key w).2).
Proof.
  unfold leave_get_encryption_info, put_crypt_info. rewrite !bind_eq. done.
Qed.

(** What one call of [fscrypt_get_encryption_info] does to the crypto
    infos and to the slots. *)
Lemma fscrypt_get_encryption_info_cases a inode w :
  (w_i_crypt_info (fscrypt_get_encryption_info a inode w).2 = w_i_crypt_info w
   /\ w_ci (fscrypt_get_encryption_info a inode w).2 = w_ci w)
  \/ (slot inode w = None
      /\ (fscrypt_get_encryption_info a inode w).1 = 0
      /\ exists p c,
           w_ci w !! p = None
           /\ w_ci (fscrypt_get_encryption_info a inode w).2 = <[p := c]> (w_ci w)
           /\ w_i_crypt_info (fscrypt_get_encryption_info a inode w).2
              = <[i_ino inode := p]> (w_i_crypt_info w)
           /\ (ENOMEM <> 0 -> exists raw_key, fully_constructed inode raw_key c)).
Proof.
  pose proof (stages_compose a inode w) as Ha.
  set (F := fscrypt_get_encryption_info a inode w) in *. clearbody F.
  rewrite !bind_eq in Ha.
  cbn [stage_step] in Ha.
  destruct (enter_effect a inode w)
    as [ res w1 _ [Hsl _] Hci
       | p raw_key c w1 _ [Hci [Hsl _]] Hp Hc
       | res p raw_key c w1 _ [Hci [Hsl _]] Hp
       | | | | | ]; try done.
  - cbn in Ha. injection Ha as _ <-. by left.
  - (* at the cmpxchg_release *)
    fold (stage_step a inode (At_cmpxchg p raw_key)) in Ha.
    destruct (install_effect a inode p raw_key w1)
      as [ | | | p' raw' evs w2 Et Hnone Hsl2 Hci2 _ _
         | p' raw' q w2 Et Hsome Hsl2 Hci2 _ | | | ]; try done;
      injection Et as -> ->.
    + cbn [stage_step] in Ha. rewrite bind_eq in Ha. cbn [ret fst snd] in Ha.
      rewrite leave_without_crypt_info in Ha. cbn [fst snd] in Ha.
      injection Ha as Hres <-.
      right. split; [| split].
      * unfold slot in *. by rewrite <- Hsl.
      * rewrite <- Hres. by case_bool_decide.
      * exists p', c. autorewrite with world. rewrite Hci2, Hci, Hsl2, Hsl.
        do 3 (split; [done |]). intros Hmem. exists raw'. by apply Hc.
    + cbn [stage_step] in Ha. rewrite bind_eq in Ha. cbn [ret fst snd] in Ha.
      injection Ha as _ <-.
      destruct (leave_released 0 p' c (Some raw') w2) as [[Hsl3 _] [Hci3 _]].
      { rewrite Hci2, Hci. apply lookup_insert_eq. }
      left. rewrite Hsl3, Hsl2, Hsl, Hci3, Hci2, Hci.
      split; [done |]. rewrite delete_insert_eq. by apply delete_id.
  - (* at out after a failure *)
    cbn [stage_step] in Ha. rewrite !bind_eq in Ha.
    cbn [ret fst snd stage_step] in Ha. injection Ha as _ <-.
    destruct (leave_released res p c raw_key w1) as [[Hsl3 _] [Hci3 _]].
    { rewrite Hci. apply lookup_insert_eq. }
    left. rewrite Hsl3, Hsl, Hci3, Hci.
    split; [done |]. rewrite delete_insert_eq. by apply delete_id.
Qed.



Lemma put_crypt_info_as_leave res p w :
  (put_crypt_info (Some p) w).2
  = (leave_get_encryption_info res (Some p) None w).2.
Proof.
  unfold leave_get_encryption_info. rewrite !bind_eq. done.
Qed.

Lemma fscrypt_put_encryption_info_eq inode w :
  exists evs, Forall quiet evs /\
    fscrypt_put_encryption_info inode w
    = (tt, set_i_crypt_info (delete (i_ino inode))
             (put_crypt_info (slot inode w) (add_events evs w)).2).
Proof.
  unfold fscrypt_put_encryption_info.
  destruct CONFIG_FSCRYPT_SDP; cbn [when].
  - exists [Ev_sdp "fscrypt_sdp_cache_remove_inode_num"].
    split; [by repeat constructor |].
    rewrite !bind_eq. cbn [emit modify get fst snd].
    autorewrite with world. done.
  - exists []. split; [done |]. rewrite !bind_eq. cbn [ret modify get fst snd].
    by rewrite add_events_nil.
Qed.


(** [put_crypt_info] on any pointer: what it does to the crypto infos, and
    that it leaves the slots. *)
Lemma put_crypt_info_frame ci w :
  w_i_crypt_info (put_crypt_info ci w).2 = w_i_crypt_info w
  /\ w_ci (put_crypt_info ci w).2
     = match ci with Some p => delete p (w_ci w) | None => w_ci w end
  /\ exists evs, w_trace (put_crypt_info ci w).2 = w_trace w ++ evs
       /\ Forall plain evs.
Proof.
  destruct ci as [p |];
    [| cbn; repeat split; exists []; by rewrite app_nil_r].
  apply (post_intro (put_crypt_info (Some p)) w (fun _ w' =>
    w_i_crypt_info w' = w_i_crypt_info w /\ w_ci w' = delete p (w_ci w) /\
    exists evs, w_trace w' = w_trace w ++ evs /\ Forall plain evs)).
  unfold put_crypt_info. apply post_bind, post_ci_load.
  apply post_bind, post_aside; [asides |].
  intros _ w1 C1 S1 (e1 & T1 & Q1).
  apply post_bind, post_aside; [asides |].
  intros _ w2 C2 S2 (e2 & T2 & Q2). mstep. autorewrite with world.
  rewrite S2, S1, C2, C1, T2, T1, delete_alter_eq.
  split; [done |]. split; [done |]. eexists. rewrite <- !app_assoc.
  split; [done |]. repeat (apply Forall_app; split); try done.
  by repeat constructor.
Qed.

(** X2.  [fscrypt_put_encryption_info] empties the slot of the inode and
    leaves the slots of the other inodes.  The crypto info that the slot
    held is released: its reference to a master key entry is put, or else
    its cipher handles are destroyed, and its raw key is cleared before it
    is freed.  On an inode without crypto info nothing is freed: the
    crypto infos, the master key entries, the transforms and the table
    are as before. *)
Theorem fscrypt_put_encryption_info_spec inode w :
  let w' := (fscrypt_put_encryption_info inode w).2 in
  w_i_crypt_info w' = delete (i_ino inode) (w_i_crypt_info w)
  /\ match slot inode w with
     | None =>
         w_ci w' = w_ci w /\ w_mk w' = w_mk w /\ w_tfm w' = w_tfm w
         /\ w_table w' = w_table w
     | Some p => forall c, w_ci w !! p = Some c -> released p c None w w'
     end.
Proof.
  intros w'. unfold w'.
  destruct (fscrypt_put_encryption_info_eq inode w) as (evs & Hq & ->).
  cbn [snd]. autorewrite with world.
  destruct (put_crypt_info_frame (slot inode w) (add_events evs w))
    as (Hs & _ & _).
  rewrite Hs. autorewrite with world. split; [done |].
  destruct (slot inode w) as [p |] eqn:Hslot.
  - intros c Hc.
    rewrite (put_crypt_info_as_leave 0).
    destruct (leave_released 0 p c None (add_events evs w))
      as [_ (Hci & (e & z & Htr & Hin & Hz & Hraw) & Hmk)].
    { by autorewrite with world. }
    autorewrite with world in Hci, Htr, Hmk.
    split; [| split].
    + by autorewrite with world.
    + exists (evs ++ e), z. autorewrite with world.
      rewrite Htr, <- app_assoc. split; [done |]. split; [| done].
      apply elem_of_app. by right.
    + destruct (ci_master_key c); by autorewrite with world.
  - cbn. by autorewrite with world.
Qed.

(** X3.  On an inode without crypto info, [fscrypt_get_encryption_info]
    followed by [fscrypt_put_encryption_info] leaves no crypto info
    behind: whatever the services answer, the crypto infos and the slots
    of all inodes are as they were before the two calls. *)
Theorem get_then_put_leaves_no_crypt_info a inode w :
  slot inode w = None ->
  let w1 := (fscrypt_get_encryption_info a inode w).2 in
  let w2 := (fscrypt_put_encryption_info inode w1).2 in
  w_ci w2 = w_ci w /\ w_i_crypt_info w2 = w_i_crypt_info w.
Proof.
  intros Hnone w1 w2. unfold w2.
  destruct (fscrypt_put_encryption_info_eq inode w1) as (evs & Hq & ->).
  cbn [snd]. autorewrite with world.
  destruct (put_crypt_info_frame (slot inode w1) (add_events evs w1))
    as (Hs & Hci & _).
  rewrite Hs, Hci. autorewrite with world. unfold slot in *.
  destruct (fscrypt_get_encryption_info_cases a inode w)
    as [[Hs1 Hc1] | (_ & _ & p & c & Hp & Hc1 & Hs1 & _)]; fold w1 in Hs1, Hc1.
  - rewrite Hs1, Hnone, Hc1. split; [done |]. by apply delete_id.
  - rewrite Hs1, lookup_insert_eq, Hc1, !delete_insert_eq.
    split; by apply delete_id.
Qed.


Lemma plain_buffer_cleared evs : Forall plain evs -> buffer_cleared evs.
Proof.
  intros Hp [n Hn]. rewrite Forall_forall in Hp. destruct (Hp _ Hn).
Qed.

Lemma snoc_buffer_cleared pre n :
  buffer_cleared (pre ++ [Ev_kfree (Freed_buffer (zeros n))]).
Proof. intros _. by exists pre, n. Qed.

(** [build_crypt_info] arrives at [out] without key buffer only when it
    has not allocated one. *)
Lemma build_crypt_info_plain a inode ctx p w res :
  (build_crypt_info a inode ctx p w).1 = inl (res, None) ->
  exists evs, w_trace (build_crypt_info a inode ctx p w).2 = w_trace w ++ evs
    /\ Forall plain evs.
Proof.
  apply (post_intro (build_crypt_info a inode ctx p) w (fun r w' =>
    r = inl (res, None) ->
    exists evs, w_trace w' = w_trace w ++ evs /\ Forall plain evs)).
  unfold build_crypt_info. mstep.
  destruct CONFIG_FSCRYPT_SDP; mstep.
  all: apply post_aside; [apply aside_select_encryption_mode |].
  all: intros [e | mode] w1 _ _ (e1 & T1 & Q1).
  all: try (mstep; intros _; exists e1; split; [| done];
            by rewrite T1; autorewrite with world).
  all: apply post_bind, post_aside; [asides |].
  all: intros _ w2 _ _ (e2 & T2 & Q2); mstep.
  all: destruct (negb (a_kmalloc a)).
  all: try (mstep; intros _; exists (e1 ++ e2); split; [| by apply Forall_app];
            autorewrite with world; rewrite T2; autorewrite with world;
            by rewrite T1, app_assoc; autorewrite with world).
  all: mstep; apply post_run.
  all: destruct (negb (bool_decide (_ = 0))); mstep; [done |].
  all: apply post_run.
  all: by destruct (negb (bool_decide (_ = 0))); mstep.
Qed.

Lemma grows_quietly w w' :
  quietly w w' -> exists evs, w_trace w' = w_trace w ++ evs.
Proof. intros [_ (evs & ? & _)]. by exists evs. Qed.

Lemma install_crypt_info_grows inode p : grows (install_crypt_info inode p).
Proof. unfold install_crypt_info, cmpxchg_release. repeat grows_step. Qed.

(** The events from the label [out] on: those of [put_crypt_info], then
    the freeing of the cleared key buffer. *)
Lemma leave_get_encryption_info_trace res ci raw_key w :
  exists pre,
    Forall plain pre /\
    w_trace (leave_get_encryption_info res ci raw_key w).2
    = w_trace w ++ pre ++
      match raw_key with
      | Some raw => [Ev_kfree (Freed_buffer (zeros (length raw)))]
      | None => []
      end.
Proof.
  unfold leave_get_encryption_info. rewrite !bind_eq. cbn [ret fst snd].
  destruct (put_crypt_info_frame ci w) as (_ & _ & pre & Htr & Hp).
  exists pre. split; [done |].
  destruct raw_key as [raw |]; cbn [kzfree emit modify ret snd].
  - autorewrite with world. by rewrite Htr, memset_all, <- app_assoc.
  - by rewrite Htr, app_nil_r.
Qed.

(** X4.  Whatever the services answer, when [fscrypt_get_encryption_info]
    has allocated the buffer for the raw key, the last thing it does is to
    free that buffer, cleared: on success and on every error path the
    derived key does not stay in freed memory. *)
Theorem fscrypt_get_encryption_info_clears_raw_key a inode w :
  exists evs,
    w_trace (fscrypt_get_encryption_info a inode w).2 = w_trace w ++ evs
    /\ buffer_cleared evs.
Proof.
  apply (post_intro (fscrypt_get_encryption_info a inode) w (fun _ w' =>
    exists evs, w_trace w' = w_trace w ++ evs /\ buffer_cleared evs)).
  assert (Hplain : forall evs, Forall plain evs ->
            exists evs', w_trace (add_events evs w) = w_trace w ++ evs'
              /\ buffer_cleared evs').
  { intros evs Hp. exists evs. autorewrite with world.
    split; [done |]. by apply plain_buffer_cleared. }
  unfold fscrypt_get_encryption_info, fscrypt_has_encryption_key. mstep.
  destruct (bool_decide _).
  { mstep. exists []. rewrite app_nil_r. split; [done |].
    by apply plain_buffer_cleared. }
  mstep. destruct (negb _).
  { mstep. apply Hplain. by repeat constructor. }
  mstep. destruct (read_context inode) as [res | ctx].
  { mstep. autorewrite with events. apply Hplain. by repeat constructor. }
  do 3 (destruct (negb _);
    [mstep; autorewrite with events; apply Hplain; by repeat constructor |]).
  mstep. autorewrite with events world.
  set (p := fresh (dom (w_ci w))).
  match goal with |- post _ ?W _ => set (w1 := W) end.
  assert (T1 : w_trace w1 = w_trace w ++
            [Ev_fscrypt_initialize (s_cop_flags (i_sb inode));
             Ev_get_context (i_ino inode); Ev_kmem_cache_zalloc p]).
  { unfold w1. by autorewrite with world. }
  apply post_run.
  destruct (build_crypt_info_moves a inode ctx p w1) as (c & [_ Hq] & _).
  { unfold w1. autorewrite with world. apply lookup_insert_eq. }
  apply grows_quietly in Hq as [e2 T2].
  pose proof (build_crypt_info_plain a inode ctx p w1) as Hb.
  destruct (build_crypt_info a inode ctx p w1) as [[[res [raw |]] | raw] w2];
    cbn [fst snd] in *.
  - apply post_run.
    destruct (leave_get_encryption_info_trace res (Some p) (Some raw) w2)
      as (pre & _ & ->).
    eexists. rewrite T2, T1, <- !app_assoc. split; [done |].
    rewrite !app_assoc. apply snoc_buffer_cleared.
  - apply post_run.
    destruct (leave_get_encryption_info_trace res (Some p) None w2)
      as (pre & Hpre & ->).
    destruct (Hb res eq_refl) as (e2' & T2' & Hp2).
    eexists. rewrite T2', T1, app_nil_r, <- !app_assoc. split; [done |].
    apply plain_buffer_cleared.
    repeat (apply Forall_app; split); try done. by repeat constructor.
  - apply post_bind, post_run.
    destruct (install_crypt_info_grows inode p w2) as [e3 T3].
    apply post_run.
    destruct (leave_get_encryption_info_trace 0
                (install_crypt_info inode p w2).1 (Some raw)
                (install_crypt_info inode p w2).2) as (pre & _ & ->).
    eexists. rewrite T3, T2, T1, <- !app_assoc. split; [done |].
    rewrite !app_assoc. apply snoc_buffer_cleared.
Qed.

End Sequential.


Lemma get_then_put_leaves_no_crypt_info_witness :
  let w1 := (fscrypt_get_encryption_info (H:=linux_headers)
               (H0:=example_crypto) (all_succeed Ex.keyring)
               (Ex.file 11 Ex.policy_adiantum_direct) empty_world).2 in
  let w2 := (fscrypt_put_encryption_info (H:=linux_headers)
               (Ex.file 11 Ex.policy_adiantum_direct) w1).2 in
  w_ci w2 = w_ci empty_world /\ w_i_crypt_info w2 = w_i_crypt_info empty_world.
Proof.
  apply (get_then_put_leaves_no_crypt_info (H:=linux_headers)
           (H0:=example_crypto) (all_succeed Ex.keyring)
           (Ex.file 11 Ex.policy_adiantum_direct) empty_world).
  reflexivity.
Defined.

(** ** Ciphers and keys *)

Ltac mem_hyp :=
  repeat match goal with
  | H : _ ∈ [] |- _ => by apply elem_of_nil in H
  | H : _ ∈ _ :: _ |- _ => apply elem_of_cons in H as [H | H]; [try discriminate H |]
  | H : _ ∈ _ ++ _ |- _ => apply elem_of_app in H as [H | H]
  end.

Ltac mem_goal :=
  cbn [app]; solve [repeat first [apply list_elem_of_here | apply list_elem_of_further]].

Section Ciphers.
Context `{KernelHeaders} `{CryptoPrimitives}.

(** X5.  [derive_key_aes] frees the cipher it allocates on every path:
    whatever the crypto API answers, the call leaves nothing but events
    behind, and every request that was allocated is freed.  When the
    allocation of the cipher, the allocation of the request or the setting
    of the key fails, the error is returned and the output buffer is not
    written. *)
Theorem derive_key_aes_frees_cipher a master_key ctx derived_key n w :
  let r := derive_key_aes a master_key ctx derived_key n w in
  (exists evs, r.2 = add_events evs w
     /\ (forall h, Ev_request_alloc h ∈ evs -> Ev_request_free ∈ evs)
     /\ (forall alg h, Ev_crypto_alloc alg h ∈ evs -> Ev_crypto_free h ∈ evs))
  /\ (a_ecb_alloc a <> 0 -> r.1 = (a_ecb_alloc a, derived_key))
  /\ (a_ecb_alloc a = 0 -> a_ecb_request_alloc a = false ->
      r.1 = (- ENOMEM, derived_key))
  /\ (a_ecb_alloc a = 0 -> a_ecb_request_alloc a = true -> a_ecb_setkey a < 0 ->
      r.1 = (a_ecb_setkey a, derived_key)).
Proof.
  intros r. unfold r.
  apply (post_intro (derive_key_aes a master_key ctx derived_key n) w
    (fun r w' =>
       (exists evs, w' = add_events evs w
          /\ (forall h, Ev_request_alloc h ∈ evs -> Ev_request_free ∈ evs)
          /\ (forall alg h, Ev_crypto_alloc alg h ∈ evs -> Ev_crypto_free h ∈ evs))
       /\ (a_ecb_alloc a <> 0 -> r = (a_ecb_alloc a, derived_key))
       /\ (a_ecb_alloc a = 0 -> a_ecb_request_alloc a = false ->
           r = (- ENOMEM, derived_key))
       /\ (a_ecb_alloc a = 0 -> a_ecb_request_alloc a = true ->
           a_ecb_setkey a < 0 -> r = (a_ecb_setkey a, derived_key)))).
  unfold derive_key_aes, crypto_alloc, crypto_set_weak_key, crypto_setkey,
    crypto_free.
  assert (Hfresh : w_tfm w !! fresh (dom (w_tfm w)) = None)
    by apply not_elem_of_dom, is_fresh.
  case_bool_decide as Halloc; mstep; autorewrite with events world.
  2: { split; [| by repeat split].
       eexists. split; [done |]. split; intros; mem_hyp. }
  destruct (negb (a_ecb_request_alloc a)) eqn:Hreq; mstep;
    autorewrite with events world.
  { apply negb_true_iff in Hreq. split; [| repeat split; intros; congruence].
    eexists. split.
    { apply world_eq; autorewrite with world; try reflexivity.
      rewrite ?delete_alter_eq, delete_insert_eq. by apply delete_id. }
    split; intros; mem_hyp; simplify_eq; mem_goal. }
  apply negb_false_iff in Hreq.
  case_bool_decide as Hkey; mstep; autorewrite with events world.
  all: destruct (a_ecb_setkey a <? 0) eqn:Hneg; mstep;
    autorewrite with events world.
  all: try apply Z.ltb_lt in Hneg; try apply Z.ltb_ge in Hneg.
  all: (split; [| repeat split; intros; (congruence || lia)]).
  all: eexists; (split;
    [ apply world_eq; autorewrite with world; try reflexivity;
      rewrite ?delete_alter_eq, delete_insert_eq; by apply delete_id |]).
  all: split; intros; mem_hyp; simplify_eq; mem_goal.
Qed.


(** A failure of [allocate_skcipher_for_mode] leaves no cipher behind. *)
Lemma allocate_skcipher_for_mode_failed a mode raw_key inode w e w' :
  allocate_skcipher_for_mode a mode raw_key inode w = (inl e, w') ->
  w_tfm w' = w_tfm w /\ w_table w' = w_table w /\ w_mk w' = w_mk w
  /\ e <> 0
  /\ (e = a_skcipher_alloc a
      \/ (a_skcipher_alloc a = 0 /\ e = a_skcipher_setkey a)).
Proof.
  intros Heq.
  pose proof (post_intro (allocate_skcipher_for_mode a mode raw_key inode) w
    (fun r w' =>
       match r with
       | inl e =>
           w_tfm w' = w_tfm w /\ w_table w' = w_table w /\ w_mk w' = w_mk w
           /\ e <> 0
           /\ (e = a_skcipher_alloc a
               \/ (a_skcipher_alloc a = 0 /\ e = a_skcipher_setkey a))
       | inr _ => True
       end)) as Hp.
  rewrite Heq in Hp. apply Hp. clear Hp Heq.
  assert (Hfresh : w_tfm w !! fresh (dom (w_tfm w)) = None)
    by apply not_elem_of_dom, is_fresh.
  unfold allocate_skcipher_for_mode, crypto_alloc, crypto_set_weak_key,
    crypto_setkey, crypto_free.
  case_bool_decide as Halloc; mstep; autorewrite with events world.
  2: { repeat split; try done. by left. }
  destruct (bool_decide (mode ∈ w_logged_impl_name w)); cbn [negb]; mstep.
  all: destruct (decide (a_skcipher_setkey a = 0)) as [Hkey | Hkey];
    [ rewrite !(bool_decide_eq_true_2 _ Hkey); mstep;
      rewrite !(bool_decide_eq_true_2 _ Hkey)
    | rewrite !(bool_decide_eq_false_2 _ Hkey); mstep;
      rewrite !(bool_decide_eq_false_2 _ Hkey) ];
    cbn [negb]; mstep; autorewrite with events world; try done.
  all: repeat split; try done; try (by right).
  all: rewrite ?delete_alter_eq, delete_insert_eq; by apply delete_id.
Qed.


End Ciphers.

(** ** ESSIV, as [setup_crypto_transform] sets it up *)

Section EssivSetup.
Context `{KernelHeaders} `{CryptoPrimitives}.

(** [init_essiv_generator] returns 0 only when the cipher has been
    allocated, the hash transform exists or has been allocated, and the
    digest and the setkey have succeeded. *)
Lemma init_essiv_generator_zero a ci raw_key keysize w :
  (init_essiv_generator a ci raw_key keysize w).1.1 = 0 ->
  a_cipher_alloc a = 0
  /\ (is_Some (w_essiv_hash_tfm w) \/ a_shash_alloc a = 0)
  /\ a_shash_digest a = 0
  /\ a_cipher_setkey a = 0.
Proof.
  apply (post_intro (init_essiv_generator a ci raw_key keysize) w
    (fun r _ =>
       r.1 = 0 ->
       a_cipher_alloc a = 0
       /\ (is_Some (w_essiv_hash_tfm w) \/ a_shash_alloc a = 0)
       /\ a_shash_digest a = 0
       /\ a_cipher_setkey a = 0)).
  unfold init_essiv_generator, derive_essiv_salt, crypto_alloc, crypto_free,
    crypto_setkey.
  destruct (decide (a_cipher_alloc a = 0)) as [Hca | Hca],
    (w_essiv_hash_tfm w) as [t |] eqn:Et,
    (decide (a_shash_alloc a = 0)) as [Hsa | Hsa],
    (decide (a_shash_digest a = 0)) as [Hsd | Hsd],
    (decide (a_cipher_setkey a = 0)) as [Hck | Hck].
  all: repeat (mstep; autorewrite with world;
               rewrite ?Et,
                 ?(bool_decide_eq_true_2 (a_cipher_alloc a = 0)),
                 ?(bool_decide_eq_false_2 (a_cipher_alloc a = 0)),
                 ?(bool_decide_eq_true_2 (a_shash_alloc a = 0)),
                 ?(bool_decide_eq_false_2 (a_shash_alloc a = 0)),
                 ?(bool_decide_eq_true_2 (a_shash_digest a = 0)),
                 ?(bool_decide_eq_false_2 (a_shash_digest a = 0)),
                 ?(bool_decide_eq_true_2 (a_cipher_setkey a = 0)),
                 ?(bool_decide_eq_false_2 (a_cipher_setkey a = 0)),
                 ?(bool_decide_eq_true_2 (0 = 0)) by done;
               cbn [negb fst snd]).
  all: try (rewrite (bool_decide_eq_false_2 (a_shash_digest a = 0)) by done;
            cbn [negb]; mstep).
  all: cbn [fst snd]; intros Hz; try done.
  all: repeat split; try done; first [left; by eexists | by right].
Qed.

(** An error of [fscrypt_get_master_key] is -ENOMEM or the error of the
    cipher. *)
Lemma fscrypt_get_master_key_error a ci mode raw_key inode w e w' :
  fscrypt_get_master_key a ci mode raw_key inode w = (inl e, w') ->
  e = - ENOMEM \/ e <> 0.
Proof.
  unfold fscrypt_get_master_key. rewrite bind_eq.
  destruct (search_chain (w_mk w) (ci_master_key_descriptor ci) raw_key mode
              (chain w (bucket_of (ci_master_key_descriptor ci))))
    as [p |] eqn:Hs.
  { destruct (find_or_insert_master_key_found None raw_key mode ci w p Hs)
      as (evs & ->). by cbn. }
  destruct (find_or_insert_master_key_not_found None raw_key mode ci w Hs)
    as (evs & ->). cbn [fst snd].
  destruct (a_kzalloc a); cbn [negb].
  2: { cbn. intros [= <- _]. by left. }
  rewrite !bind_eq. cbn [get modify emit mk_store fst snd].
  match goal with |- context [allocate_skcipher_for_mode a mode raw_key inode ?W] =>
    destruct (allocate_skcipher_for_mode a mode raw_key inode W)
      as [[err | ctfm] w2] eqn:Ha end; cbn [fst snd].
  - destruct (allocate_skcipher_for_mode_failed _ _ _ _ _ _ _ Ha)
      as (_ & _ & _ & Herr & _).
    rewrite !bind_eq. cbn [ret fst snd]. intros [= <- _]. by right.
  - rewrite !bind_eq. cbn [ret fst snd]. done.
Qed.

(** C7.  For a mode that needs ESSIV, whenever [setup_crypto_transform]
    succeeds on a live crypto info, the crypto info has an "aes" cipher
    for ESSIV whose key is the SHA-256 digest of the first
    [mode->keysize] bytes of the raw key it was given, a key of
    SHA256_DIGEST_SIZE bytes.  And once [init_essiv_generator] has its
    cipher object, the stack buffer that holds the salt is all zero when
    the function returns, whether the digest and the setkey succeed or
    fail. *)
Theorem setup_crypto_transform_essiv a ci mode raw_key inode w :
  needs_essiv (available_modes mode) = true ->
  ENOMEM <> 0 ->
  (forall text, length (sha256 text) = Z.to_nat SHA256_DIGEST_SIZE) ->
  is_Some (w_ci w !! ci) ->
  ((setup_crypto_transform a ci mode raw_key inode w).1 = 0 ->
   exists h c,
     w_ci (setup_crypto_transform a ci mode raw_key inode w).2 !! ci = Some c
     /\ ci_essiv_tfm c = Some h
     /\ w_tfm (setup_crypto_transform a ci mode raw_key inode w).2 !! h =
          Some {| tfm_alg := "aes";
                  tfm_key :=
                    Some (sha256 (take (Z.to_nat (keysize (available_modes mode)))
                                    raw_key));
                  tfm_weak_key := false |}
     /\ length (sha256 (take (Z.to_nat (keysize (available_modes mode)))
                          raw_key))
        = Z.to_nat SHA256_DIGEST_SIZE)
  /\ (forall ci' raw_key' keysize' w',
        a_cipher_alloc a = 0 ->
        (init_essiv_generator a ci' raw_key' keysize' w').1.2
        = zeros (Z.to_nat SHA256_DIGEST_SIZE)).
Proof.
  intros Hessiv Henomem Hsha Hlive. split.
  2: { intros ci' raw_key' keysize' w' Halloc.
       by apply init_essiv_generator_effect. }
  apply (post_intro (setup_crypto_transform a ci mode raw_key inode) w
    (fun res w' =>
       res = 0 ->
       exists h c,
         w_ci w' !! ci = Some c /\ ci_essiv_tfm c = Some h
         /\ w_tfm w' !! h =
              Some {| tfm_alg := "aes";
                      tfm_key :=
                        Some (sha256 (take (Z.to_nat (keysize (available_modes mode)))
                                        raw_key));
                      tfm_weak_key := false |}
         /\ length (sha256 (take (Z.to_nat (keysize (available_modes mode)))
                              raw_key))
            = Z.to_nat SHA256_DIGEST_SIZE)).
  unfold setup_crypto_transform. mstep.
  set (c0 := default zero_crypt_info (w_ci w !! ci)).
  assert (Hrest : forall W3,
    is_Some (w_ci W3 !! ci) ->
    post
      (if needs_essiv (available_modes mode) then
         when (negb (bool_decide (ivsize (available_modes mode) = AES_BLOCK_SIZE)))
           (emit (Ev_warn "WARN_ON(mode->ivsize != AES_BLOCK_SIZE)")) >>
         when (negb (bool_decide (Z.land (ci_flags c0) FS_POLICY_FLAG_DIRECT_KEY = 0)))
           (emit (Ev_warn "WARN_ON(ci->ci_flags & FS_POLICY_FLAG_DIRECT_KEY)")) >>
         let* r := init_essiv_generator a ci raw_key
                     (keysize (available_modes mode)) in
         if negb (bool_decide (r.1 = 0)) then
           emit (Ev_warn "error initializing ESSIV generator for inode") >>
           ret r.1
         else ret 0
       else ret 0) W3
      (fun res w' =>
         res = 0 ->
         exists h c,
           w_ci w' !! ci = Some c /\ ci_essiv_tfm c = Some h
           /\ w_tfm w' !! h =
                Some {| tfm_alg := "aes";
                        tfm_key :=
                          Some (sha256 (take (Z.to_nat (keysize (available_modes mode)))
                                          raw_key));
                        tfm_weak_key := false |}
           /\ length (sha256 (take (Z.to_nat (keysize (available_modes mode)))
                                raw_key))
              = Z.to_nat SHA256_DIGEST_SIZE)).
  { intros W Hlive0. rewrite Hessiv.
    apply post_bind, post_when_emit. intros e1.
    apply post_bind, post_when_emit. intros e2. mstep.
    apply post_run.
    match goal with |- context [init_essiv_generator a ci raw_key ?n ?W] =>
      set (W3 := W) end.
    case_bool_decide as Hres; cbn [negb]; mstep.
    2: { intros Hz. by rewrite Hz in Hres. }
    intros _.
    destruct (init_essiv_generator_zero _ _ _ _ _ Hres)
      as (Hca & Hhash & Hdig & Hck).
    assert (Hlive3 : is_Some (w_ci W3 !! ci)).
    { unfold W3. by autorewrite with world. }
    destruct (init_essiv_generator_effect a ci raw_key
                (keysize (available_modes mode)) W3 Hca) as [_ Hok].
    by destruct (Hok Hlive3 Hhash Hdig Hck Hsha) as [_ Hex]. }
  destruct (negb (bool_decide (Z.land (ci_flags c0) FS_POLICY_FLAG_DIRECT_KEY = 0)))
    eqn:Hdk.
  - mstep. apply post_run.
    pose proof (aside_fscrypt_get_master_key a c0 mode raw_key inode w)
      as (Hci1 & _ & _).
    destruct (fscrypt_get_master_key a c0 mode raw_key inode w)
      as [[e | mk] w1] eqn:Hg; cbn [fst snd] in *; mstep.
    + intros ->. destruct (fscrypt_get_master_key_error _ _ _ _ _ _ _ _ Hg); lia.
    + apply Hrest. autorewrite with world. rewrite Hci1.
      destruct Hlive as [c Hc]. rewrite !lookup_alter_eq, Hc. by eexists.
  - mstep. apply post_run.
    pose proof (aside_allocate_skcipher_for_mode a mode raw_key inode w)
      as (Hci1 & _ & _).
    destruct (allocate_skcipher_for_mode a mode raw_key inode w)
      as [[e | ctfm] w1] eqn:Ha; cbn [fst snd] in *; mstep.
    + intros ->.
      by destruct (allocate_skcipher_for_mode_failed _ _ _ _ _ _ _ Ha)
        as (_ & _ & _ & Herr & _).
    + apply Hrest. autorewrite with world. rewrite Hci1.
      destruct Hlive as [c Hc]. rewrite !lookup_alter_eq, Hc. by eexists.
Qed.

End EssivSetup.

(** The ESSIV cipher of a file under the AES-128-CBC policy is keyed with
    the digest of its 16-byte key. *)
Lemma setup_crypto_transform_essiv_witness :
  let w := set_ci (insert 1%positive
                     (Ex.info_of (H:=linux_headers) Ex.policy_cbc)) empty_world in
  let r := setup_crypto_transform (H:=linux_headers) (H0:=example_crypto)
             (all_succeed Ex.keyring) 1 5 (replicate 16 x33)
             (Ex.file 13 Ex.policy_cbc) w in
  r.1 = 0
  /\ exists h c,
       w_ci r.2 !! 1%positive = Some c
       /\ ci_essiv_tfm c = Some h
       /\ w_tfm r.2 !! h =
            Some {| tfm_alg := "aes";
                    tfm_key :=
                      Some (sha256 (CryptoPrimitives:=example_crypto)
                              (replicate 16 x33));
                    tfm_weak_key := false |}
       /\ length (sha256 (CryptoPrimitives:=example_crypto) (replicate 16 x33))
          = 32%nat.
Proof.
  intros w r.
  assert (Hz : r.1 = 0) by (vm_compute; reflexivity).
  split; [exact Hz |].
  apply (proj1 (setup_crypto_transform_essiv (H:=linux_headers)
                  (H0:=example_crypto) (all_succeed Ex.keyring) 1 5
                  (replicate 16 x33) (Ex.file 13 Ex.policy_cbc) w
                  ltac:(reflexivity)
                  ltac:(vm_compute; discriminate)
                  ltac:(intros text; unfold sha256, example_crypto;
                        rewrite length_take, length_app, length_replicate;
                        vm_compute Z.to_nat; lia)
                  ltac:(by eexists))).
  exact Hz.
Defined.

Section Locator.
Context `{KernelHeaders} `{CryptoPrimitives}.

(** X7.  [find_and_lock_process_key] hands out a key exactly when the
    keyring has one under the description whose payload is well formed:
    of the size of [struct fscrypt_key], with a declared key size between
    1 and FS_MAX_KEY_SIZE and at least [min_keysize]; the key is then
    returned with its semaphore held.  Otherwise the error of the keyring
    is returned, or -ENOKEY for a revoked key or a payload that is not
    well formed, and the semaphore of the key, if it was taken, has been
    released and the key put.  When the description cannot be allocated,
    -ENOMEM is returned and the keyring is not asked. *)
Theorem find_and_lock_process_key_validates a prefix descriptor min_keysize w :
  let r := find_and_lock_process_key a prefix descriptor min_keysize w in
  let desc := key_description prefix descriptor in
  match r.1 with
  | inr (k, fk) =>
      a_kasprintf a = true /\ a_request_key a desc = inr k
      /\ (exists ukp, payload k = Some ukp /\ fk = data ukp
            /\ payload_well_formed ukp min_keysize)
      /\ r.2 = add_events [Ev_kasprintf; Ev_request_key desc;
                           Ev_kfree (Freed_description desc);
                           Ev_down_read (description k)] w
  | inl e =>
      if a_kasprintf a then
        r.2 = add_events (lookup_events a desc min_keysize) w
        /\ (a_request_key a desc = inl e
            \/ (e = - ENOKEY /\
                exists k, a_request_key a desc = inr k /\
                  forall ukp, payload k = Some ukp ->
                    ~ payload_well_formed ukp min_keysize))
      else r.2 = w /\ e = - ENOMEM
  end.
Proof.
  intros r desc. unfold r.
  apply (post_intro (find_and_lock_process_key a prefix descriptor min_keysize)
    w (fun r w' =>
      match r with
      | inr (k, fk) =>
          a_kasprintf a = true /\ a_request_key a desc = inr k
          /\ (exists ukp, payload k = Some ukp /\ fk = data ukp
                /\ payload_well_formed ukp min_keysize)
          /\ w' = add_events [Ev_kasprintf; Ev_request_key desc;
                              Ev_kfree (Freed_description desc);
                              Ev_down_read (description k)] w
      | inl e =>
          if a_kasprintf a then
            w' = add_events (lookup_events a desc min_keysize) w
            /\ (a_request_key a desc = inl e
                \/ (e = - ENOKEY /\
                    exists k, a_request_key a desc = inr k /\
                      forall ukp, payload k = Some ukp ->
                        ~ payload_well_formed ukp min_keysize))
          else w' = w /\ e = - ENOMEM
      end)).
  unfold find_and_lock_process_key, lookup_events.
  fold (key_description prefix descriptor). fold desc.
  destruct (a_kasprintf a); cbn [negb]; mstep; [| done].
  destruct (a_request_key a desc) as [e | k] eqn:Hreq; mstep.
  { autorewrite with events. split; [done | by left]. }
  destruct (payload k) as [ukp |] eqn:Hpay; mstep.
  2: { autorewrite with events. split; [done |]. right. split; [done |].
       exists k. split; [done |]. intros ukp. by rewrite Hpay. }
  destruct (negb (bool_decide (datalen ukp = sizeof_fscrypt_key))
            || (key_size (data ukp) <? 1)
            || (FS_MAX_KEY_SIZE <? key_size (data ukp))) eqn:E1; mstep.
  { autorewrite with events. split; [done |]. right. split; [done |].
    exists k. split; [done |]. intros ?. rewrite Hpay.
    intros [= <-] (Hlen & Hsize & _).
    apply orb_true_iff in E1 as [E1 | E1];
      [apply orb_true_iff in E1 as [E1 | E1] |].
    - apply negb_true_iff, bool_decide_eq_false in E1. done.
    - apply Z.ltb_lt in E1. lia.
    - apply Z.ltb_lt in E1. lia. }
  apply orb_false_elim in E1 as [E1 E3].
  apply orb_false_elim in E1 as [E0 E1].
  apply negb_false_iff, bool_decide_eq_true in E0.
  apply Z.ltb_ge in E1, E3.
  destruct (key_size (data ukp) <? min_keysize) eqn:E2; mstep.
  - apply Z.ltb_lt in E2. autorewrite with events.
    split; [done |]. right. split; [done |].
    exists k. split; [done |]. intros ?. rewrite Hpay.
    intros [= <-] (_ & _ & ?). lia.
  - apply Z.ltb_ge in E2. autorewrite with events.
    repeat split; try done. exists ukp. repeat split; try done; lia.
Qed.


(** X8.  [find_and_derive_key] after its lookup (the key with the prefix
    "fscrypt:", then, only when that gives -ENOKEY, the key with the
    prefix of the filesystem).  When the lookup fails, its error is
    returned and the buffer is left as it is.  When it finds a key, the
    semaphore of the key is released and the key is put as the last
    thing, whether the derivation succeeds or fails, and nothing else
    touches a key in between. *)
Theorem find_and_derive_key_releases_key a inode ctx derived_key mode w :
  let l := locate_master_key a inode ctx mode w in
  let r := find_and_derive_key a inode ctx derived_key mode w in
  match l.1 with
  | inl e => r = ((e, derived_key), l.2)
  | inr (k, fk) =>
      exists evs,
        Forall plain evs /\
        w_trace r.2 = w_trace l.2 ++ evs ++
          [Ev_up_read (description k); Ev_key_put (description k)]
  end.
Proof.
  intros l r. unfold l, r.
  destruct (locate_master_key a inode ctx mode w) as [[e | [k fk]] w1] eqn:Hl;
    cbn [fst snd].
  { by apply find_and_derive_key_not_located. }
  rewrite (find_and_derive_key_located _ _ _ _ _ _ _ _ _ Hl).
  match goal with |- context [bind ?m _] => assert (Hm : aside m) end.
  { asides. }
  rewrite bind_eq. destruct (Hm w1) as (_ & _ & evs & Htr & Hp).
  exists evs. split; [done |].
  rewrite !bind_eq. cbn [emit modify ret fst snd]. autorewrite with world.
  by rewrite Htr, <- !app_assoc.
Qed.

End Locator.

(** ** The table of master keys, continued *)

Section Table.
Context `{KernelHeaders} `{CryptoPrimitives}.

Lemma chain_add_events evs w b : chain (add_events evs w) b = chain w b.
Proof. unfold chain. by autorewrite with world. Qed.

Lemma in_table_add_events evs w p : in_table (add_events evs w) p <-> in_table w p.
Proof. unfold in_table. by setoid_rewrite chain_add_events. Qed.

Lemma table_wf_add_events evs w : table_wf w -> table_wf (add_events evs w).
Proof.
  intros Hwf. apply (table_wf_same_keys w); [by autorewrite with world | |
    by autorewrite with world | done].
  intros p o _ Ho. exists o. by autorewrite with world.
Qed.

(** X9.  [put_master_key] on an entry of a well-formed table keeps the
    table well formed, whether the entry stays or goes: the other entries
    stay on their chains, untouched, and each still has its live cipher
    handle. *)
Theorem put_master_key_keeps_table mk w :
  table_wf w -> in_table w mk ->
  table_wf (put_master_key mk w).2
  /\ forall q, q <> mk -> in_table w q ->
       in_table (put_master_key mk w).2 q
       /\ w_mk (put_master_key mk w).2 !! q = w_mk w !! q.
Proof.
  intros Hwf [b0 Hin].
  destruct (wf_live _ Hwf b0 mk Hin) as (o & Ho & _).
  destruct (decide (mk_refcount o - 1 = 0)) as [Hz | Hnz].
  - rewrite (put_master_key_last mk o w Ho Hz). cbn [snd].
    set (w1 := set_mk _ _).
    assert (Hchain : forall b, chain w1 b = filter (fun q => q <> mk) (chain w b)).
    { intros b. unfold chain, w1. autorewrite with world. rewrite lookup_fmap.
      by destruct (w_table w !! b). }
    assert (Hmk : forall q, q <> mk -> w_mk w1 !! q = w_mk w !! q).
    { intros q Hq. unfold w1. autorewrite with world.
      by rewrite lookup_delete_ne, lookup_alter_ne. }
    assert (Hint : forall q, in_table w1 q <-> in_table w q /\ q <> mk).
    { intros q. unfold in_table. setoid_rewrite Hchain.
      split.
      - intros [b Hb]. apply list_elem_of_filter in Hb as [Hne Hb].
        split; [by exists b | done].
      - intros [[b Hb] Hne]. exists b. by apply list_elem_of_filter. }
    assert (Htfm : forall q oq hq, in_table w1 q -> w_mk w !! q = Some oq ->
              mk_ctfm oq = Some hq -> w_tfm w1 !! hq = w_tfm w !! hq).
    { intros q oq hq Hq Hoq Hhq. apply Hint in Hq as [Hq Hne].
      unfold w1. autorewrite with world.
      destruct (mk_ctfm o) as [h |] eqn:Eh; [| done].
      rewrite lookup_delete_ne; [done |]. intros <-.
      apply Hne. apply (wf_handle_inj _ Hwf q mk oq o); try done.
      + by exists b0.
      + congruence. }
    split.
    + apply table_wf_add_events. split.
      * intros b p Hp. rewrite Hchain in Hp.
        apply list_elem_of_filter in Hp as [Hne Hp].
        rewrite (Hmk p Hne). by apply (wf_live _ Hwf).
      * intros d r m p q op oq Hp Hq. apply Hint in Hp as [Hp Hpne].
        apply Hint in Hq as [Hq Hqne]. rewrite (Hmk p Hpne), (Hmk q Hqne).
        by apply (wf_unique _ Hwf).
      * intros p op Hp. pose proof Hp as Hp'. apply Hint in Hp as [Hp Hpne].
        rewrite (Hmk p Hpne). intros Hop.
        destruct (wf_handle _ Hwf p op Hp Hop) as (h & Hh & Hlive).
        exists h. split; [done |]. by rewrite (Htfm p op h).
      * intros p q op oq Hp Hq. apply Hint in Hp as [Hp Hpne].
        apply Hint in Hq as [Hq Hqne]. rewrite (Hmk p Hpne), (Hmk q Hqne).
        by apply (wf_handle_inj _ Hwf).
    + intros q Hq Hqin. split.
      * apply in_table_add_events, Hint. done.
      * autorewrite with world. by apply Hmk.
  - rewrite (put_master_key_not_last mk o w Ho Hnz). cbn [snd].
    split.
    + apply table_wf_add_events.
      apply (table_wf_same_keys w); [by autorewrite with world | |
        by autorewrite with world | done].
      intros p op _ Hop. autorewrite with world.
      destruct (decide (p = mk)) as [-> | Hne].
      * rewrite lookup_insert_eq. eexists. split; [done |].
        assert (op = o) as -> by congruence. done.
      * rewrite lookup_insert_ne by done. by exists op.
    + intros q Hq Hqin. split.
      * apply in_table_add_events. destruct Hqin as [b Hb]. exists b.
        unfold chain in *. by autorewrite with world.
      * autorewrite with world. by rewrite lookup_insert_ne.
Qed.


(** X10.  [fscrypt_get_master_key] never returns NULL.  When it fails,
    because the entry or its cipher cannot be allocated or keyed, the
    error is returned and nothing is left behind: the table, the master
    key entries and the transforms are as before the call. *)
Theorem fscrypt_get_master_key_failure a ci mode raw_key inode w :
  let r := fscrypt_get_master_key a ci mode raw_key inode w in
  match r.1 with
  | inl e =>
      w_table r.2 = w_table w /\ w_mk r.2 = w_mk w /\ w_tfm r.2 = w_tfm w
      /\ (a_kzalloc a = false /\ e = - ENOMEM
          \/ a_kzalloc a = true /\ e <> 0 /\
             (e = a_skcipher_alloc a
              \/ a_skcipher_alloc a = 0 /\ e = a_skcipher_setkey a))
  | inr mk => is_Some mk
  end.
Proof.
  intros r. unfold r, fscrypt_get_master_key.
  rewrite bind_eq.
  destruct (search_chain (w_mk w) (ci_master_key_descriptor ci) raw_key mode
              (chain w (bucket_of (ci_master_key_descriptor ci))))
    as [p |] eqn:Hs.
  { destruct (find_or_insert_master_key_found None raw_key mode ci w p Hs)
      as (evs & ->). by cbn. }
  destruct (find_or_insert_master_key_not_found None raw_key mode ci w Hs)
    as (evs & ->). cbn [fst snd].
  destruct (a_kzalloc a) eqn:Hk; cbn [negb].
  2: { cbn. autorewrite with world. repeat split. by left. }
  rewrite !bind_eq. cbn [get modify emit mk_store fst snd].
  set (w1 := set_mk _ (set_mk _ _)).
  destruct (allocate_skcipher_for_mode a mode raw_key inode w1)
    as [[err | ctfm] w2] eqn:Ha; cbn [fst snd] in *.
  - destruct (allocate_skcipher_for_mode_failed _ _ _ _ _ _ _ Ha)
      as (Htfm & Htab & Hmk & Herr & Hwhy).
    rewrite !bind_eq. cbn [mk_store modify ret fst snd].
    set (mk := fresh (dom (w_mk (add_events evs (set_table (fun t => t) w))))) in *.
    destruct (free_master_key_eq (Some mk)
                (set_mk (alter (with_mk_ctfm None) mk) w2)) as (evs2 & ->).
    cbn [fst snd]. autorewrite with world.
    assert (Hfresh : w_mk w !! mk = None).
    { unfold mk. autorewrite with world. apply not_elem_of_dom, is_fresh. }
    rewrite Htab, Htfm, Hmk. unfold w1. autorewrite with world.
    split; [done |]. split; [| split].
    + cbn [mk_freed]. rewrite !delete_alter_eq, delete_insert_eq.
      by apply delete_id.
    + unfold handle_of. rewrite lookup_alter_eq.
      rewrite !lookup_alter_eq, lookup_insert_eq. done.
    + right. done.
  - rewrite !bind_eq. cbn [mk_store modify ret fst snd].
    match goal with |- context [find_or_insert_master_key (Some ?m) _ _ _ ?W] =>
      generalize W; intros w3; generalize m; intros mk end.
    destruct (search_chain (w_mk w3) (ci_master_key_descriptor ci) raw_key mode
                (chain w3 (bucket_of (ci_master_key_descriptor ci))))
      as [p |] eqn:Hs3.
    + destruct (find_or_insert_master_key_found (Some mk) raw_key mode ci w3 p Hs3)
        as (evs3 & ->). by cbn.
    + destruct (find_or_insert_master_key_not_found (Some mk) raw_key mode ci w3 Hs3)
        as (evs3 & ->). by cbn.
Qed.

End Table.

(** Two callers with different keys have made two entries; the entry of
    the second is put, and the entry of the first stays in the table as
    it was. *)
Lemma put_master_key_keeps_table_witness :
  let w1 :=
    (fscrypt_get_master_key (H:=linux_headers) (all_succeed Ex.keyring)
       (Ex.info_of (H:=linux_headers) Ex.policy_adiantum_direct) 9
       (replicate 32 x11) (Ex.file 11 Ex.policy_adiantum_direct)
       empty_world).2 in
  let w :=
    (fscrypt_get_master_key (H:=linux_headers) (all_succeed Ex.keyring)
       (Ex.info_of (H:=linux_headers) Ex.policy_adiantum_direct) 9
       (replicate 32 x22) (Ex.file 14 Ex.policy_adiantum_direct) w1).2 in
  (in_table w 1%positive /\ in_table w 2%positive)
  /\ table_wf (H:=linux_headers) (put_master_key 2 w).2
  /\ in_table (put_master_key 2 w).2 1%positive
  /\ ~ in_table (put_master_key 2 w).2 2%positive
  /\ w_mk (put_master_key 2 w).2 !! 1%positive = w_mk w !! 1%positive.
Proof.
  intros w1 w.
  assert (Hwf1 : table_wf (H:=linux_headers) w1).
  { destruct (fscrypt_get_master_key_ok (H:=linux_headers)
                (all_succeed Ex.keyring)
                (Ex.info_of (H:=linux_headers) Ex.policy_adiantum_direct) 9
                (replicate 32 x11) (Ex.file 11 Ex.policy_adiantum_direct)
                empty_world (table_wf_empty (H:=linux_headers)))
      as (p & o & w' & Heq & _ & _ & _ & Hwf & _);
      [vm_compute; intros Hc; discriminate Hc | reflexivity | reflexivity
      | reflexivity | vm_compute; lia |].
    replace w1 with w'; [exact Hwf |]. unfold w1. by rewrite Heq. }
  assert (Hwf : table_wf (H:=linux_headers) w).
  { destruct (fscrypt_get_master_key_ok (H:=linux_headers)
                (all_succeed Ex.keyring)
                (Ex.info_of (H:=linux_headers) Ex.policy_adiantum_direct) 9
                (replicate 32 x22) (Ex.file 14 Ex.policy_adiantum_direct)
                w1 Hwf1)
      as (p & o & w' & Heq & _ & _ & _ & Hwf & _);
      [vm_compute; intros Hc; discriminate Hc | reflexivity | reflexivity
      | reflexivity | vm_compute; lia |].
    replace w with w'; [exact Hwf |]. unfold w. by rewrite Heq. }
  assert (Hin1 : in_table w 1%positive).
  { exists 0.
    apply list_elem_of_In. vm_compute. auto. }
  assert (Hin2 : in_table w 2%positive).
  { exists 0.
    apply list_elem_of_In. vm_compute. auto. }
  destruct (put_master_key_keeps_table (H:=linux_headers) 2%positive w Hwf Hin2)
    as [Hwf' Hothers].
  destruct (Hothers 1%positive ltac:(discriminate) Hin1) as [Hin1' Hsame].
  split; [by split |]. split; [exact Hwf' |]. split; [exact Hin1' |].
  split; [| exact Hsame].
  intros [b Hb].
  destruct (wf_live _ Hwf' b _ Hb) as (o & Ho & _).
  vm_compute in Ho. discriminate Ho.
Defined.

(** ** The exports for SDP *)

Section SdpExports.
Context `{KernelHeaders} `{CryptoPrimitives}.

(** [__find_and_derive_fskey] after the lookup of the master key. *)
Lemma find_and_derive_fskey_eq a inode ctx fskey mode w :
  __find_and_derive_fskey a inode ctx fskey (keysize (available_modes mode)) w =
    match (locate_master_key a inode ctx mode w).1 with
    | inl e => ((e, fskey), (locate_master_key a inode ctx mode w).2)
    | inr (k, fk) =>
        ((0, fk),
         add_events [Ev_up_read (description k); Ev_key_put (description k)]
           (locate_master_key a inode ctx mode w).2)
    end.
Proof.
  unfold __find_and_derive_fskey.
  rewrite <- bind_assoc. fold (locate_master_key a inode ctx mode).
  rewrite bind_eq.
  destruct (locate_master_key a inode ctx mode w) as [[e | [k fk]] w1];
    cbn [fst snd]; [reflexivity |].
  mrun. cbn [fst snd]. by autorewrite with events.
Qed.


(** X11.  [fscrypt_get_encryption_kek] returns -EINVAL when it is given no
    crypto info.  For a crypto info whose modes select a mode, on an inode
    whose policy record is read and valid: if the key size of the mode
    exceeds FS_MAX_KEY_SIZE the result is -EPERM; otherwise the master
    key is looked up as [find_and_derive_key] does, with the key size of
    the mode as the least size, and when the lookup fails its error is
    returned, else the result is 0, [kek] is the payload of the key, whole
    and not derived, and the semaphore of the key is released and the key
    put.  On every path a result other than 0 leaves [kek] as it was. *)
Theorem fscrypt_get_encryption_kek_spec a inode kek w :
  fscrypt_get_encryption_kek a inode None kek w = ((- EINVAL, kek), w)
  /\ (forall p c ctx mode,
        w_ci w !! p = Some c ->
        i_get_context inode = (sizeof_fscrypt_context, ctx) ->
        0 <= sizeof_fscrypt_context ->
        policy_valid ctx ->
        selects (ci_data_mode c) (ci_filename_mode c) inode mode ->
        (FS_MAX_KEY_SIZE < keysize (available_modes mode) ->
         fscrypt_get_encryption_kek a inode (Some p) kek w =
           ((- EPERM, kek), add_events [Ev_get_context (i_ino inode)] w))
        /\ (keysize (available_modes mode) <= FS_MAX_KEY_SIZE ->
            let l := locate_master_key a inode ctx mode
                       (add_events [Ev_get_context (i_ino inode)] w) in
            fscrypt_get_encryption_kek a inode (Some p) kek w =
              match l.1 with
              | inl e => ((e, kek), l.2)
              | inr (k, fk) =>
                  ((0, fk),
                   add_events [Ev_up_read (description k);
                               Ev_key_put (description k)] l.2)
              end))
  /\ (forall crypt_info,
        (fscrypt_get_encryption_kek a inode crypt_info kek w).1.1 <> 0 ->
        (fscrypt_get_encryption_kek a inode crypt_info kek w).1.2 = kek).
Proof.
  split; [reflexivity | split].
  - intros p c ctx mode Hc Hget Hsz [Hfmt Hfl] Hsel.
    split; [intros Hbig | intros Hfit l].
    all: apply post_result; unfold fscrypt_get_encryption_kek; mstep.
    all: rewrite Hget; cbn [fst snd].
    all: replace (sizeof_fscrypt_context <? 0) with false
        by (symmetry; apply Z.ltb_ge; lia).
    all: rewrite (bool_decide_eq_true_2 (_ = _)) by done; cbn [negb].
    all: rewrite (bool_decide_eq_true_2 _ Hfmt), (bool_decide_eq_true_2 _ Hfl).
    all: cbn [negb]; mstep; autorewrite with world; rewrite Hc.
    all: cbn [default from_option id].
    all: eapply post_eq; [by apply select_encryption_mode_selects |]; mstep.
    + replace (FS_MAX_KEY_SIZE <? keysize (available_modes mode)) with true
        by (symmetry; apply Z.ltb_lt; lia).
      mstep. reflexivity.
    + replace (FS_MAX_KEY_SIZE <? keysize (available_modes mode)) with false
        by (symmetry; apply Z.ltb_ge; lia).
      apply post_run. rewrite find_and_derive_fskey_eq. fold l.
      by destruct l.1 as [e | [k fk]].
  - intros crypt_info.
    apply (post_intro (fscrypt_get_encryption_kek a inode crypt_info kek) w
      (fun r _ => r.1 <> 0 -> r.2 = kek)).
    unfold fscrypt_get_encryption_kek.
    destruct crypt_info as [p |]; mstep; [| done].
    repeat match goal with
           | |- post (if ?b then _ else _) _ _ => destruct b; mstep
           end; try done.
    apply post_run.
    destruct (select_encryption_mode _ inode _) as [[e | mode] w1];
      cbn [fst snd]; mstep; [done |].
    destruct (FS_MAX_KEY_SIZE <? keysize (available_modes mode)); mstep;
      [done |].
    apply post_run. rewrite find_and_derive_fskey_eq.
    by destruct (locate_master_key _ _ _ _ _).1 as [e | [k fk]].
Qed.

(** X12.  [fscrypt_get_encryption_key_classified] on a file that the SDP
    provider holds to be neither uninitialized, nor sensitive, nor native:
    no key is derived, the result is 0 all the same, and [key] gets the key
    size of the mode and, in [raw], the bytes that the buffer from kmalloc
    happened to hold. *)
Theorem classified_key_of_unclassified_file a inode key w p c ctx mode :
  w_i_crypt_info w !! i_ino inode = Some p ->
  w_ci w !! p = Some c ->
  i_get_context inode = (sizeof_fscrypt_context, ctx) ->
  0 <= sizeof_fscrypt_context ->
  policy_valid ctx ->
  selects (ci_data_mode c) (ci_filename_mode c) inode mode ->
  keysize (available_modes mode) <= FS_MAX_KEY_SIZE ->
  a_kmalloc a = true ->
  a_sdp_is_uninitialized a = false ->
  a_sdp_is_sensitive a = false ->
  a_sdp_is_native a = false ->
  fscrypt_get_encryption_key_classified a inode key w =
    ((0, exported_key key
           (uninitialized (a_kmalloc_garbage a) (keysize (available_modes mode)))
           mode),
     add_events
       [Ev_get_context (i_ino inode);
        Ev_kmalloc (keysize (available_modes mode));
        Ev_kfree (Freed_buffer
                    (zeros (Z.to_nat (keysize (available_modes mode)))))] w).
Proof.
  intros Hslot Hc Hget Hsz [Hfmt Hfl] Hsel Hfit Hkmalloc Hun Hse Hna.
  apply post_result; unfold fscrypt_get_encryption_key_classified; mstep.
  rewrite Hslot; mstep; rewrite Hget; cbn [fst snd].
  replace (sizeof_fscrypt_context <? 0) with false
    by (symmetry; apply Z.ltb_ge; lia).
  rewrite (bool_decide_eq_true_2 (_ = _)) by done; cbn [negb].
  rewrite (bool_decide_eq_true_2 _ Hfmt), (bool_decide_eq_true_2 _ Hfl).
  cbn [negb]; mstep; autorewrite with world; rewrite Hc.
  cbn [default from_option id].
  eapply post_eq; [by apply select_encryption_mode_selects |]; mstep.
  replace (FS_MAX_KEY_SIZE <? keysize (available_modes mode)) with false
    by (symmetry; apply Z.ltb_ge; lia).
  rewrite Hkmalloc. cbn [negb]. mstep. autorewrite with events.
  unfold derive_fek. rewrite Hun, Hse, Hna. mstep. cbn [fst snd].
  rewrite (bool_decide_eq_true_2 (0 = 0)) by done. cbn [negb].
  unfold kzfree. mstep. rewrite memset_all, length_uninitialized.
  autorewrite with events. reflexivity.
Qed.

(** X13.  On every path of [fscrypt_get_encryption_key_classified]: a
    result other than 0 leaves [key] as it was; the call changes nothing
    but the trace; the keyring is never asked; and once the temporary
    buffer has been allocated, the last thing done is to free it,
    cleared. *)
Theorem fscrypt_get_encryption_key_classified_paths a inode key w :
  let r := fscrypt_get_encryption_key_classified a inode key w in
  (r.1.1 <> 0 -> r.1.2 = key)
  /\ exists evs,
       r.2 = add_events evs w
       /\ (forall d, Ev_request_key d ∉ evs)
       /\ buffer_cleared evs.
Proof.
  intros r. unfold r.
  apply (post_intro (fscrypt_get_encryption_key_classified a inode key) w
    (fun r w' =>
       (r.1 <> 0 -> r.2 = key)
       /\ exists evs,
            w' = add_events evs w
            /\ (forall d, Ev_request_key d ∉ evs)
            /\ buffer_cleared evs)).
  unfold fscrypt_get_encryption_key_classified, select_encryption_mode,
    derive_fek, kzfree, ci_load.
  mstep.
  destruct (w_i_crypt_info w !! i_ino inode) as [p |]; mstep.
  2: { split; [done |]. exists []. rewrite add_events_nil.
       split; [done |]. split; [intros d Hd; mem_hyp |].
       intros [n Hn]. mem_hyp. }
  repeat match goal with
         | |- post (if ?b then _ else _) _ _ => destruct b eqn:?; mstep
         end.
  all: autorewrite with events.
  all: (split;
    [ try done; intros Hne; exfalso;
      match goal with
      | Hb : negb (bool_decide (_ = 0)) = false |- _ =>
          apply negb_false_iff, bool_decide_eq_true in Hb; by apply Hne
      end |]).
  all: eexists; (split; [reflexivity |]); cbn [app].
  all: (split; [intros d Hd; mem_hyp |]).
  all: try (intros [n Hn]; mem_hyp; fail).
  all: rewrite memset_all.
  all: first [ apply (buffer_cleared_snoc [_; _])
             | apply (buffer_cleared_snoc [_; _; _]) ].
Qed.

End SdpExports.

Lemma classified_key_of_unclassified_file_witness :
  let w := (fscrypt_get_encryption_info (H:=linux_headers) (H0:=example_crypto)
              (all_succeed Ex.keyring) (Ex.file 10 Ex.policy_xts) empty_world).2 in
  let key := {| key_mode := 0; key_raw := replicate 64 xff; key_size := 0 |} in
  fscrypt_get_encryption_key_classified (H:=linux_headers)
    (all_succeed Ex.keyring) (Ex.file 10 Ex.policy_xts) key w
  = ((0, {| key_mode := 0; key_raw := zeros 64; key_size := 64 |}),
     add_events [Ev_get_context 10; Ev_kmalloc 64;
                 Ev_kfree (Freed_buffer (zeros 64))] w).
Proof.
  intros w key.
  apply (classified_key_of_unclassified_file (H:=linux_headers)
           (all_succeed Ex.keyring) (Ex.file 10 Ex.policy_xts) key w
           1%positive
           (default (zero_crypt_info (H:=linux_headers)) (w_ci w !! 1%positive))
           Ex.policy_xts 1).
  - vm_compute. reflexivity.
  - vm_compute. reflexivity.
  - vm_compute. reflexivity.
  - vm_compute. discriminate.
  - split; vm_compute; reflexivity.
  - split; [vm_compute; reflexivity |]. left.
    split; [vm_compute; reflexivity |].
    split; [left; vm_compute; reflexivity | vm_compute; reflexivity].
  - vm_compute. discriminate.
  - reflexivity.
  - reflexivity.
  - reflexivity.
  - reflexivity.
Defined.

Section EssivHash.
Context `{KernelHeaders} `{CryptoPrimitives}.

(** [fscrypt_essiv_cleanup] destroys the hash transform, if there is
    one. *)
Lemma fscrypt_essiv_cleanup_tfm w :
  w_tfm (fscrypt_essiv_cleanup w).2 = tfm_freed (w_essiv_hash_tfm w) (w_tfm w).
Proof.
  unfold fscrypt_essiv_cleanup, crypto_free. mrun.
  destruct (w_essiv_hash_tfm w); cbn [fst snd tfm_freed];
    by autorewrite with world.
Qed.

(** X14.  The hash transform of ESSIV is set up on demand and once.  When
    it exists, [derive_essiv_salt] uses it and allocates nothing.  When it
    does not exist, a "sha256" transform is allocated and becomes the hash
    transform, or else the error of the allocation is returned and the
    salt is not written; and [fscrypt_essiv_cleanup] after the call leaves
    the transforms as they were before it. *)
Theorem essiv_hash_tfm_on_demand a key keysize salt w :
  let r := derive_essiv_salt a key keysize salt w in
  match w_essiv_hash_tfm w with
  | Some h =>
      w_essiv_hash_tfm r.2 = Some h /\ w_tfm r.2 = w_tfm w
  | None =>
      (if bool_decide (a_shash_alloc a = 0) then
         w_essiv_hash_tfm r.2 = Some (fresh (dom (w_tfm w)))
         /\ w_tfm r.2 = <[fresh (dom (w_tfm w)) := new_tfm "sha256"]> (w_tfm w)
       else
         w_essiv_hash_tfm r.2 = None /\ w_tfm r.2 = w_tfm w
         /\ r.1 = (a_shash_alloc a, salt))
      /\ w_tfm (fscrypt_essiv_cleanup r.2).2 = w_tfm w
  end.
Proof.
  intros r. unfold r.
  assert (Hfresh : w_tfm w !! fresh (dom (w_tfm w)) = None)
    by apply not_elem_of_dom, is_fresh.
  apply (post_intro (derive_essiv_salt a key keysize salt) w
    (fun r w' =>
       match w_essiv_hash_tfm w with
       | Some h => w_essiv_hash_tfm w' = Some h /\ w_tfm w' = w_tfm w
       | None =>
           (if bool_decide (a_shash_alloc a = 0) then
              w_essiv_hash_tfm w' = Some (fresh (dom (w_tfm w)))
              /\ w_tfm w'
                 = <[fresh (dom (w_tfm w)) := new_tfm "sha256"]> (w_tfm w)
            else
              w_essiv_hash_tfm w' = None /\ w_tfm w' = w_tfm w
              /\ r = (a_shash_alloc a, salt))
           /\ w_tfm (fscrypt_essiv_cleanup w').2 = w_tfm w
       end)).
  unfold derive_essiv_salt, crypto_alloc, crypto_free.
  mstep.
  destruct (w_essiv_hash_tfm w) as [h |] eqn:Eh; mstep.
  { destruct (bool_decide (a_shash_digest a = 0)); mstep;
      by autorewrite with world. }
  case_bool_decide as Halloc; mstep; autorewrite with world.
  2: { rewrite fscrypt_essiv_cleanup_tfm. autorewrite with world.
       by rewrite Eh. }
  rewrite Eh. mstep.
  destruct (bool_decide (a_shash_digest a = 0)); mstep; autorewrite with world.
  all: (split; [done |]).
  all: rewrite fscrypt_essiv_cleanup_tfm; autorewrite with world.
  all: cbn [tfm_freed]; rewrite delete_insert_eq; by apply delete_id.
Qed.

End EssivHash.

(** The export of the master key hands out the key of the keyring, where
    [fscrypt_get_encryption_key] hands out the key derived from it. *)
Example fscrypt_get_encryption_kek_example :
  let w := (fscrypt_get_encryption_info (H:=linux_headers) (H0:=example_crypto)
              (all_succeed Ex.keyring) (Ex.file 10 Ex.policy_xts) empty_world).2 in
  (fscrypt_get_encryption_kek (H:=linux_headers)
     (all_succeed Ex.keyring) (Ex.file 10 Ex.policy_xts) (Some 1%positive)
     {| key_mode := 0; key_raw := zeros 64; key_size := 0 |} w).1
  = (0, {| key_mode := 0; key_raw := replicate 64 x11; key_size := 64 |}).
Proof. vm_compute. reflexivity. Qed.

(** ** A reference to a master key, taken and dropped *)

Section RoundTrip.
Context `{KernelHeaders} `{CryptoPrimitives}.

(** [allocate_skcipher_for_mode] hands out a cipher only when the
    allocation and the setting of the key succeed. *)
Lemma allocate_skcipher_for_mode_done a mode raw_key inode w h w' :
  allocate_skcipher_for_mode a mode raw_key inode w = (inr h, w') ->
  a_skcipher_alloc a = 0 /\ a_skcipher_setkey a = 0.
Proof.
  intros Heq.
  pose proof (post_intro (allocate_skcipher_for_mode a mode raw_key inode) w
    (fun r _ =>
       match r with
       | inl _ => True
       | inr _ => a_skcipher_alloc a = 0 /\ a_skcipher_setkey a = 0
       end)) as Hp.
  rewrite Heq in Hp. apply Hp. clear Hp Heq.
  unfold allocate_skcipher_for_mode, crypto_alloc, crypto_set_weak_key,
    crypto_setkey, crypto_free.
  case_bool_decide as Halloc; mstep; [| done].
  destruct (bool_decide (mode ∈ _)); cbn [negb]; mstep.
  all: destruct (decide (a_skcipher_setkey a = 0)) as [Hkey | Hkey];
    [ rewrite !(bool_decide_eq_true_2 _ Hkey); mstep;
      rewrite !(bool_decide_eq_true_2 _ Hkey)
    | rewrite !(bool_decide_eq_false_2 _ Hkey); mstep;
      rewrite !(bool_decide_eq_false_2 _ Hkey) ];
    cbn [negb]; mstep; done.
Qed.

Lemma with_refcount_back o :
  with_refcount (mk_refcount o + 1 - 1) (with_refcount (mk_refcount o + 1) o) = o.
Proof. destruct o. unfold with_refcount. cbn. f_equal. lia. Qed.

Lemma filter_not_in (mk : ptr) (l : list ptr) :
  mk ∉ l -> filter (fun q => q <> mk) l = l.
Proof.
  induction l as [| q l IH]; [done |]. intros Hn.
  apply not_elem_of_cons in Hn as [Hne Hn].
  rewrite filter_cons_True by done. by rewrite IH.
Qed.

(** X15.  In a well-formed table whose entries are referenced,
    [fscrypt_get_master_key] followed by [put_master_key] on the entry it
    returned leaves everything as it was: the chains of the table, the
    master key entries with their reference counts, and the transforms.
    This holds both when an entry is found and when a new entry, with a
    new cipher, is made, inserted and then dropped again. *)
Theorem get_then_put_master_key a ci mode raw_key inode w :
  table_wf w ->
  (forall q o, in_table w q -> w_mk w !! q = Some o -> mk_refcount o <> 0) ->
  let r := fscrypt_get_master_key a ci mode raw_key inode w in
  match r.1 with
  | inr (Some mk) =>
      let w' := (put_master_key mk r.2).2 in
      (forall b, chain w' b = chain w b)
      /\ w_mk w' = w_mk w /\ w_tfm w' = w_tfm w
  | inr None => False
  | inl _ => True
  end.
Proof.
  intros Hwf Hrc r. unfold r, fscrypt_get_master_key.
  rewrite bind_eq.
  destruct (search_chain (w_mk w) (ci_master_key_descriptor ci) raw_key mode
              (chain w (bucket_of (ci_master_key_descriptor ci))))
    as [p |] eqn:Hs.
  { destruct (find_or_insert_master_key_found None raw_key mode ci w p Hs)
      as (evs & ->). cbn [fst snd ret].
    destruct (search_chain_Some _ _ _ _ _ _ Hs) as (Hin & o & Ho & _).
    erewrite put_master_key_not_last.
    2: { autorewrite with world. cbn [mk_freed].
         rewrite lookup_alter_eq, Ho. reflexivity. }
    2: { cbn. apply (Hrc p o) in Ho; [lia | by eexists]. }
    cbn [snd]. split; [| split].
    - intros b. unfold chain. by autorewrite with world.
    - autorewrite with world. cbn [mk_freed].
      change (mk_refcount (with_refcount (mk_refcount o + 1) o))
        with (mk_refcount o + 1).
      rewrite with_refcount_back.
      rewrite insert_alter_eq. by apply insert_id.
    - autorewrite with world. by cbn. }
  destruct (find_or_insert_master_key_not_found None raw_key mode ci w Hs)
    as (evs & ->). cbn [fst snd].
  destruct (a_kzalloc a) eqn:Hk; cbn [negb]; [| done].
  rewrite !bind_eq. cbn [get modify emit mk_store fst snd].
  autorewrite with world.
  set (mk := fresh (dom (w_mk w))).
  assert (Hfresh : w_mk w !! mk = None) by apply not_elem_of_dom, is_fresh.
  assert (Hnotin : forall b, mk ∉ chain w b).
  { intros b Hin. destruct (wf_live _ Hwf b mk Hin) as (o & Ho & _).
    by rewrite Hfresh in Ho. }
  set (w1 := set_mk _ (set_mk _ _)).
  assert (Hmk1 : w_mk w1
            = alter (with_mk_mode (Some mode)) mk
                (alter (with_refcount 1) mk (<[mk := zero_master_key]> (w_mk w))))
    by (unfold w1; by autorewrite with world).
  assert (Htab1 : w_table w1 = w_table w)
    by (unfold w1; by autorewrite with world).
  assert (Htfm1 : w_tfm w1 = w_tfm w)
    by (unfold w1; by autorewrite with world).
  clearbody w1.
  destruct (allocate_skcipher_for_mode a mode raw_key inode w1)
    as [[err | ctfm] w2] eqn:Ha; cbn [fst snd] in *.
  { rewrite !bind_eq. cbn [mk_store modify ret fst snd]. done. }
  destruct (allocate_skcipher_for_mode_done _ _ _ _ _ _ _ Ha) as [Hal Hsk].
  destruct (allocate_skcipher_for_mode_ok a mode raw_key inode w1 Hal Hsk)
    as (w2' & Ha' & Htab & Hmk & _ & _ & _ & Htfm).
  rewrite Ha in Ha'. injection Ha' as -> <-.
  rewrite Htab1 in Htab. rewrite Hmk1 in Hmk. rewrite Htfm1 in Htfm |- *.
  set (h := fresh (dom (w_tfm w))) in *.
  assert (Hh : w_tfm w !! h = None) by apply not_elem_of_dom, is_fresh.
  clear Ha Hmk1 Htab1. clearbody h.
  rewrite !bind_eq. cbn [mk_store modify ret fst snd].
  match goal with |- context [find_or_insert_master_key _ _ _ _ ?W] =>
    set (w3 := W) end.
  assert (Htab3 : w_table w3 = w_table w)
    by (unfold w3; autorewrite with world; done).
  assert (Htfm3 : w_tfm w3 = w_tfm w2)
    by (unfold w3; autorewrite with world; done).
  assert (Hmk3 : forall q, q <> mk -> w_mk w3 !! q = w_mk w !! q).
  { intros q Hq. unfold w3. autorewrite with world. rewrite Hmk.
    by rewrite !lookup_alter_ne, lookup_insert_ne. }
  assert (Hent : exists o, w_mk w3 !! mk = Some o /\ mk_refcount o = 1
                           /\ mk_ctfm o = Some h).
  { unfold w3. autorewrite with world. rewrite Hmk.
    rewrite !lookup_alter_eq, lookup_insert_eq. cbn. by eexists. }
  assert (Hdel : delete mk (w_mk w3) = w_mk w).
  { unfold w3. autorewrite with world. rewrite Hmk.
    rewrite !delete_alter_eq, delete_insert_eq. by apply delete_id. }
  clearbody w3.
  assert (Hs3 : search_chain (w_mk w3) (ci_master_key_descriptor ci) raw_key
                  mode (chain w3 (bucket_of (ci_master_key_descriptor ci)))
                = None).
  { unfold chain. rewrite Htab3. fold (chain w (bucket_of (ci_master_key_descriptor ci))).
    rewrite <- Hs. apply search_chain_ext. intros q Hq. apply Hmk3.
    intros ->. by apply (Hnotin _ Hq). }
  destruct (find_or_insert_master_key_not_found (Some mk) raw_key mode ci w3 Hs3)
    as (evs3 & ->). cbn [fst snd].
  destruct Hent as (o & Ho & Hone & Hctfm).
  erewrite (put_master_key_last mk o).
  2: { by autorewrite with world. }
  2: { rewrite Hone. reflexivity. }
  cbn [snd]. rewrite Hctfm. split; [| split].
  - intros b. unfold chain. autorewrite with world. rewrite Htab3.
    rewrite lookup_fmap.
    destruct (decide (b = bucket_of (ci_master_key_descriptor ci))) as [-> | Hb].
    + rewrite lookup_insert_eq. cbn [fmap option_fmap option_map default].
      rewrite filter_cons_False by (intros Hc; by apply Hc).
      apply filter_not_in, Hnotin.
    + rewrite lookup_insert_ne by done.
      pose proof (Hnotin b) as Hn. unfold chain in Hn.
      destruct (w_table w !! b) as [l |]; cbn in *; [| done].
      by apply filter_not_in.
  - autorewrite with world. by rewrite delete_alter_eq.
  - autorewrite with world. rewrite Htfm3, Htfm, delete_insert_eq.
    by apply delete_id.
Qed.

End RoundTrip.

(** A second caller of the key of the example finds the entry of the
    first, takes a reference and drops it again. *)
Lemma get_then_put_master_key_witness :
  let w := (fscrypt_get_master_key (H:=linux_headers) (all_succeed Ex.keyring)
              (Ex.info_of (H:=linux_headers) Ex.policy_adiantum_direct) 9
              (replicate 32 x11) (Ex.file 11 Ex.policy_adiantum_direct)
              empty_world).2 in
  let r := fscrypt_get_master_key (H:=linux_headers) (all_succeed Ex.keyring)
             (Ex.info_of (H:=linux_headers) Ex.policy_adiantum_direct) 9
             (replicate 32 x11) (Ex.file 14 Ex.policy_adiantum_direct) w in
  match r.1 with
  | inr (Some mk) =>
      let w' := (put_master_key mk r.2).2 in
      (forall b, chain w' b = chain w b)
      /\ w_mk w' = w_mk w /\ w_tfm w' = w_tfm w
  | inr None => False
  | inl _ => True
  end.
Proof.
  intros w.
  apply (get_then_put_master_key (H:=linux_headers) (all_succeed Ex.keyring)
           (Ex.info_of (H:=linux_headers) Ex.policy_adiantum_direct) 9
           (replicate 32 x11) (Ex.file 14 Ex.policy_adiantum_direct) w).
  - destruct (fscrypt_get_master_key_ok (H:=linux_headers)
                (all_succeed Ex.keyring)
                (Ex.info_of (H:=linux_headers) Ex.policy_adiantum_direct) 9
                (replicate 32 x11) (Ex.file 11 Ex.policy_adiantum_direct)
                empty_world (table_wf_empty (H:=linux_headers)))
      as (p & o & w' & Heq & _ & _ & _ & Hwf & _);
      [vm_compute; intros Hc; discriminate Hc | reflexivity | reflexivity
      | reflexivity | vm_compute; lia |].
    replace w with w'; [exact Hwf |].
    unfold w. by rewrite Heq.
  - assert (Hall : map_Forall (fun _ l => l = [1%positive]) (w_table w))
      by (refine (bool_decide_unpack _ _); vm_compute; exact I).
    intros q o [b Hb] Ho. unfold chain in Hb.
    destruct (w_table w !! b) as [l |] eqn:El;
      [| by apply elem_of_nil in Hb].
    rewrite (Hall _ _ El) in Hb. apply list_elem_of_singleton in Hb as ->.
    vm_compute in Ho. injection Ho as <-. discriminate.
Defined.

(** ** The discipline of the keyring *)

Section Keys.

Lemma keys_in_use_app evs1 evs2 st :
  keys_in_use (evs1 ++ evs2) st
  = match keys_in_use evs1 st with
    | Some st' => keys_in_use evs2 st'
    | None => None
    end.
Proof.
  revert st. induction evs1 as [| e evs1 IH]; intros st; [done |].
  destruct e; cbn [app keys_in_use]; try apply IH.
  all: destruct st as [| [d' []] st']; try done.
  all: by destruct (bool_decide _).
Qed.

Lemma keys_in_use_plain evs st : Forall plain evs -> keys_in_use evs st = Some st.
Proof.
  induction 1 as [| e evs He _ IH]; [done |].
  by destruct e; cbn [keys_in_use]; try apply IH.
Qed.

Lemma releases_keys_ret {A} (x : A) : releases_keys (ret x).
Proof. intros w. exists []. by rewrite app_nil_r. Qed.

Lemma releases_keys_get : releases_keys get.
Proof. intros w. exists []. by rewrite app_nil_r. Qed.

Lemma releases_keys_emit e :
  match e with
  | Ev_down_read _ | Ev_up_read _ | Ev_key_put _ => False
  | _ => True
  end ->
  releases_keys (emit e).
Proof.
  intros He w. exists [e]. cbn. autorewrite with world. split; [done |].
  intros st. by destruct e.
Qed.

Lemma releases_keys_modify f :
  (forall w, w_trace (f w) = w_trace w) -> releases_keys (modify f).
Proof. intros Hf w. exists []. cbn. by rewrite Hf, app_nil_r. Qed.

Lemma releases_keys_bind {A B} (m : M A) (k : A -> M B) :
  releases_keys m -> (forall x, releases_keys (k x)) -> releases_keys (bind m k).
Proof.
  intros Hm Hk w. rewrite bind_eq.
  destruct (Hm w) as (e1 & T1 & K1).
  destruct (Hk (m w).1 (m w).2) as (e2 & T2 & K2).
  exists (e1 ++ e2). split; [by rewrite T2, T1, app_assoc |].
  intros st. by rewrite keys_in_use_app, K1.
Qed.

Lemma releases_keys_when b m : releases_keys m -> releases_keys (when b m).
Proof. intros Hm. destruct b; [done | apply releases_keys_ret]. Qed.

Lemma releases_keys_aside {A} (m : M A) : aside m -> releases_keys m.
Proof.
  intros Hm w. destruct (Hm w) as (_ & _ & evs & Ht & Hp).
  exists evs. split; [done |]. intros st. by apply keys_in_use_plain.
Qed.

End Keys.

Ltac keys_step :=
  lazymatch goal with
  | |- releases_keys (bind _ _) => apply releases_keys_bind; [| intros ?]
  | |- releases_keys (ret _) => apply releases_keys_ret
  | |- releases_keys (emit _) => apply releases_keys_emit; exact I
  | |- releases_keys get => apply releases_keys_get
  | |- releases_keys (when _ _) => apply releases_keys_when
  | |- releases_keys (ci_store _ _) =>
      apply releases_keys_modify; intros ?; autorewrite with world; done
  | |- releases_keys (ci_load _) => unfold ci_load
  | |- releases_keys (modify _) =>
      apply releases_keys_modify; intros ?; autorewrite with world; done
  | |- releases_keys (match ?x with _ => _ end) => destruct x
  | |- releases_keys (let (_, _) := ?x in _) => destruct x
  end.

Create HintDb keys.

Ltac keys :=
  repeat first [ keys_step
               | solve [auto with keys nocore]
               | solve [apply releases_keys_aside; asides] ].

Section KeysCode.
Context `{KernelHeaders} `{CryptoPrimitives}.

(** [find_and_lock_process_key] takes the key that it returns, and no
    other. *)
Lemma find_and_lock_process_key_keys a prefix descriptor min_keysize w :
  exists evs,
    w_trace (find_and_lock_process_key a prefix descriptor min_keysize w).2
    = w_trace w ++ evs
    /\ forall st,
         keys_in_use evs st =
           Some match (find_and_lock_process_key a prefix descriptor
                         min_keysize w).1 with
                | inr (k, _) => (description k, true) :: st
                | inl _ => st
                end.
Proof.
  apply (post_intro (find_and_lock_process_key a prefix descriptor min_keysize)
    w (fun r w' =>
      exists evs, w_trace w' = w_trace w ++ evs
        /\ forall st, keys_in_use evs st =
             Some match r with
                  | inr (k, _) => (description k, true) :: st
                  | inl _ => st
                  end)).
  unfold find_and_lock_process_key.
  destruct (a_kasprintf a); cbn [negb]; mstep.
  2: { exists []. by rewrite app_nil_r. }
  destruct (a_request_key a _) as [e | k]; mstep.
  2: destruct (payload k) as [ukp |]; mstep.
  2: destruct (_ || _); mstep.
  3: destruct (_ <? _); mstep.
  all: autorewrite with events world; eexists; (split; [reflexivity |]).
  all: intros st; cbn [app keys_in_use].
  all: by rewrite ?bool_decide_eq_true_2.
Qed.

Lemma releases_keys_find_and_derive_key a inode ctx derived_key mode :
  releases_keys (find_and_derive_key a inode ctx derived_key mode).
Proof.
  assert (Hloc : forall w, exists evs,
    w_trace (locate_master_key a inode ctx mode w).2 = w_trace w ++ evs
    /\ forall st,
         keys_in_use evs st =
           Some match (locate_master_key a inode ctx mode w).1 with
                | inr (k, _) => (description k, true) :: st
                | inl _ => st
                end).
  { intros w. unfold locate_master_key. rewrite bind_eq.
    destruct (find_and_lock_process_key_keys a FS_KEY_DESC_PREFIX
                (master_key_descriptor ctx) (keysize (available_modes mode)) w)
      as (e1 & T1 & K1).
    destruct (find_and_lock_process_key a FS_KEY_DESC_PREFIX _ _ w)
      as [[e | [k fk]] w1]; cbn [fst snd] in *.
    2: { exists e1. by split. }
    destruct (s_cop_key_prefix (i_sb inode)) as [prefix |].
    2: { exists e1. by split. }
    destruct (bool_decide (e = - ENOKEY)).
    2: { exists e1. by split. }
    destruct (find_and_lock_process_key_keys a prefix
                (master_key_descriptor ctx) (keysize (available_modes mode)) w1)
      as (e2 & T2 & K2).
    exists (e1 ++ e2). split; [by rewrite T2, T1, app_assoc |].
    intros st. by rewrite keys_in_use_app, K1, K2. }
  intros w. destruct (Hloc w) as (e1 & T1 & K1).
  destruct (locate_master_key a inode ctx mode w) as [[e | [k fk]] w1] eqn:Hl;
    cbn [fst snd] in *.
  { rewrite (find_and_derive_key_not_located _ _ _ _ _ _ _ _ Hl).
    exists e1. by split. }
  rewrite (find_and_derive_key_located _ _ _ _ _ _ _ _ _ Hl).
  match goal with |- context [bind ?m _] => assert (Hm : aside m) end.
  { asides. }
  rewrite bind_eq. destruct (Hm w1) as (_ & _ & e2 & T2 & P2).
  exists (e1 ++ e2 ++ [Ev_up_read (description k); Ev_key_put (description k)]).
  split.
  { rewrite !bind_eq. cbn [emit modify ret fst snd]. autorewrite with world.
    by rewrite T2, T1, <- !app_assoc. }
  intros st. rewrite keys_in_use_app, K1, keys_in_use_app.
  rewrite (keys_in_use_plain _ _ P2). cbn [keys_in_use].
  by rewrite !bool_decide_eq_true_2.
Qed.

#[local] Hint Resolve releases_keys_find_and_derive_key : keys.

Lemma releases_keys_find_and_derive_fskey a inode ctx fskey min_keysize :
  releases_keys (__find_and_derive_fskey a inode ctx fskey min_keysize).
Proof.
  intros w. unfold __find_and_derive_fskey. rewrite bind_eq.
  destruct (find_and_lock_process_key_keys a FS_KEY_DESC_PREFIX
              (master_key_descriptor ctx) min_keysize w) as (e1 & T1 & K1).
  destruct (find_and_lock_process_key a FS_KEY_DESC_PREFIX _ _ w)
    as [[e | [k fk]] w1]; cbn [fst snd] in *.
  - destruct (s_cop_key_prefix (i_sb inode)) as [prefix |].
    2: { exists e1. by split. }
    destruct (bool_decide (e = - ENOKEY)).
    2: { exists e1. by split. }
    rewrite bind_eq.
    destruct (find_and_lock_process_key_keys a prefix
                (master_key_descriptor ctx) min_keysize w1) as (e2 & T2 & K2).
    destruct (find_and_lock_process_key a prefix _ _ w1)
      as [[e' | [k fk]] w2]; cbn [fst snd] in *.
    + exists (e1 ++ e2). cbn [ret fst snd].
      split; [by rewrite T2, T1, app_assoc |].
      intros st. by rewrite keys_in_use_app, K1, K2.
    + exists (e1 ++ e2 ++
              [Ev_up_read (description k); Ev_key_put (description k)]).
      split.
      { repeat (rewrite ?bind_eq; progress cbn [emit modify ret fst snd]).
        autorewrite with world. by rewrite T2, T1, <- !app_assoc. }
      intros st. rewrite keys_in_use_app, K1, keys_in_use_app, K2.
      cbn [keys_in_use]. by rewrite !bool_decide_eq_true_2.
  - exists (e1 ++ [Ev_up_read (description k); Ev_key_put (description k)]).
    split.
    { repeat (rewrite ?bind_eq; progress cbn [emit modify ret fst snd]).
      autorewrite with world. by rewrite T1, <- !app_assoc. }
    intros st. rewrite keys_in_use_app, K1.
    cbn [keys_in_use]. by rewrite !bool_decide_eq_true_2.
Qed.
#[local] Hint Resolve releases_keys_find_and_derive_fskey : keys.

Lemma releases_keys_init_essiv_generator a ci raw_key keysize :
  releases_keys (init_essiv_generator a ci raw_key keysize).
Proof. unfold init_essiv_generator. keys. Qed.
#[local] Hint Resolve releases_keys_init_essiv_generator : keys.

Lemma releases_keys_setup_crypto_transform a ci mode raw_key inode :
  releases_keys (setup_crypto_transform a ci mode raw_key inode).
Proof. unfold setup_crypto_transform. keys. Qed.

Lemma releases_keys_get_raw_key a inode ctx p raw_key mode :
  releases_keys (get_raw_key a inode ctx p raw_key mode).
Proof. unfold get_raw_key. keys. Qed.
#[local] Hint Resolve releases_keys_setup_crypto_transform
  releases_keys_get_raw_key : keys.

Lemma releases_keys_build_crypt_info a inode ctx p :
  releases_keys (build_crypt_info a inode ctx p).
Proof. unfold build_crypt_info. keys. Qed.

Lemma releases_keys_put_crypt_info ci : releases_keys (put_crypt_info ci).
Proof. unfold put_crypt_info. keys. Qed.
#[local] Hint Resolve releases_keys_build_crypt_info
  releases_keys_put_crypt_info : keys.

(** X16.  The exported functions leave no key in use.  Whatever the
    services answer, the events of a call of
    [fscrypt_get_encryption_info], [fscrypt_put_encryption_info],
    [fscrypt_get_encryption_key],
    [fscrypt_get_encryption_key_classified] or
    [fscrypt_get_encryption_kek] keep the discipline of the keyring: the
    semaphore of every key that has been looked up is released, the key
    is put after that, both by the time the function returns, and no
    semaphore is released and no key put that the call has not taken. *)
Theorem exported_functions_release_keys a inode key crypt_info :
  releases_keys (fscrypt_get_encryption_info a inode)
  /\ releases_keys (fscrypt_put_encryption_info inode)
  /\ releases_keys (fscrypt_get_encryption_key a inode key)
  /\ releases_keys (fscrypt_get_encryption_key_classified a inode key)
  /\ releases_keys (fscrypt_get_encryption_kek a inode crypt_info key).
Proof.
  repeat split.
  - unfold fscrypt_get_encryption_info, fscrypt_has_encryption_key,
      install_crypt_info, cmpxchg_release, leave_get_encryption_info.
    keys.
  - unfold fscrypt_put_encryption_info. keys.
  - unfold fscrypt_get_encryption_key. keys.
  - unfold fscrypt_get_encryption_key_classified. keys.
  - unfold fscrypt_get_encryption_kek. keys.
Qed.

End KeysCode.

(** A key that is put while its semaphore is held does not fit, nor does
    a key that stays locked. *)
Example keys_in_use_example :
  keys_in_use [Ev_down_read "fscrypt:00"; Ev_key_put "fscrypt:00"] [] = None
  /\ keys_in_use [Ev_down_read "fscrypt:00"] [] = Some [("fscrypt:00", true)]
  /\ keys_in_use [Ev_down_read "fscrypt:00"; Ev_up_read "fscrypt:00";
                  Ev_key_put "fscrypt:00"] [] = Some [].
Proof. repeat split. Qed.
